(** * Party turn-order speed thresholds (tools/js/party-order.js)

    A shallow embedding of the two pure functions of the tool,
    [calculateBaseSpeeds] and [calculateWithBuffs], of the arithmetic
    helpers they call, and of the form handler [calculateSpeeds] as a
    function of the values it reads.  The functions that only touch the
    page ([toggleCollapsible], [displayResults], the [onload] handler) are
    not modelled.

    JavaScript numbers are IEEE 754 binary64 values.  They are modelled by
    Rocq's primitive [float], whose operations are the binary64 operations
    (round to nearest, ties to even) specified by [FloatAxioms]; nothing is
    idealised to exact rational arithmetic.  [Math.floor] is not a primitive
    and is defined below from the decoded representation [spec_float]. *)

From Stdlib Require Import ZArith Lia Bool List Floats.
From stdpp Require Import base option list gmap strings.

Local Open Scope Z_scope.

(** ** JavaScript numbers *)

Module JSNumber.

(** [Math.floor] on a decoded number: NaN, the infinities and the zeros are
    returned unchanged; a finite number with a non-negative exponent is
    already integral; otherwise the mantissa is shifted right, rounding
    toward minus infinity, and the integer obtained (of magnitude at most
    2^52) is converted back, zero becoming [+0]. *)
Definition SFfloor (x : spec_float) : spec_float :=
  match x with
  | S754_finite s m e =>
      if 0 <=? e then x
      else binary_normalize prec emax (Z.shiftr (cond_Zopp s (Zpos m)) (- e)) 0 false
  | _ => x
  end.

Definition Math_floor (x : float) : float := SF2Prim (SFfloor (Prim2SF x)).

(** A decoded number whose value is an integer (or which is not finite). *)
Definition SFint (x : spec_float) : Prop :=
  match x with
  | S754_finite _ m e => 0 <= e \/ (-52 <= e /\ exists q : Z, Zpos m = q * 2 ^ (- e))
  | _ => True
  end.

(** The decoded number one. *)
Definition SFone : spec_float := S754_finite false 4503599627370496 (-52).

(** The scale on which the values of binary64 numbers, their products and
    their quotients are compared as integers: [m * p2 e] stands for
    [m * 2^e], every exponent met being above [-2200]. *)
Definition p2 (e : Z) : Z := 2 ^ (e + 2200).

(** Where a real [W / D] lies between two consecutive multiples of [2^e]:
    at [m * 2^e] exactly, or strictly between it and [(m + 1) * 2^e], below,
    at or above the midpoint.  This is what the round and sticky bits of
    [SpecFloat] record. *)
Definition located (W D m e : Z) (l : location) : Prop :=
  match l with
  | loc_Exact => W = m * (p2 e * D)
  | loc_Inexact Lt => m * (p2 e * D) < W /\ 2 * W < (2 * m + 1) * (p2 e * D)
  | loc_Inexact Eq => 2 * W = (2 * m + 1) * (p2 e * D)
  | loc_Inexact Gt => (2 * m + 1) * (p2 e * D) < 2 * W /\ W < (m + 1) * (p2 e * D)
  end.


(** Reading index [k] of an array of numbers in a numeric context: an index
    outside the array yields [undefined], which arithmetic and [Math.floor]
    convert to NaN. *)
Definition index (a : list float) (k : Z) : float :=
  if k <? 0 then nan else default nan (a !! Z.to_nat k).

End JSNumber.

Export JSNumber.

(** ** The program *)

Module PartyOrder.

(** [BATTLE_FACTORS]: the literals 1.14 and 1.2 denote the nearest binary64
    values, written here exactly. *)
Definition BATTLE_FACTORS_NORMAL : float := 0x1.23d70a3d70a3dp+0%float.
Definition BATTLE_FACTORS_MEGAMON : float := 0x1.3333333333333p+0%float.

Definition PARTY_SIZE : Z := 4.

Definition floorDiv (a f : float) : float := Math_floor (a / f).

Definition floorMul (a f : float) : float := Math_floor (a * f).

(** The local array [s] of [calculateBaseSpeeds] is a JavaScript object
    whose integer keys are assigned freely (an assignment past the end
    extends the array, one at a negative key adds a property): a finite map
    from keys to numbers. *)
Definition jsarray := gmap Z float.

(** [new Array(n).fill(x)] *)
Definition Array_fill (n : Z) (x : float) : jsarray :=
  list_to_map (map (fun k => (k, x)) (seqZ 0 n)).

(** [s[k]] read in a numeric context. *)
Definition get (s : jsarray) (k : Z) : float := default nan (s !! k).

(** [s.slice(a, b)] for an array of length at least [b]. *)
Definition slice (s : jsarray) (a b : Z) : list float :=
  map (get s) (seqZ a (b - a)).

(** [for (let i = position - 1; i >= 1; i--) s[i] = floorMul(s[i + 1], factor) + 1] *)
Fixpoint upward (fuel : nat) (i : Z) (factor : float) (s : jsarray) : jsarray :=
  match fuel with
  | O => s
  | S fuel' =>
      if 1 <=? i
      then upward fuel' (i - 1) factor (<[i := (floorMul (get s (i + 1)) factor + 1)%float]> s)
      else s
  end.

(** [for (let j = position + 2; j <= PARTY_SIZE; j++) s[j] = floorDiv(s[j - 1], factor) - 1] *)
Fixpoint downward (fuel : nat) (j : Z) (factor : float) (s : jsarray) : jsarray :=
  match fuel with
  | O => s
  | S fuel' =>
      if j <=? PARTY_SIZE
      then
        let minPrev := floorDiv (get s (j - 1)) factor in
        downward fuel' (j + 1) factor (<[j := (minPrev - 1)%float]> s)
      else s
  end.

(** [position] is an integer, as the callers of the tool give it; the
    loop counters of the source are exact for integers below 2^53 in
    magnitude.  A position that is NaN or fractional (for which no loop
    touches the slots 1..4) is outside this model. *)
Definition calculateBaseSpeeds (position : Z) (baseSpeed factor : float) : list float :=
  let s := Array_fill (PARTY_SIZE + 1) 0%float in
  let s := <[position := baseSpeed]> s in
  let s := upward (Z.to_nat position) (position - 1) factor s in
  let minCurr := floorDiv (get s position) factor in
  let s := if position + 1 <=? PARTY_SIZE
           then <[position + 1 := (minCurr - 1)%float]> s else s in
  let s := downward (Z.to_nat (PARTY_SIZE - position)) (position + 2) factor s in
  slice s 1 (PARTY_SIZE + 1).

Record result := { baseSpeeds : list float; effectiveSpeeds : list float }.

Definition calculateWithBuffs (position : Z) (baseSpeed factor : float)
    (buffs : list float) : result :=
  let baseEffectiveSpeed := (baseSpeed * index buffs (position - 1))%float in
  let effectiveSpeeds :=
    calculateBaseSpeeds position (Math_floor baseEffectiveSpeed) factor in
  let baseSpeeds :=
    map (fun i => if i =? position - 1 then baseSpeed
                  else Math_floor (index effectiveSpeeds i / index buffs i))
        (seqZ 0 PARTY_SIZE) in
  let finalEffectiveSpeeds :=
    imap (fun i speed => Math_floor (speed * index buffs (Z.of_nat i))) baseSpeeds in
  {| baseSpeeds := baseSpeeds; effectiveSpeeds := finalEffectiveSpeeds |}.

(** Slot [i] (1-based) of a returned array. *)
Definition slot (out : list float) (i : Z) : float := index out (i - 1).


(** The form [calculateSpeeds] reads, as the values its fields yield: the
    string of the battle-type selector, the integer [parseInt] returns for
    the position selector, and the numbers [parseInt] and [parseFloat]
    return for the speed and the four buff fields (NaN for a field that
    does not parse).  A position field that does not parse is outside this
    model. *)
Record form := {
  battleType : string;
  basePosition : Z;
  baseSpeed : float;
  buff1 : float;
  buff2 : float;
  buff3 : float;
  buff4 : float
}.

(** What [calculateSpeeds] does with the form: it alerts and returns, or it
    calls [displayResults] with the raw speeds, the effective speeds and
    the buff multipliers. *)
Inductive outcome :=
| alert
| displayResults (baseSpeeds effectiveSpeeds buffs : list float).

(** [!x] for a number [x]: true of [+0], [-0] and NaN. *)
Definition falsy (x : float) : bool := (x =? 0)%float || is_nan x.

Definition calculateSpeeds (d : form) : outcome :=
  let position := basePosition d in
  let buffs := [buff1 d / 100; buff2 d / 100; buff3 d / 100; buff4 d / 100]%float in
  if falsy (baseSpeed d) || (baseSpeed d <=? 0)%float then alert
  else
    let factor := if String.eqb (battleType d) "megamon"
                  then BATTLE_FACTORS_MEGAMON else BATTLE_FACTORS_NORMAL in
    let result := calculateWithBuffs position (baseSpeed d) factor buffs in
    displayResults (baseSpeeds result) (effectiveSpeeds result) buffs.

End PartyOrder.

Export PartyOrder.

(** * Facts of binary64 arithmetic

    Derived from the specification of the primitive operations
    ([FloatAxioms]) and the definitions of [SpecFloat]. *)

(** ** Digits and exact shifts *)

(** [iter_pos], which [shr] uses, iterates as [Nat.iter] does. *)
Lemma iter_pos_nat {A} (f : A -> A) (p : positive) : forall x,
  SpecFloat.iter_pos f p x = Nat.iter (Pos.to_nat p) f x.
Proof.
  induction p as [p IH | p IH |]; intros x; cbn [SpecFloat.iter_pos].
  - rewrite !IH, Pos2Nat.inj_xI, <- Nat.iter_succ_r.
    rewrite <- Nat.iter_add. f_equal. lia.
  - rewrite !IH, Pos2Nat.inj_xO, <- Nat.iter_add. f_equal. lia.
  - reflexivity.
Qed.

(** A positive number of [d] binary digits lies in [[2^(d-1), 2^d)], and
    this determines [d]. *)
Lemma digits2_pos_bounds (p : positive) :
  2 ^ (Zpos (digits2_pos p) - 1) <= Zpos p < 2 ^ Zpos (digits2_pos p).
Proof.
  induction p as [p IH | p IH |]; simpl digits2_pos.
  - rewrite Pos2Z.inj_succ, Z.pow_succ_r by lia.
    replace (Z.succ (Zpos (digits2_pos p)) - 1) with (Z.succ (Zpos (digits2_pos p) - 1)) by lia.
    rewrite Z.pow_succ_r by lia. lia.
  - rewrite Pos2Z.inj_succ, Z.pow_succ_r by lia.
    replace (Z.succ (Zpos (digits2_pos p)) - 1) with (Z.succ (Zpos (digits2_pos p) - 1)) by lia.
    rewrite Z.pow_succ_r by lia. lia.
  - simpl. lia.
Qed.

Lemma digits2_pos_unique (p : positive) (d : Z) :
  2 ^ (d - 1) <= Zpos p < 2 ^ d -> Zpos (digits2_pos p) = d.
Proof.
  intros [Hl Hu]. pose proof (digits2_pos_bounds p) as [Hl' Hu'].
  destruct (Z.lt_trichotomy (Zpos (digits2_pos p)) d) as [H | [H | H]]; [| exact H |].
  - assert (2 ^ Zpos (digits2_pos p) <= 2 ^ (d - 1)) by (apply Z.pow_le_mono_r; lia). lia.
  - assert (0 <= d \/ d < 0) as [Hd | Hd] by lia.
    + assert (2 ^ d <= 2 ^ (Zpos (digits2_pos p) - 1)) by (apply Z.pow_le_mono_r; lia). lia.
    + rewrite Z.pow_neg_r in Hu by lia. lia.
Qed.

Lemma digits2_pos_shift (m M : positive) (k : Z) :
  0 <= k -> Zpos M = Zpos m * 2 ^ k ->
  Zpos (digits2_pos M) = Zpos (digits2_pos m) + k.
Proof.
  intros Hk HM. apply digits2_pos_unique. rewrite HM.
  pose proof (digits2_pos_bounds m) as [Hl Hu].
  replace (Zpos (digits2_pos m) + k - 1) with ((Zpos (digits2_pos m) - 1) + k) by lia.
  rewrite !Z.pow_add_r by lia.
  assert (0 < 2 ^ k) by (apply Z.pow_pos_nonneg; lia).
  split; [apply Z.mul_le_mono_nonneg_r; lia | apply Z.mul_lt_mono_pos_r; lia].
Qed.

(** Shifting out [k] zero bits is exact. *)
Lemma shr_1_exact (k : nat) : forall (M m : positive),
  Zpos M = Zpos m * 2 ^ Z.of_nat k ->
  Nat.iter k shr_1 {| shr_m := Zpos M; shr_r := false; shr_s := false |} =
  {| shr_m := Zpos m; shr_r := false; shr_s := false |}.
Proof.
  induction k as [|k IH]; intros M m HM.
  - simpl in *. f_equal. lia.
  - rewrite Nat.iter_succ_r.
    rewrite Nat2Z.inj_succ, Z.pow_succ_r in HM by lia.
    destruct M as [M | M |]; try lia.
    simpl shr_1. apply IH. lia.
Qed.

Lemma shr_exact (M m : positive) (e k : Z) :
  0 <= k -> Zpos M = Zpos m * 2 ^ k ->
  shr {| shr_m := Zpos M; shr_r := false; shr_s := false |} e k =
  ({| shr_m := Zpos m; shr_r := false; shr_s := false |}, e + k).
Proof.
  intros Hk HM. destruct k as [|p|p]; [| | lia].
  - simpl in *. f_equal; [f_equal; lia | lia].
  - unfold shr. rewrite iter_pos_nat. f_equal.
    apply shr_1_exact. rewrite positive_nat_Z. exact HM.
Qed.

(** The exponent binary64 gives to a number of magnitude below [2^x], and
    what it means for a mantissa and exponent to be those of a binary64
    number. *)
Lemma fexp_eq (x : Z) : fexp prec emax x = Z.max (x - 53) (-1074).
Proof. reflexivity. Qed.

Lemma bounded_inv (m : positive) (e : Z) :
  bounded prec emax m e = true ->
  Z.max (Zpos (digits2_pos m) + e - 53) (-1074) = e /\ e <= 971.
Proof.
  unfold bounded, canonical_mantissa. rewrite andb_true_iff, Z.eqb_eq, Z.leb_le, fexp_eq.
  intros [H1 H2]. split; [exact H1 | exact H2].
Qed.

(** Rounding a value that is representable returns it. *)
Lemma binary_round_aux_exact (sx : bool) (M m : positive) (e k : Z) :
  bounded prec emax m e = true -> 0 <= k -> Zpos M = Zpos m * 2 ^ k ->
  binary_round_aux prec emax sx (Zpos M) (e - k) loc_Exact = S754_finite sx m e.
Proof.
  intros Hb Hk HM. destruct (bounded_inv m e Hb) as [Hc He].
  unfold binary_round_aux, shr_fexp. cbn [Zdigits2 shr_record_of_loc].
  rewrite (digits2_pos_shift m M k Hk HM), fexp_eq.
  replace (Zpos (digits2_pos m) + k + (e - k) - 53) with (Zpos (digits2_pos m) + e - 53) by lia.
  rewrite Hc.
  rewrite (shr_exact M m (e - k) (e - (e - k))) by (try lia; replace (e - (e - k)) with k by lia; exact HM).
  cbn [loc_of_shr_record shr_m round_nearest_even Zdigits2 shr_record_of_loc].
  replace (e - k + (e - (e - k))) with e by lia.
  rewrite fexp_eq, Hc, Z.sub_diag. cbn [shr shr_m].
  change (emax - prec) with 971. apply Z.leb_le in He. rewrite He. reflexivity.
Qed.

(** ** Multiplying and dividing by one *)

Lemma Prim2SF_one : Prim2SF 1%float = S754_finite false 4503599627370496 (-52).
Proof. reflexivity. Qed.

Lemma mul_one (x : float) : (x * 1)%float = x.
Proof.
  apply Prim2SF_inj. rewrite mul_spec, Prim2SF_one.
  pose proof (Prim2SF_valid x) as Hv.
  destruct (Prim2SF x) as [sx | sx | | sx mx ex]; cbn [SF64mul SFmul];
    rewrite ?xorb_false_r; try reflexivity.
  replace (ex + -52) with (ex - 52) by lia.
  apply binary_round_aux_exact; [exact Hv | lia | ].
  rewrite Pos2Z.inj_mul. reflexivity.
Qed.


(** Dividing by one, the quotient computed before rounding is the dividend's
    mantissa, shifted left by zero bits or by one. *)
Lemma div_core_by_one (mx : positive) (ex : Z) :
  bounded prec emax mx ex = true ->
  exists (M : positive) (k : Z),
    0 <= k /\ Zpos M = Zpos mx * 2 ^ k /\
    SFdiv_core_binary prec emax (Zpos mx) ex 4503599627370496 (-52) =
    (Zpos M, ex - k, loc_Exact).
Proof.
  intros Hb. destruct (bounded_inv mx ex Hb) as [Hc He].
  unfold SFdiv_core_binary. cbn [Zdigits2]. rewrite fexp_eq.
  change (Zpos (digits2_pos 4503599627370496)) with 53.
  set (d := Zpos (digits2_pos mx)) in *.
  assert (Hs : (ex - -52 - Z.min (Z.max (d + ex - (53 + -52) - 53) (-1074)) (ex - -52) = 52
                /\ Z.min (Z.max (d + ex - (53 + -52) - 53) (-1074)) (ex - -52) = ex - 0)
            \/ (ex - -52 - Z.min (Z.max (d + ex - (53 + -52) - 53) (-1074)) (ex - -52) = 53
                /\ Z.min (Z.max (d + ex - (53 + -52) - 53) (-1074)) (ex - -52) = ex - 1)) by lia.
  destruct Hs as [[-> ->] | [-> ->]].
  - exists mx, 0. split; [lia |]. split; [simpl; lia |].
    rewrite Z.shiftl_mul_pow2 by lia.
    destruct (Z.div_eucl (Zpos mx * 2 ^ 52) 4503599627370496) as [q r] eqn:E.
    assert (Hq : q = Zpos mx * 2 ^ 52 / 4503599627370496) by (unfold Z.div; rewrite E; reflexivity).
    assert (Hr : r = (Zpos mx * 2 ^ 52) mod 4503599627370496) by (unfold Z.modulo; rewrite E; reflexivity).
    change (2 ^ 52) with 4503599627370496 in Hq, Hr.
    rewrite Z.div_mul in Hq by lia. rewrite Z.mod_mul in Hr by lia. subst q r.
    reflexivity.
  - exists (mx~0)%positive, 1. split; [lia |]. split; [simpl; lia |].
    rewrite Z.shiftl_mul_pow2 by lia.
    destruct (Z.div_eucl (Zpos mx * 2 ^ 53) 4503599627370496) as [q r] eqn:E.
    assert (Hq : q = Zpos mx * 2 ^ 53 / 4503599627370496) by (unfold Z.div; rewrite E; reflexivity).
    assert (Hr : r = (Zpos mx * 2 ^ 53) mod 4503599627370496) by (unfold Z.modulo; rewrite E; reflexivity).
    replace (Zpos mx * 2 ^ 53) with ((Zpos mx * 2) * 4503599627370496) in Hq, Hr by (change (2 ^ 53) with (2 * 4503599627370496); lia).
    rewrite Z.div_mul in Hq by lia. rewrite Z.mod_mul in Hr by lia. subst q r.
    replace (Zpos mx * 2) with (Zpos mx~0) by lia. reflexivity.
Qed.

Lemma div_one (x : float) : (x / 1)%float = x.
Proof.
  apply Prim2SF_inj. rewrite div_spec, Prim2SF_one.
  pose proof (Prim2SF_valid x) as Hv.
  destruct (Prim2SF x) as [sx | sx | | sx mx ex]; unfold SF64div; cbn [SFdiv];
    rewrite ?xorb_false_r; try reflexivity.
  destruct (div_core_by_one mx ex Hv) as (M & k & Hk & HM & ->).
  apply binary_round_aux_exact; assumption.
Qed.

(** ** Left shifts and integers *)

Lemma iter_xO_value (m k : positive) :
  Zpos (Pos.iter xO m k) = Zpos m * 2 ^ Zpos k.
Proof.
  induction k as [|k IH] using Pos.peano_ind.
  - simpl. lia.
  - rewrite Pos.iter_succ, Pos2Z.inj_xO, IH, Pos2Z.inj_succ, Z.pow_succ_r by lia. lia.
Qed.

Lemma shl_align_spec (mx : positive) (ex ex' : Z) :
  snd (shl_align mx ex ex') = Z.min ex ex' /\
  Zpos (fst (shl_align mx ex ex')) = Zpos mx * 2 ^ (ex - Z.min ex ex').
Proof.
  unfold shl_align. destruct (ex' - ex) as [|p|p] eqn:E; cbn [fst snd].
  - replace (Z.min ex ex') with ex by lia. rewrite Z.sub_diag. simpl. lia.
  - replace (Z.min ex ex') with ex by lia. rewrite Z.sub_diag. simpl. lia.
  - replace (Z.min ex ex') with ex' by lia. split; [reflexivity |].
    rewrite iter_xO_value. f_equal. f_equal. lia.
Qed.

Lemma digits2_pos_le (p : positive) (d : Z) :
  Zpos p < 2 ^ d -> Zpos (digits2_pos p) <= d.
Proof.
  intros Hp. pose proof (digits2_pos_bounds p) as [Hl _].
  destruct (Z_le_gt_dec (Zpos (digits2_pos p)) d) as [H | H]; [exact H |].
  assert (0 <= d \/ d < 0) as [Hd | Hd] by lia.
  - assert (2 ^ d <= 2 ^ (Zpos (digits2_pos p) - 1)) by (apply Z.pow_le_mono_r; lia). lia.
  - rewrite Z.pow_neg_r in Hp by lia. lia.
Qed.

(** The binary64 value of a non-zero integer below 2^53 in magnitude: its
    mantissa is the integer shifted left to 53 digits. *)
Lemma binary_normalize_small_int (n : Z) :
  n <> 0 -> Z.abs n < 2 ^ 53 ->
  exists (mz : positive) (ez : Z),
    binary_normalize prec emax n 0 false = S754_finite (n <? 0) mz ez /\
    -52 <= ez <= 0 /\ Zpos mz = Z.abs n * 2 ^ (- ez) /\
    bounded prec emax mz ez = true.
Proof.
  intros Hn Hlt.
  assert (Hgen : forall (s : bool) (p : positive), Zpos p < 2 ^ 53 ->
    exists (mz : positive) (ez : Z),
      binary_round prec emax s p 0 = S754_finite s mz ez /\
      -52 <= ez <= 0 /\ Zpos mz = Zpos p * 2 ^ (- ez) /\
      bounded prec emax mz ez = true).
  { intros s p Hp. unfold binary_round.
    pose proof (digits2_pos_le p 53 Hp) as Hd.
    pose proof (shl_align_spec p 0 (fexp prec emax (Zpos (digits2_pos p) + 0))) as [He Hm].
    destruct (shl_align p 0 (fexp prec emax (Zpos (digits2_pos p) + 0))) as [mz ez].
    cbn [fst snd] in He, Hm. rewrite fexp_eq in He, Hm.
    assert (Hez : ez = Zpos (digits2_pos p) - 53) by lia.
    rewrite <- He in Hm. replace (0 - ez) with (- ez) in Hm by lia.
    assert (Hdz : Zpos (digits2_pos mz) = 53).
    { rewrite (digits2_pos_shift p mz (- ez)) by (lia || exact Hm). lia. }
    assert (Hb : bounded prec emax mz ez = true).
    { unfold bounded, canonical_mantissa. rewrite fexp_eq, Hdz.
      apply andb_true_iff. split; [apply Z.eqb_eq | apply Z.leb_le; change (emax - prec) with 971]; lia. }
    exists mz, ez. split; [| repeat split; (lia || assumption)].
    replace ez with (ez - 0) at 1 by lia.
    apply binary_round_aux_exact; [exact Hb | lia | simpl; lia]. }
  destruct n as [|p|p]; [congruence | |]; cbn [binary_normalize Z.ltb Z.compare Z.abs] in *.
  - apply Hgen. exact Hlt.
  - apply Hgen. exact Hlt.
Qed.

(** ** [Math.floor] and integral numbers *)

(** A binary64 mantissa has at most 53 digits, and exactly 53 above the
    smallest exponent. *)
Lemma bounded_digits (m : positive) (e : Z) :
  bounded prec emax m e = true -> Zpos m < 2 ^ 53.
Proof.
  intros Hb. destruct (bounded_inv m e Hb) as [Hc _].
  pose proof (digits2_pos_bounds m) as [_ Hu].
  assert (2 ^ Zpos (digits2_pos m) <= 2 ^ 53) by (apply Z.pow_le_mono_r; lia). lia.
Qed.

Lemma bounded_normal_digits (m : positive) (e : Z) :
  bounded prec emax m e = true -> -1074 < e -> Zpos (digits2_pos m) = 53.
Proof. intros Hb He. destruct (bounded_inv m e Hb) as [Hc _]. lia. Qed.

(** [SFfloor] returns a binary64 number, and an integral one. *)
Lemma SFfloor_valid_int (x : spec_float) :
  valid_binary x = true -> valid_binary (SFfloor x) = true /\ SFint (SFfloor x).
Proof.
  intros Hv. destruct x as [s | s | | s m e]; cbn [SFfloor]; try (split; [exact Hv | exact I]).
  destruct (Z.leb_spec 0 e) as [He | He].
  - split; [exact Hv | left; exact He].
  - pose proof (bounded_digits m e Hv) as Hm.
    set (n := Z.shiftr (cond_Zopp s (Zpos m)) (- e)).
    assert (Hn : Z.abs n <= Zpos m).
    { unfold n. rewrite Z.shiftr_div_pow2 by lia.
      assert (HP : 0 < 2 ^ (- e)) by (apply Z.pow_pos_nonneg; lia).
      destruct s; cbn [cond_Zopp].
      - assert (- Zpos m <= - Zpos m / 2 ^ (- e)) by (apply Z.div_le_lower_bound; nia).
        assert (- Zpos m / 2 ^ (- e) < 0) by (apply Z.div_lt_upper_bound; lia). lia.
      - assert (0 <= Zpos m / 2 ^ (- e)) by (apply Z.div_pos; lia).
        assert (Zpos m / 2 ^ (- e) <= Zpos m) by (apply Z.div_le_upper_bound; nia). lia. }
    destruct (Z.eq_dec n 0) as [-> | Hn0]; [split; reflexivity |].
    destruct (binary_normalize_small_int n Hn0 ltac:(lia)) as (mz & ez & -> & Hez & Hmz & Hb).
    split; [exact Hb |]. right. split; [lia |]. exists (Z.abs n). exact Hmz.
Qed.

(** [SFfloor] leaves an integral number unchanged. *)
Lemma SFint_fixed (x : spec_float) :
  valid_binary x = true -> SFint x -> SFfloor x = x.
Proof.
  intros Hv Hi. destruct x as [s | s | | s m e]; cbn [SFfloor]; try reflexivity.
  destruct (Z.leb_spec 0 e) as [He | He]; [reflexivity |].
  destruct Hi as [Hi | [Hlo [q Hq]]]; [lia |].
  assert (HP : 0 < 2 ^ (- e)) by (apply Z.pow_pos_nonneg; lia).
  assert (Hq0 : 0 < q) by nia.
  assert (Hn : Z.shiftr (cond_Zopp s (Zpos m)) (- e) = cond_Zopp s q).
  { rewrite Z.shiftr_div_pow2 by lia. destruct s; cbn [cond_Zopp].
    - rewrite Hq, <- Z.mul_opp_l, Z.div_mul by lia. reflexivity.
    - rewrite Hq, Z.div_mul by lia. reflexivity. }
  rewrite Hn.
  pose proof (bounded_digits m e Hv) as Hm.
  assert (Hqm : q <= Zpos m) by nia.
  destruct (binary_normalize_small_int (cond_Zopp s q)) as (mz & ez & -> & Hez & Hmz & Hb).
  { destruct s; cbn [cond_Zopp]; lia. }
  { destruct s; cbn [cond_Zopp]; lia. }
  assert (Habs : Z.abs (cond_Zopp s q) = q) by (destruct s; cbn [cond_Zopp]; lia).
  rewrite Habs in Hmz.
  assert (Hs : (cond_Zopp s q <? 0) = s).
  { destruct s; cbn [cond_Zopp]; [apply Z.ltb_lt | apply Z.ltb_ge]; lia. }
  rewrite Hs.
  destruct q as [|qp|qp]; try lia.
  pose proof (digits2_pos_shift qp m (- e) ltac:(lia) Hq) as D1.
  pose proof (digits2_pos_shift qp mz (- ez) ltac:(lia) Hmz) as D2.
  rewrite (bounded_normal_digits m e Hv) in D1 by lia.
  rewrite (bounded_normal_digits mz ez Hb) in D2 by lia.
  assert (ez = e) by lia. subst ez.
  assert (mz = m) by lia. subst mz. reflexivity.
Qed.

(** [Math_floor] computes [SFfloor] on the decoded numbers; its fixed points
    are the integral numbers, and it is idempotent. *)
Lemma Math_floor_spec (x : float) : Prim2SF (Math_floor x) = SFfloor (Prim2SF x).
Proof.
  unfold Math_floor. apply Prim2SF_SF2Prim.
  apply SFfloor_valid_int, Prim2SF_valid.
Qed.

Lemma Math_floor_fixed_iff (x : float) : Math_floor x = x <-> SFint (Prim2SF x).
Proof.
  split; intros H.
  - pose proof (SFfloor_valid_int (Prim2SF x) (Prim2SF_valid x)) as [_ Hi].
    rewrite <- Math_floor_spec, H in Hi. exact Hi.
  - apply Prim2SF_inj. rewrite Math_floor_spec.
    apply SFint_fixed; [apply Prim2SF_valid | exact H].
Qed.

Lemma Math_floor_idempotent (x : float) : Math_floor (Math_floor x) = Math_floor x.
Proof.
  apply Math_floor_fixed_iff. rewrite Math_floor_spec.
  apply SFfloor_valid_int, Prim2SF_valid.
Qed.

(** ** Adding and subtracting one keeps integers integral *)

(** Rounding never lowers the exponent below the one the format gives to
    the magnitude of the value. *)
Lemma shr_exponent (r : shr_record) (e n : Z) : e <= snd (shr r e n) /\ e + n <= snd (shr r e n).
Proof. destruct n; cbn [shr snd]; lia. Qed.

Lemma binary_round_aux_exponent (s : bool) (M E : Z) (l : location) :
  match binary_round_aux prec emax s M E l with
  | S754_finite _ _ e => fexp prec emax (Zdigits2 M + E) <= e
  | _ => True
  end.
Proof.
  unfold binary_round_aux, shr_fexp.
  pose proof (shr_exponent (shr_record_of_loc M l) E (fexp prec emax (Zdigits2 M + E) - E)) as [_ H1].
  destruct (shr (shr_record_of_loc M l) E (fexp prec emax (Zdigits2 M + E) - E)) as [mrs' e'].
  cbn [snd] in H1.
  set (m1 := round_nearest_even (shr_m mrs') (loc_of_shr_record mrs')).
  pose proof (shr_exponent (shr_record_of_loc m1 loc_Exact) e' (fexp prec emax (Zdigits2 m1 + e') - e')) as [H2 _].
  destruct (shr (shr_record_of_loc m1 loc_Exact) e' (fexp prec emax (Zdigits2 m1 + e') - e')) as [mrs'' e''].
  cbn [snd] in H2.
  destruct (shr_m mrs''); try exact I.
  destruct (e'' <=? emax - prec); [lia | exact I].
Qed.

(** The value of an integer multiple of 2^52 at exponent -52 is integral. *)
Lemma binary_normalize_scaled_int (N : Z) :
  SFint (binary_normalize prec emax (N * 2 ^ 52) (-52) false).
Proof.
  assert (Hgen : forall (s : bool) (P np : positive), Zpos P = Zpos np * 2 ^ 52 ->
            SFint (binary_round prec emax s P (-52))).
  { intros s P np HP. unfold binary_round.
    pose proof (digits2_pos_shift np P 52 ltac:(lia) HP) as HdP.
    pose proof (shl_align_spec P (-52) (fexp prec emax (Zpos (digits2_pos P) + -52))) as [He Hm].
    destruct (shl_align P (-52) (fexp prec emax (Zpos (digits2_pos P) + -52))) as [mz ez].
    cbn [fst snd] in He, Hm. rewrite fexp_eq in He, Hm.
    assert (Hez : ez = -52) by lia. subst ez.
    replace (-52 - Z.min (-52) (Z.max (Zpos (digits2_pos P) + -52 - 53) (-1074))) with 0 in Hm by lia.
    assert (mz = P) by (simpl in Hm; lia). subst mz.
    rewrite Hez.
    destruct (Z_lt_ge_dec (Zpos np) (2 ^ 53)) as [Hsmall | Hbig].
    - destruct (binary_normalize_small_int (Zpos np) ltac:(lia) Hsmall)
        as (mz & ez & _ & Hez' & Hmz & Hb).
      cbn [Z.abs] in Hmz.
      replace (-52) with (ez - (52 + ez)) by lia.
      rewrite (binary_round_aux_exact s P mz ez (52 + ez) Hb ltac:(lia)).
      + right. split; [lia |]. exists (Zpos np). exact Hmz.
      + rewrite HP, Hmz, <- Z.mul_assoc, <- Z.pow_add_r by lia.
        f_equal. f_equal. lia.
    - pose proof (binary_round_aux_exponent s (Zpos P) (-52) loc_Exact) as Hexp.
      destruct (binary_round_aux prec emax s (Zpos P) (-52) loc_Exact); try exact I.
      cbn [Zdigits2] in Hexp. rewrite fexp_eq in Hexp.
      pose proof (digits2_pos_bounds np) as [_ Hu].
      assert (53 < Zpos (digits2_pos np)).
      { destruct (Z_lt_ge_dec 53 (Zpos (digits2_pos np))) as [H | H]; [exact H |].
        assert (2 ^ Zpos (digits2_pos np) <= 2 ^ 53) by (apply Z.pow_le_mono_r; lia). lia. }
      left. lia. }
  change (2 ^ 52) with 4503599627370496 in *.
  destruct N as [|np|np]; cbn [Z.mul binary_normalize].
  - exact I.
  - apply (Hgen false _ np). rewrite Pos2Z.inj_mul. reflexivity.
  - apply (Hgen true _ np). rewrite Pos2Z.inj_mul. reflexivity.
Qed.

(** The mantissa of an integral finite number, aligned at exponent -52, is
    a multiple of 2^52. *)
Lemma SFint_scaled (s : bool) (m : positive) (e : Z) :
  SFint (S754_finite s m e) ->
  -52 <= e /\ exists X : Z, Zpos m * 2 ^ (e + 52) = X * 2 ^ 52.
Proof.
  intros [He | [He [q Hq]]].
  - split; [lia |]. exists (Zpos m * 2 ^ e). rewrite Z.pow_add_r by lia. lia.
  - split; [lia |]. exists q. rewrite Hq.
    assert (e <= 0).
    { destruct (Z_le_gt_dec e 0) as [H0 | H0]; [exact H0 |].
      rewrite Z.pow_neg_r in Hq by lia. lia. }
    rewrite <- Z.mul_assoc, <- Z.pow_add_r by lia. f_equal. f_equal. lia.
Qed.

Lemma SFint_add_one (x : spec_float) :
  SFint x -> SFint (SF64add x SFone).
Proof.
  intros Hi. destruct x as [s | s | | s m e]; unfold SF64add, SFone; cbn [SFadd]; try exact I.
  - right. split; [lia |]. exists 1. reflexivity.
  - destruct (SFint_scaled s m e Hi) as [He [X HX]].
    replace (Z.min e (-52)) with (-52) by lia.
    pose proof (shl_align_spec m e (-52)) as [_ Hm].
    replace (e - Z.min e (-52)) with (e + 52) in Hm by lia.
    rewrite Hm, HX.
    change (fst (shl_align 4503599627370496 (-52) (-52))) with 4503599627370496%positive.
    cbn [cond_Zopp].
    replace (cond_Zopp s (X * 2 ^ 52) + 4503599627370496) with ((cond_Zopp s X + 1) * 2 ^ 52)
      by (destruct s; cbn [cond_Zopp]; change (2 ^ 52) with 4503599627370496; lia).
    apply binary_normalize_scaled_int.
Qed.

Lemma SFint_sub_one (x : spec_float) :
  SFint x -> SFint (SF64sub x SFone).
Proof.
  intros Hi. destruct x as [s | s | | s m e]; unfold SF64sub, SFone; cbn [SFsub]; try exact I.
  - right. split; [lia |]. exists 1. reflexivity.
  - destruct (SFint_scaled s m e Hi) as [He [X HX]].
    replace (Z.min e (-52)) with (-52) by lia.
    pose proof (shl_align_spec m e (-52)) as [_ Hm].
    replace (e - Z.min e (-52)) with (e + 52) in Hm by lia.
    rewrite Hm, HX.
    change (fst (shl_align 4503599627370496 (-52) (-52))) with 4503599627370496%positive.
    cbn [cond_Zopp].
    replace (cond_Zopp s (X * 2 ^ 52) - 4503599627370496) with ((cond_Zopp s X - 1) * 2 ^ 52)
      by (destruct s; cbn [cond_Zopp]; change (2 ^ 52) with 4503599627370496; lia).
    apply binary_normalize_scaled_int.
Qed.

(** Hence [x + 1] and [x - 1] are integral when [x] is. *)
Lemma Math_floor_add_one (x : float) :
  Math_floor x = x -> Math_floor (x + 1) = (x + 1)%float.
Proof.
  rewrite !Math_floor_fixed_iff, add_spec, Prim2SF_one. apply SFint_add_one.
Qed.

Lemma Math_floor_sub_one (x : float) :
  Math_floor x = x -> Math_floor (x - 1) = (x - 1)%float.
Proof.
  rewrite !Math_floor_fixed_iff, sub_spec, Prim2SF_one. apply SFint_sub_one.
Qed.

(** ** Values as scaled integers *)

Lemma p2_pos (e : Z) : -2200 <= e -> 0 < p2 e.
Proof. intros. apply Z.pow_pos_nonneg; lia. Qed.

Lemma p2_add (e k : Z) : -2200 <= e -> 0 <= k -> p2 (e + k) = p2 e * 2 ^ k.
Proof.
  intros. unfold p2. replace (e + k + 2200) with (e + 2200 + k) by lia.
  apply Z.pow_add_r; lia.
Qed.

Lemma p2_le (e e' : Z) : -2200 <= e -> e <= e' -> p2 e <= p2 e'.
Proof. intros. apply Z.pow_le_mono_r; lia. Qed.

Lemma p2_succ (e : Z) : -2200 <= e -> p2 (e + 1) = 2 * p2 e.
Proof. intros. rewrite p2_add by lia. change (2 ^ 1) with 2. lia. Qed.

Lemma p2_mul (a b : Z) :
  -2200 <= a -> -2200 <= b -> -2200 <= a + b -> p2 a * p2 b = p2 (a + b) * p2 0.
Proof.
  intros. unfold p2. rewrite <- !Z.pow_add_r by lia. f_equal. lia.
Qed.

Global Opaque p2.

(** ** Right shifts truncate *)

(** Whatever the round and sticky bits, [shr] divides the mantissa by a
    power of two and adds the shift to the exponent. *)
Lemma shr_1_m (r : shr_record) : 0 <= shr_m r -> shr_m (shr_1 r) = shr_m r / 2.
Proof.
  destruct r as [m rb sb]. cbn [shr_m]. intros Hm. rewrite <- Z.div2_div.
  destruct m as [|[p|p|]|p]; try reflexivity. lia.
Qed.

Lemma iter_shr_1_m (k : nat) (r : shr_record) :
  0 <= shr_m r -> shr_m (Nat.iter k shr_1 r) = shr_m r / 2 ^ Z.of_nat k.
Proof.
  intros Hm. induction k as [|k IH].
  - simpl. rewrite Z.div_1_r. reflexivity.
  - rewrite Nat.iter_succ, shr_1_m.
    + rewrite IH, Nat2Z.inj_succ, Z.pow_succ_r, Z.div_div by lia.
      f_equal. lia.
    + rewrite IH. apply Z.div_pos; [lia | apply Z.pow_pos_nonneg; lia].
Qed.

Lemma shr_spec (r : shr_record) (e n : Z) :
  0 <= shr_m r ->
  shr_m (fst (shr r e n)) = shr_m r / 2 ^ Z.max n 0 /\ snd (shr r e n) = e + Z.max n 0.
Proof.
  intros Hm. destruct n as [|p|p]; cbn [shr fst snd].
  - simpl. rewrite Z.div_1_r. lia.
  - rewrite iter_pos_nat, iter_shr_1_m, positive_nat_Z by exact Hm.
    replace (Z.max (Zpos p) 0) with (Zpos p) by lia. lia.
  - simpl. rewrite Z.div_1_r. lia.
Qed.

Lemma shr_record_of_loc_m (m : Z) (l : location) : shr_m (shr_record_of_loc m l) = m.
Proof. destruct l as [|[ | | ]]; reflexivity. Qed.

Lemma round_nearest_even_bounds (m : Z) (l : location) :
  m <= round_nearest_even m l <= m + 1.
Proof. destruct l as [|[ | | ]]; cbn [round_nearest_even]; try destruct (Z.even m); lia. Qed.

(** The truncation of a value to the precision of its binade is at least
    every number of at most 53 digits, at an exponent of the format, below
    the value. *)
Lemma truncation_above_representable (M E : Z) (ma : positive) (ea : Z) :
  0 < M -> -2200 <= E ->
  Zpos ma < 2 ^ 53 -> -1074 <= ea ->
  Zpos ma * p2 ea <= M * p2 E ->
  forall n : Z, n = Z.max (fexp prec emax (Zdigits2 M + E) - E) 0 ->
  Zpos ma * p2 ea <= (M / 2 ^ n) * p2 (E + n).
Proof.
  intros HM HE Hma Hea Hle n Hn.
  destruct M as [|M|M]; try lia. cbn [Zdigits2] in Hn.
  rewrite fexp_eq in Hn.
  assert (Hn0 : 0 <= n) by lia.
  assert (HP : 0 < 2 ^ n) by (apply Z.pow_pos_nonneg; lia).
  destruct (Z.eq_dec n 0) as [Hz | Hnz].
  { rewrite Hz. simpl. rewrite Z.div_1_r, Z.add_0_r. exact Hle. }
  assert (He' : E + n = Z.max (Zpos (digits2_pos M) + E - 53) (-1074)) by lia.
  destruct (Z_le_gt_dec (E + n) ea) as [Hge | Hlt].
  - (* the representable number lies on the grid of the truncation *)
    assert (H1 : p2 ea = p2 E * 2 ^ n * 2 ^ (ea - (E + n))).
    { rewrite <- p2_add by lia. rewrite <- p2_add by lia. f_equal. lia. }
    assert (Hq : 0 < 2 ^ (ea - (E + n))) by (apply Z.pow_pos_nonneg; lia).
    pose proof (p2_pos E HE) as HpE.
    assert (H2 : Zpos ma * 2 ^ (ea - (E + n)) <= Zpos M / 2 ^ n).
    { apply Z.div_le_lower_bound; [lia |]. rewrite H1 in Hle. nia. }
    rewrite (p2_add E n) by lia. rewrite H1. nia.
  - (* the representable number lies in a lower binade *)
    assert (Hn' : n = Zpos (digits2_pos M) - 53) by lia.
    pose proof (digits2_pos_bounds M) as [Hl _].
    assert (H52 : 2 ^ 52 <= Zpos M / 2 ^ n).
    { apply Z.div_le_lower_bound; [lia |].
      rewrite Z.mul_comm, <- Z.pow_add_r by lia.
      replace (52 + n) with (Zpos (digits2_pos M) - 1) by lia. exact Hl. }
    assert (H3 : p2 ea <= p2 (E + n - 1)) by (apply p2_le; lia).
    assert (H4 : p2 (E + n) = 2 * p2 (E + n - 1)).
    { rewrite <- p2_succ by lia. f_equal. lia. }
    pose proof (p2_pos ea ltac:(lia)) as Hpa.
    rewrite H4. change (2 ^ 52) with 4503599627370496 in H52.
    change (2 ^ 53) with 9007199254740992 in Hma. nia.
Qed.

(** Rounding never goes below a representable number that the exact value
    reaches, whatever the rounding direction the location asks for. *)
Lemma binary_round_aux_lower (s : bool) (M E : Z) (l : location) (ma : positive) (ea : Z) :
  0 < M -> -2200 <= E ->
  Zpos ma < 2 ^ 53 -> -1074 <= ea ->
  Zpos ma * p2 ea <= M * p2 E ->
  binary_round_aux prec emax s M E l = S754_infinity s \/
  exists (m : positive) (e : Z),
    binary_round_aux prec emax s M E l = S754_finite s m e /\
    Zpos ma * p2 ea <= Zpos m * p2 e.
Proof.
  intros HM HE Hma Hea Hle.
  pose proof (p2_pos ea ltac:(lia)) as Hpa.
  unfold binary_round_aux, shr_fexp.
  pose proof (shr_spec (shr_record_of_loc M l) E (fexp prec emax (Zdigits2 M + E) - E)) as H1.
  rewrite shr_record_of_loc_m in H1. specialize (H1 ltac:(lia)).
  destruct (shr (shr_record_of_loc M l) E (fexp prec emax (Zdigits2 M + E) - E)) as [mrs' e'].
  cbn [fst snd] in H1. destruct H1 as [Hm' He'].
  pose proof (truncation_above_representable M E ma ea HM HE Hma Hea Hle _ eq_refl) as T1.
  rewrite <- Hm', <- He' in T1.
  pose proof (round_nearest_even_bounds (shr_m mrs') (loc_of_shr_record mrs')) as [Hr _].
  set (m1 := round_nearest_even (shr_m mrs') (loc_of_shr_record mrs')) in *.
  assert (He'lo : -2200 <= e') by lia.
  pose proof (p2_pos e' He'lo) as Hpe'.
  assert (Hm1 : 0 < m1) by nia.
  assert (T1' : Zpos ma * p2 ea <= m1 * p2 e') by nia.
  pose proof (shr_spec (shr_record_of_loc m1 loc_Exact) e' (fexp prec emax (Zdigits2 m1 + e') - e')) as H2.
  rewrite shr_record_of_loc_m in H2. specialize (H2 ltac:(lia)).
  destruct (shr (shr_record_of_loc m1 loc_Exact) e' (fexp prec emax (Zdigits2 m1 + e') - e')) as [mrs'' e''].
  cbn [fst snd] in H2. destruct H2 as [Hm'' He''].
  pose proof (truncation_above_representable m1 e' ma ea Hm1 He'lo Hma Hea T1' _ eq_refl) as T2.
  rewrite <- Hm'', <- He'' in T2.
  pose proof (p2_pos e'' ltac:(lia)) as Hpe''.
  destruct (shr_m mrs'') as [|m''|m'']; [lia | | lia].
  destruct (e'' <=? emax - prec); [right; exists m'', e''; split; [reflexivity | exact T2] | left; reflexivity].
Qed.

(** ** The order of positive numbers *)

(** Positive binary64 numbers compare as their values. *)
Lemma SFcompare_pos (m1 m2 : positive) (e1 e2 : Z) :
  bounded prec emax m1 e1 = true -> bounded prec emax m2 e2 = true ->
  SFcompare (S754_finite false m1 e1) (S754_finite false m2 e2) =
  Some (Zpos m1 * p2 e1 ?= Zpos m2 * p2 e2).
Proof.
  intros H1 H2. cbn [SFcompare].
  destruct (bounded_inv m1 e1 H1) as [Hc1 _]. destruct (bounded_inv m2 e2 H2) as [Hc2 _].
  pose proof (bounded_digits m1 e1 H1) as Hm1. pose proof (bounded_digits m2 e2 H2) as Hm2.
  pose proof (digits2_pos_bounds m1) as [Hl1 _]. pose proof (digits2_pos_bounds m2) as [Hl2 _].
  change (2 ^ 53) with 9007199254740992 in *.
  f_equal. symmetry. destruct (Z.compare_spec e1 e2) as [He | He | He].
  - subst e2. pose proof (p2_pos e1 ltac:(lia)).
    rewrite <- Zmult_compare_compat_r by lia. reflexivity.
  - apply Z.compare_lt_iff.
    assert (Hd : Zpos (digits2_pos m2) = 53) by lia. rewrite Hd in Hl2.
    change (2 ^ (53 - 1)) with 4503599627370496 in Hl2.
    pose proof (p2_le e1 (e2 - 1) ltac:(lia) ltac:(lia)).
    pose proof (p2_succ (e2 - 1) ltac:(lia)) as Hs. replace (e2 - 1 + 1) with e2 in Hs by lia.
    pose proof (p2_pos e1 ltac:(lia)). nia.
  - apply Z.compare_gt_iff.
    assert (Hd : Zpos (digits2_pos m1) = 53) by lia. rewrite Hd in Hl1.
    change (2 ^ (53 - 1)) with 4503599627370496 in Hl1.
    pose proof (p2_le e2 (e1 - 1) ltac:(lia) ltac:(lia)).
    pose proof (p2_succ (e1 - 1) ltac:(lia)) as Hs. replace (e1 - 1 + 1) with e1 in Hs by lia.
    pose proof (p2_pos e2 ltac:(lia)). nia.
Qed.

(** A binary64 number above one is at least [1 + 2^-52]. *)
Lemma gt_one_inv (mf : positive) (ef : Z) :
  bounded prec emax mf ef = true ->
  SFltb SFone (S754_finite false mf ef) = true ->
  -52 <= ef /\ 2 ^ 52 + 1 <= Zpos mf * 2 ^ (ef + 52).
Proof.
  intros Hb Hlt. unfold SFltb, SFone in Hlt. cbn [SFcompare] in Hlt.
  destruct (bounded_inv mf ef Hb) as [Hc _].
  pose proof (digits2_pos_bounds mf) as [Hl _].
  change (2 ^ 52) with 4503599627370496.
  destruct (Z.compare_spec (-52) ef) as [He | He | He]; try discriminate.
  - subst ef. split; [lia |].
    destruct (Pos.compare_cont Eq 4503599627370496 mf) eqn:Hcmp; try discriminate.
    change (Pos.compare_cont Eq 4503599627370496 mf) with (Pos.compare 4503599627370496 mf) in Hcmp.
    assert (Hlt' : (4503599627370496 < mf)%positive) by exact Hcmp.
    change (-52 + 52) with 0. rewrite Z.pow_0_r. lia.
  - split; [lia |].
    assert (Hd : Zpos (digits2_pos mf) = 53) by lia. rewrite Hd in Hl.
    change (2 ^ (53 - 1)) with 4503599627370496 in Hl.
    assert (2 <= 2 ^ (ef + 52)).
    { change 2 with (2 ^ 1) at 1. apply Z.pow_le_mono_r; lia. }
    nia.
Qed.

(** ** One step of the upward pass: [Math.floor (x * f) + 1] *)

(** The value just above a 53-digit mantissa, at the same exponent, is
    again a mantissa of at most 53 digits at an exponent of the format. *)
Lemma successor_value (m : positive) (e : Z) :
  Zpos m < 2 ^ 53 -> -1074 <= e ->
  exists (ma : positive) (ea : Z),
    Zpos ma < 2 ^ 53 /\ -1074 <= ea /\ Zpos ma * p2 ea = (Zpos m + 1) * p2 e.
Proof.
  intros Hm He. change (2 ^ 53) with 9007199254740992 in *.
  destruct (Z_lt_ge_dec (Zpos m + 1) 9007199254740992) as [H | H].
  - exists (Pos.succ m), e. rewrite Pos2Z.inj_succ. repeat split; lia.
  - exists 4503599627370496%positive, (e + 1). rewrite p2_succ by lia.
    assert (Hs : Zpos m + 1 = 9007199254740992) by lia. rewrite Hs.
    repeat split; lia.
Qed.

(** The product of a number of mantissa [m], at exponent [e], by a factor
    above one rounds to at least [(m + 1) * 2^e], or overflows. *)
Lemma mul_gt_one_lower (m mf : positive) (e ef : Z) :
  bounded prec emax m e = true -> -52 <= e ->
  -52 <= ef -> 2 ^ 52 + 1 <= Zpos mf * 2 ^ (ef + 52) ->
  SF64mul (S754_finite false m e) (S754_finite false mf ef) = S754_infinity false \/
  exists (my : positive) (ey : Z),
    SF64mul (S754_finite false m e) (S754_finite false mf ef) = S754_finite false my ey /\
    (Zpos m + 1) * p2 e <= Zpos my * p2 ey.
Proof.
  intros Hb He Hef Hf.
  pose proof (bounded_digits m e Hb) as Hm.
  pose proof (bounded_normal_digits m e Hb ltac:(lia)) as Hd.
  pose proof (digits2_pos_bounds m) as [Hl _]. rewrite Hd in Hl.
  change (2 ^ (53 - 1)) with 4503599627370496 in Hl.
  destruct (successor_value m e Hm ltac:(lia)) as (ma & ea & Hma & Hea & Hv).
  unfold SF64mul. cbn [SFmul xorb]. rewrite <- Hv.
  apply binary_round_aux_lower; try lia.
  rewrite Hv, Pos2Z.inj_mul.
  replace (e + ef) with (e - 52 + (ef + 52)) by lia.
  rewrite (p2_add (e - 52) (ef + 52)) by lia.
  replace e with (e - 52 + 52) at 1 by lia.
  rewrite (p2_add (e - 52) 52) by lia.
  pose proof (p2_pos (e - 52) ltac:(lia)).
  change (2 ^ 52) with 4503599627370496 in *. nia.
Qed.

(** [Math.floor] of a positive number that is at least a positive integer
    [Xv]: an integer [Zv], at least [Xv], with the number below [Zv + 1]. *)
Lemma floor_lower (my : positive) (ey Xv : Z) :
  bounded prec emax my ey = true -> 1 <= Xv ->
  Xv * p2 0 <= Zpos my * p2 ey ->
  exists (mz : positive) (ez Zv : Z),
    SFfloor (S754_finite false my ey) = S754_finite false mz ez /\
    bounded prec emax mz ez = true /\ -52 <= ez /\
    Zpos mz * 2 ^ (ez + 52) = Zv * 2 ^ 52 /\
    Zpos mz * p2 ez = Zv * p2 0 /\
    Xv <= Zv /\ Zpos my * p2 ey < (Zv + 1) * p2 0 /\
    Zv * p2 0 <= Zpos my * p2 ey.
Proof.
  intros Hb HX Hle. cbn [SFfloor].
  destruct (bounded_inv my ey Hb) as [Hc _].
  pose proof (bounded_digits my ey Hb) as Hm.
  destruct (Z.leb_spec 0 ey) as [Hey | Hey].
  - exists my, ey, (Zpos my * 2 ^ ey).
    assert (0 < 2 ^ ey) by (apply Z.pow_pos_nonneg; lia).
    pose proof (p2_pos 0 ltac:(lia)).
    assert (Hp : p2 ey = p2 0 * 2 ^ ey).
    { rewrite <- p2_add by lia. f_equal. }
    split; [reflexivity |]. split; [exact Hb |]. split; [lia |].
    split; [rewrite Z.pow_add_r by lia; lia |].
    split; [rewrite Hp; lia |].
    split; [rewrite Hp in Hle; nia |]. split; [rewrite Hp; nia | rewrite Hp; lia].
  - cbn [cond_Zopp]. rewrite Z.shiftr_div_pow2 by lia.
    set (n := Zpos my / 2 ^ (- ey)).
    assert (HP : 0 < 2 ^ (- ey)) by (apply Z.pow_pos_nonneg; lia).
    assert (Hp : p2 0 = p2 ey * 2 ^ (- ey)).
    { rewrite <- p2_add by lia. f_equal. lia. }
    pose proof (p2_pos ey ltac:(lia)) as Hpe.
    assert (Hn : Xv <= n).
    { apply Z.div_le_lower_bound; [lia |]. rewrite Hp in Hle. nia. }
    assert (Hn2 : n <= Zpos my).
    { apply Z.div_le_upper_bound; [lia |]. nia. }
    assert (Hn3 : Zpos my < (n + 1) * 2 ^ (- ey)).
    { pose proof (Z.mul_succ_div_gt (Zpos my) (2 ^ (- ey)) HP). unfold n. lia. }
    destruct (binary_normalize_small_int n ltac:(lia) ltac:(lia)) as (mz & ez & -> & Hez & Hmz & Hbz).
    replace (n <? 0) with false by (symmetry; apply Z.ltb_ge; lia).
    replace (Z.abs n) with n in Hmz by lia.
    exists mz, ez, n.
    assert (Hpz : p2 0 = p2 ez * 2 ^ (- ez)).
    { rewrite <- p2_add by lia. f_equal. lia. }
    split; [reflexivity |]. split; [exact Hbz |]. split; [lia |].
    split; [rewrite Hmz, <- Z.mul_assoc, <- Z.pow_add_r by lia; f_equal; f_equal; lia |].
    split; [rewrite Hmz, Hpz; lia |].
    split; [exact Hn |]. split; [rewrite Hp; nia |].
    rewrite Hp. pose proof (Z.mul_div_le (Zpos my) (2 ^ (- ey)) HP). unfold n. nia.
Qed.

(** Adding one to a positive integer [Zv]: the sum rounds to at least every
    number of the format that is at most [Zv + 1], or overflows. *)
Lemma add_one_lower (mz : positive) (ez Zv : Z) (ma : positive) (ea : Z) :
  -52 <= ez -> 1 <= Zv ->
  Zpos mz * 2 ^ (ez + 52) = Zv * 2 ^ 52 ->
  Zpos ma < 2 ^ 53 -> -1074 <= ea ->
  Zpos ma * p2 ea <= (Zv + 1) * p2 0 ->
  SF64add (S754_finite false mz ez) SFone = S754_infinity false \/
  exists (mw : positive) (ew : Z),
    SF64add (S754_finite false mz ez) SFone = S754_finite false mw ew /\
    Zpos ma * p2 ea <= Zpos mw * p2 ew.
Proof.
  intros Hez HZ Hal Hma Hea Hle.
  unfold SF64add, SFone. cbn [SFadd].
  replace (Z.min ez (-52)) with (-52) by lia.
  pose proof (shl_align_spec mz ez (-52)) as [_ Hm].
  replace (ez - Z.min ez (-52)) with (ez + 52) in Hm by lia.
  rewrite Hm, Hal.
  change (fst (shl_align 4503599627370496 (-52) (-52))) with 4503599627370496%positive.
  cbn [cond_Zopp]. change (2 ^ 52) with 4503599627370496.
  destruct (Zv * 4503599627370496 + 4503599627370496) as [|P|P] eqn:EP; try lia.
  cbn [binary_normalize]. unfold binary_round.
  pose proof (shl_align_spec P (-52) (fexp prec emax (Zpos (digits2_pos P) + -52))) as [Hs1 Hs2].
  destruct (shl_align P (-52) (fexp prec emax (Zpos (digits2_pos P) + -52))) as [mz' ez'].
  cbn [fst snd] in Hs1, Hs2. rewrite fexp_eq in Hs1, Hs2.
  assert (HdP : 54 <= Zpos (digits2_pos P)).
  { destruct (Z_le_gt_dec 54 (Zpos (digits2_pos P))) as [H | H]; [exact H |].
    pose proof (digits2_pos_bounds P) as [_ Hu].
    assert (2 ^ Zpos (digits2_pos P) <= 2 ^ 53) by (apply Z.pow_le_mono_r; lia).
    change (2 ^ 53) with 9007199254740992 in *. lia. }
  assert (ez' = -52) as -> by lia.
  replace (-52 - Z.min (-52) (Z.max (Zpos (digits2_pos P) + -52 - 53) (-1074))) with 0 in Hs2 by lia.
  assert (mz' = P) as -> by (rewrite Z.pow_0_r in Hs2; lia).
  apply binary_round_aux_lower; try lia.
  rewrite <- EP.
  assert (Hp : p2 0 = p2 (-52) * 4503599627370496).
  { change 4503599627370496 with (2 ^ 52). rewrite <- p2_add by lia. f_equal. }
  rewrite Hp in Hle. nia.
Qed.

(** ** Classifying numbers *)

Lemma Prim2SF_of_zero : Prim2SF 0%float = S754_zero false.
Proof. reflexivity. Qed.

Lemma Prim2SF_infinity : Prim2SF infinity = S754_infinity false.
Proof. reflexivity. Qed.

(** What [is_finite], [0 <=? x], [1 <? f] and [0 <? b] say of the decoded
    number. *)
Lemma SFcompare_refl_finite (s : bool) (m : positive) (e : Z) :
  SFcompare (S754_finite s m e) (S754_finite s m e) = Some Eq.
Proof.
  cbn [SFcompare]. rewrite Z.compare_refl.
  change (Pos.compare_cont Eq m m) with (Pos.compare m m). rewrite Pos.compare_refl.
  destruct s; reflexivity.
Qed.

Lemma is_finite_inv (x : float) :
  is_finite x = true ->
  match Prim2SF x with S754_zero _ | S754_finite _ _ _ => True | _ => False end.
Proof.
  unfold is_finite, is_nan, is_infinity.
  rewrite !FloatAxioms.eqb_spec, abs_spec, Prim2SF_infinity.
  destruct (Prim2SF x) as [s | s | | s m e]; try (intros _; exact I).
  - destruct s; discriminate.
  - discriminate.
Qed.

Lemma nonneg_inv (x : float) :
  (0 <=? x)%float = true ->
  match Prim2SF x with
  | S754_zero _ | S754_finite false _ _ | S754_infinity false => True
  | _ => False
  end.
Proof.
  rewrite leb_spec, Prim2SF_of_zero. unfold SFleb.
  destruct (Prim2SF x) as [s | [|] | | [|] m e]; cbn [SFcompare]; try discriminate; auto.
Qed.

Lemma gt_one_finite_inv (f : float) :
  is_finite f = true -> (1 <? f)%float = true ->
  exists (mf : positive) (ef : Z),
    Prim2SF f = S754_finite false mf ef /\
    -52 <= ef /\ 2 ^ 52 + 1 <= Zpos mf * 2 ^ (ef + 52).
Proof.
  intros Hfin Hgt. pose proof (is_finite_inv f Hfin) as Hc.
  pose proof (Prim2SF_valid f) as Hv.
  rewrite ltb_spec, Prim2SF_one in Hgt.
  destruct (Prim2SF f) as [s | s | | s mf ef]; try contradiction.
  - discriminate.
  - destruct s; [discriminate |].
    exists mf, ef. split; [reflexivity |]. apply gt_one_inv; assumption.
Qed.

(** ** The upward step *)

Lemma ltb_leb (x y : float) : (x <? y)%float = true -> (x <=? y)%float = true.
Proof.
  rewrite ltb_spec, leb_spec. unfold SFltb, SFleb.
  destruct (SFcompare (Prim2SF x) (Prim2SF y)) as [[ | | ]|]; congruence.
Qed.

(** The magnitude of an integral finite number is a positive integer. *)
Lemma SFint_value (s : bool) (m : positive) (e : Z) :
  SFint (S754_finite s m e) ->
  -52 <= e /\ exists Xv : Z, 1 <= Xv /\ Zpos m * p2 e = Xv * p2 0.
Proof.
  intros Hi. destruct (SFint_scaled s m e Hi) as [He [Xv HX]].
  split; [exact He |]. exists Xv.
  assert (Hp : p2 e = p2 (-52) * 2 ^ (e + 52)).
  { rewrite <- p2_add by lia. f_equal. lia. }
  assert (Hq : p2 0 = p2 (-52) * 2 ^ 52).
  { rewrite <- p2_add by lia. f_equal. }
  pose proof (p2_pos (-52) ltac:(lia)) as Hpp.
  assert (0 < 2 ^ (e + 52)) by (apply Z.pow_pos_nonneg; lia).
  change (2 ^ 52) with 4503599627370496 in *.
  split; [nia |]. rewrite Hp, Hq. nia.
Qed.

(** For a finite non-negative integer [x] and a finite factor above one,
    [Math.floor (x * f) + 1] is greater than [x]; it is a positive number
    or [Infinity]. *)
Lemma upward_step_finite (x f : float) :
  is_finite x = true -> Math_floor x = x -> (0 <=? x)%float = true ->
  is_finite f = true -> (1 <? f)%float = true ->
  (x <? floorMul x f + 1)%float = true /\ (0 <=? floorMul x f + 1)%float = true.
Proof.
  intros Hfin Hint Hnn Hffin Hfgt.
  destruct (gt_one_finite_inv f Hffin Hfgt) as (mf & ef & EF & Hef & Hf).
  pose proof (is_finite_inv x Hfin) as C1. pose proof (nonneg_inv x Hnn) as C2.
  apply Math_floor_fixed_iff in Hint.
  pose proof (Prim2SF_valid x) as Hvx.
  pose proof (Prim2SF_valid (x * f)) as Hvy.
  pose proof (Prim2SF_valid (floorMul x f + 1)) as Hvw.
  rewrite ltb_spec, leb_spec, Prim2SF_of_zero.
  unfold floorMul in *.
  rewrite add_spec, Math_floor_spec, Prim2SF_one in *.
  rewrite mul_spec, EF in *.
  destruct (Prim2SF x) as [s | s | | s m e]; try contradiction.
  - (* x is a zero *)
    split; reflexivity.
  - destruct s; [contradiction |].
    destruct (SFint_value false m e Hint) as [He [Xv [HXv HX]]].
    destruct (mul_gt_one_lower m mf e ef Hvx He Hef Hf) as [EY | (my & ey & EY & Hy)];
      rewrite EY in *.
    { split; reflexivity. }
    pose proof (p2_pos e ltac:(lia)) as Hpe.
    destruct (floor_lower my ey Xv Hvy HXv ltac:(lia))
      as (mz & ez & Zv & EZ & Hbz & Hez & Hal & Hzv & HXZ & HyZ & _).
    rewrite EZ in *.
    destruct (successor_value m e (bounded_digits m e Hvx) ltac:(lia))
      as (ma & ea & Hma & Hea & Hva).
    destruct (add_one_lower mz ez Zv ma ea Hez ltac:(lia) Hal Hma Hea ltac:(lia))
      as [Hw | (mw & ew & Hw & Hlow)]; unfold SFone in Hw; rewrite Hw in *.
    { split; reflexivity. }
    unfold SFltb, SFleb.
    rewrite (SFcompare_pos m mw e ew Hvx Hvw).
    split; [| reflexivity].
    assert (Hlt : Zpos m * p2 e < Zpos mw * p2 ew) by lia.
    apply Z.compare_lt_iff in Hlt. rewrite Hlt. reflexivity.
Qed.

(** From [Infinity] the step yields [Infinity]. *)
Lemma upward_step_infinity (f : float) :
  is_finite f = true -> (1 <? f)%float = true ->
  (floorMul infinity f + 1)%float = infinity.
Proof.
  intros Hffin Hfgt.
  destruct (gt_one_finite_inv f Hffin Hfgt) as (mf & ef & EF & _).
  apply Prim2SF_inj. unfold floorMul.
  rewrite add_spec, Math_floor_spec, mul_spec, EF. reflexivity.
Qed.

Lemma nonneg_finite_or_infinity (x : float) :
  (0 <=? x)%float = true -> is_finite x = true \/ x = infinity.
Proof.
  intros Hnn. pose proof (nonneg_inv x Hnn) as C.
  destruct (is_finite x) eqn:Hfin; [left; reflexivity | right].
  apply Prim2SF_inj. rewrite Prim2SF_infinity.
  unfold is_finite, is_nan, is_infinity in Hfin.
  rewrite !FloatAxioms.eqb_spec, abs_spec, Prim2SF_infinity in Hfin.
  destruct (Prim2SF x) as [s | [|] | | [|] m e]; try contradiction; try reflexivity.
  - discriminate.
  - unfold SFeqb in Hfin. rewrite SFcompare_refl_finite in Hfin. discriminate.
Qed.

(** ** Rounding from above *)

(** Truncating does not increase a value. *)
Lemma truncation_le (M E n : Z) :
  0 <= M -> -2200 <= E -> 0 <= n -> (M / 2 ^ n) * p2 (E + n) <= M * p2 E.
Proof.
  intros HM HE Hn. rewrite p2_add by lia.
  assert (HP : 0 < 2 ^ n) by (apply Z.pow_pos_nonneg; lia).
  pose proof (p2_pos E HE). pose proof (Z.mul_div_le M (2 ^ n) HP). nia.
Qed.

(** A number of the format strictly above a truncation is at least the
    next multiple of the truncation's unit. *)
Lemma representable_above_truncation (M E : Z) (ma : positive) (ea : Z) (n : Z) :
  0 < M -> -2200 <= E ->
  Zpos ma < 2 ^ 53 -> -1074 <= ea ->
  n = fexp prec emax (Zdigits2 M + E) - E -> 0 <= n ->
  (M / 2 ^ n) * p2 (E + n) < Zpos ma * p2 ea ->
  (M / 2 ^ n + 1) * p2 (E + n) <= Zpos ma * p2 ea.
Proof.
  intros HM HE Hma Hea Hn Hn0 Hlt.
  destruct M as [|M|M]; try lia. cbn [Zdigits2] in Hn. rewrite fexp_eq in Hn.
  assert (HP : 0 < 2 ^ n) by (apply Z.pow_pos_nonneg; lia).
  destruct (Z_le_gt_dec (E + n) ea) as [Hge | Hgt].
  - assert (H1 : p2 ea = p2 (E + n) * 2 ^ (ea - (E + n))).
    { rewrite <- p2_add by lia. f_equal. lia. }
    assert (Hq : 0 < 2 ^ (ea - (E + n))) by (apply Z.pow_pos_nonneg; lia).
    pose proof (p2_pos (E + n) ltac:(lia)) as Hp.
    rewrite H1 in *.
    assert (Zpos M / 2 ^ n < Zpos ma * 2 ^ (ea - (E + n))) by nia.
    nia.
  - exfalso.
    assert (Hn' : n = Zpos (digits2_pos M) - 53) by lia.
    pose proof (digits2_pos_bounds M) as [Hl _].
    assert (H52 : 2 ^ 52 <= Zpos M / 2 ^ n).
    { apply Z.div_le_lower_bound; [lia |].
      rewrite Z.mul_comm, <- Z.pow_add_r by lia.
      replace (52 + n) with (Zpos (digits2_pos M) - 1) by lia. exact Hl. }
    assert (H3 : p2 ea <= p2 (E + n - 1)) by (apply p2_le; lia).
    assert (H4 : p2 (E + n) = 2 * p2 (E + n - 1)).
    { rewrite <- p2_succ by lia. f_equal. lia. }
    pose proof (p2_pos ea ltac:(lia)) as Hpa.
    rewrite H4 in Hlt. change (2 ^ 52) with 4503599627370496 in H52.
    change (2 ^ 53) with 9007199254740992 in Hma. nia.
Qed.

(** Shifting out zero bits of an exact value leaves an exact location. *)
Lemma shr_exact_divisible (M : positive) (E n : Z) :
  0 <= n -> (Zpos M) mod 2 ^ n = 0 ->
  shr (shr_record_of_loc (Zpos M) loc_Exact) E n =
  ({| shr_m := Zpos M / 2 ^ n; shr_r := false; shr_s := false |}, E + n).
Proof.
  intros Hn Hmod.
  assert (HP : 0 < 2 ^ n) by (apply Z.pow_pos_nonneg; lia).
  pose proof (Z.div_mod (Zpos M) (2 ^ n) ltac:(lia)) as Hdm. rewrite Hmod in Hdm.
  assert (Hq : 0 < Zpos M / 2 ^ n) by nia.
  destruct (Zpos M / 2 ^ n) as [|q|q] eqn:Eq; try lia.
  cbn [shr_record_of_loc]. apply shr_exact; [exact Hn | lia].
Qed.

(** A mantissa truncated to 53 digits is at least 2^52. *)
Lemma truncation_normal (M : positive) (n : Z) :
  n = Zpos (digits2_pos M) - 53 -> 0 <= n -> 2 ^ 52 <= Zpos M / 2 ^ n.
Proof.
  intros Hn Hn0. pose proof (digits2_pos_bounds M) as [Hl _].
  apply Z.div_le_lower_bound; [apply Z.pow_pos_nonneg; lia |].
  rewrite Z.mul_comm, <- Z.pow_add_r by lia.
  replace (52 + n) with (Zpos (digits2_pos M) - 1) by lia. exact Hl.
Qed.

(** Rounding never goes above a number of the format that the exact value
    does not exceed (a value with an inexact location lies strictly above
    its truncation). *)
Lemma binary_round_aux_upper (s : bool) (M E : Z) (l : location) (ma : positive) (ea : Z) :
  0 < M -> -2200 <= E -> E <= fexp prec emax (Zdigits2 M + E) ->
  Zpos ma < 2 ^ 53 -> -1074 <= ea <= 971 ->
  M * p2 E <= Zpos ma * p2 ea ->
  (l <> loc_Exact -> M * p2 E < Zpos ma * p2 ea) ->
  binary_round_aux prec emax s M E l = S754_zero s \/
  exists (m : positive) (e : Z),
    binary_round_aux prec emax s M E l = S754_finite s m e /\
    Zpos m * p2 e <= Zpos ma * p2 ea.
Proof.
  intros HM HE Hn0 Hma Hea Hle Hstrict.
  pose proof (p2_pos ea ltac:(lia)) as Hpa. pose proof (p2_pos E HE) as HpE.
  unfold binary_round_aux, shr_fexp.
  set (n := fexp prec emax (Zdigits2 M + E) - E) in *.
  assert (Hn : 0 <= n) by (unfold n; lia).
  assert (HP : 0 < 2 ^ n) by (apply Z.pow_pos_nonneg; lia).
  (* the first shift and the rounding stay below [a] *)
  assert (H1 : exists (m1 : Z),
             (let '(mrs', e') := shr (shr_record_of_loc M l) E n in
              (round_nearest_even (shr_m mrs') (loc_of_shr_record mrs'), e')) = (m1, E + n) /\
             M / 2 ^ n <= m1 /\ m1 * p2 (E + n) <= Zpos ma * p2 ea).
  { assert (Hl : l = loc_Exact \/ l <> loc_Exact)
      by (destruct l; [left; reflexivity | right; discriminate]).
    destruct Hl as [Hl | Hl];
      [destruct (Z.eq_dec (M mod 2 ^ n) 0) as [Hm | Hm] |].
    - (* exact *)
      subst l. destruct M as [|M|M]; try lia.
      rewrite (shr_exact_divisible M E n Hn Hm). cbn [shr_m loc_of_shr_record round_nearest_even].
      exists (Zpos M / 2 ^ n). split; [reflexivity |]. split; [lia |].
      pose proof (truncation_le (Zpos M) E n ltac:(lia) HE Hn). lia.
    - (* bits are lost *)
      pose proof (shr_spec (shr_record_of_loc M l) E n) as Hs.
      rewrite shr_record_of_loc_m in Hs. specialize (Hs ltac:(lia)).
      destruct (shr (shr_record_of_loc M l) E n) as [mrs' e'].
      cbn [fst snd] in Hs. destruct Hs as [Hm' He'].
      replace (Z.max n 0) with n in * by lia.
      pose proof (round_nearest_even_bounds (shr_m mrs') (loc_of_shr_record mrs')) as [Hr1 Hr2].
      exists (round_nearest_even (shr_m mrs') (loc_of_shr_record mrs')).
      split; [rewrite He'; reflexivity |]. rewrite Hm' in *. split; [lia |].
      assert (Hlt : M / 2 ^ n * p2 (E + n) < Zpos ma * p2 ea).
      { rewrite p2_add by lia.
        pose proof (Z.div_mod M (2 ^ n) ltac:(lia)) as Hdm.
        pose proof (Z.mod_pos_bound M (2 ^ n) HP). nia. }
      pose proof (representable_above_truncation M E ma ea n HM HE Hma ltac:(lia) eq_refl Hn Hlt).
      pose proof (p2_pos (E + n) ltac:(lia)). nia.
    - (* the location is inexact *)
      pose proof (shr_spec (shr_record_of_loc M l) E n) as Hs.
      rewrite shr_record_of_loc_m in Hs. specialize (Hs ltac:(lia)).
      destruct (shr (shr_record_of_loc M l) E n) as [mrs' e'].
      cbn [fst snd] in Hs. destruct Hs as [Hm' He'].
      replace (Z.max n 0) with n in * by lia.
      pose proof (round_nearest_even_bounds (shr_m mrs') (loc_of_shr_record mrs')) as [Hr1 Hr2].
      exists (round_nearest_even (shr_m mrs') (loc_of_shr_record mrs')).
      split; [rewrite He'; reflexivity |]. rewrite Hm' in *. split; [lia |].
      assert (Hlt : M / 2 ^ n * p2 (E + n) < Zpos ma * p2 ea).
      { pose proof (truncation_le M E n ltac:(lia) HE Hn). specialize (Hstrict Hl). lia. }
      pose proof (representable_above_truncation M E ma ea n HM HE Hma ltac:(lia) eq_refl Hn Hlt).
      pose proof (p2_pos (E + n) ltac:(lia)). nia. }
  destruct H1 as (m1 & Hm1 & Hm1lo & Hm1a).
  destruct (shr (shr_record_of_loc M l) E n) as [mrs' e'].
  injection Hm1 as Hm1 He'. rewrite Hm1, He'. clear Hm1 He' mrs' e'.
  assert (Hm1nn : 0 <= m1).
  { assert (0 <= M / 2 ^ n) by (apply Z.div_pos; lia). lia. }
  pose proof (shr_spec (shr_record_of_loc m1 loc_Exact) (E + n)
                (fexp prec emax (Zdigits2 m1 + (E + n)) - (E + n))) as Hs2.
  rewrite shr_record_of_loc_m in Hs2. specialize (Hs2 Hm1nn).
  set (n2 := fexp prec emax (Zdigits2 m1 + (E + n)) - (E + n)) in *.
  destruct (shr (shr_record_of_loc m1 loc_Exact) (E + n) n2) as [mrs'' e''].
  cbn [fst snd] in Hs2. destruct Hs2 as [Hm'' He''].
  pose proof (truncation_le m1 (E + n) (Z.max n2 0) Hm1nn ltac:(lia) ltac:(lia)) as T2.
  rewrite <- Hm'', <- He'' in T2.
  destruct (shr_m mrs'') as [|m''|m''] eqn:Em''.
  - left. reflexivity.
  - right. change (emax - prec) with 971.
    destruct (Z.leb_spec e'' 971) as [Hfin | Hinf].
    + exists m'', e''. split; [reflexivity | lia].
    + exfalso.
      assert (Hbig : 2 ^ 52 <= Zpos m'').
      { rewrite Hm''. destruct m1 as [|m1|m1]; try lia.
        - rewrite Z.div_0_l in Hm'' by (apply Z.pow_nonzero; lia). lia.
        - cbn [Zdigits2] in n2. unfold n2 in *. rewrite fexp_eq in *.
          destruct (Z_le_gt_dec (Z.max (Zpos (digits2_pos m1) + (E + n) - 53) (-1074) - (E + n)) 0) as [Hz | Hz].
          + replace (Z.max (Z.max (Zpos (digits2_pos m1) + (E + n) - 53) (-1074) - (E + n)) 0) with 0 in * by lia.
            rewrite Z.pow_0_r, Z.div_1_r.
            destruct M as [|M|M]; try lia. cbn [Zdigits2] in n. unfold n in *. rewrite fexp_eq in *.
            pose proof (truncation_normal M (Z.max (Zpos (digits2_pos M) + E - 53) (-1074) - E)
                          ltac:(lia) ltac:(lia)). lia.
          + apply truncation_normal; lia. }
      assert (H972 : p2 972 <= p2 e'') by (apply p2_le; lia).
      assert (H971 : p2 ea <= p2 971) by (apply p2_le; lia).
      pose proof (p2_succ 971 ltac:(lia)) as Hs. change (971 + 1) with 972 in Hs.
      pose proof (p2_pos 971 ltac:(lia)).
      change (2 ^ 52) with 4503599627370496 in Hbig.
      change (2 ^ 53) with 9007199254740992 in Hma. nia.
  - exfalso. assert (0 <= m1 / 2 ^ Z.max n2 0) by (apply Z.div_pos; [lia | apply Z.pow_pos_nonneg; lia]). lia.
Qed.

(** ** The quotient computed before rounding *)

(** The location of a quotient is exact when the remainder is zero, and
    only then. *)
Lemma new_location_exact (d r : Z) :
  (new_location d r = loc_Exact <-> r = 0).
Proof.
  unfold new_location, new_location_even, new_location_odd.
  destruct (Z.even d); destruct (Z.eqb_spec r 0); split; intros H;
    try reflexivity; try assumption; try discriminate; try contradiction.
Qed.

Lemma digits2_pos_ge (p : positive) (k : Z) :
  2 ^ k <= Zpos p -> k + 1 <= Zpos (digits2_pos p).
Proof.
  intros Hk. pose proof (digits2_pos_bounds p) as [_ Hu].
  destruct (Z_le_gt_dec (k + 1) (Zpos (digits2_pos p))) as [H | H]; [exact H |].
  assert (2 ^ Zpos (digits2_pos p) <= 2 ^ k) by (apply Z.pow_le_mono_r; lia). lia.
Qed.

(** The quotient of two mantissas, as [SFdiv] computes it: the dividend is
    shifted left by [sh] bits and divided, with a remainder that the
    location records. *)
Lemma SFdiv_core_binary_spec (mx my : positive) (ex ey : Z) :
  exists (q e' sh r : Z) (l : location),
    SFdiv_core_binary prec emax (Zpos mx) ex (Zpos my) ey = (q, e', l) /\
    0 <= sh /\ e' = ex - ey - sh /\
    Zpos mx * 2 ^ sh = q * Zpos my + r /\ 0 <= r < Zpos my /\ 0 <= q /\
    (l = loc_Exact <-> r = 0) /\
    Z.min (-1074) (ex - ey) <= e' /\
    (0 < q -> e' <= fexp prec emax (Zdigits2 q + e')) /\
    (-1074 < e' -> 2 ^ 52 <= q) /\
    l = new_location (Zpos my) r.
Proof.
  unfold SFdiv_core_binary. cbn [Zdigits2].
  set (x0 := Zpos (digits2_pos mx) + ex - (Zpos (digits2_pos my) + ey)).
  rewrite fexp_eq.
  set (e' := Z.min (Z.max (x0 - 53) (-1074)) (ex - ey)).
  set (sh := ex - ey - e').
  assert (Hsh : 0 <= sh) by (unfold sh, e'; lia).
  assert (Hm' : match sh with
                | Zpos _ => Z.shiftl (Zpos mx) sh | 0 => Zpos mx | Zneg _ => 0
                end = Zpos mx * 2 ^ sh).
  { destruct sh as [|p|p] eqn:Es; [simpl; lia | apply Z.shiftl_mul_pow2; lia | lia]. }
  rewrite Hm'.
  destruct (Z.div_eucl (Zpos mx * 2 ^ sh) (Zpos my)) as [q r] eqn:Ed.
  assert (Hq : q = Zpos mx * 2 ^ sh / Zpos my) by (unfold Z.div; rewrite Ed; reflexivity).
  assert (Hr : r = (Zpos mx * 2 ^ sh) mod Zpos my) by (unfold Z.modulo; rewrite Ed; reflexivity).
  assert (HP : 0 < 2 ^ sh) by (apply Z.pow_pos_nonneg; lia).
  pose proof (Z.div_mod (Zpos mx * 2 ^ sh) (Zpos my) ltac:(lia)) as Hdm.
  pose proof (Z.mod_pos_bound (Zpos mx * 2 ^ sh) (Zpos my) ltac:(lia)) as Hrb.
  rewrite <- Hq, <- Hr in *.
  assert (Hq0 : 0 <= q) by (rewrite Hq; apply Z.div_pos; nia).
  exists q, e', sh, r, (new_location (Zpos my) r).
  split; [reflexivity |]. split; [exact Hsh |]. split; [unfold sh; lia |].
  split; [lia |]. split; [lia |]. split; [exact Hq0 |].
  split; [apply new_location_exact |]. split; [unfold e'; lia |].
  assert (Hnormal : -1074 < e' ->
            2 ^ 52 <= q /\ (0 < q -> e' <= Z.max (Zdigits2 q + e' - 53) (-1074))).
  { intros Hhigh.
    assert (Hx0 : e' <= x0 - 53) by (unfold e' in *; lia).
    pose proof (digits2_pos_bounds mx) as [Hlx _].
    pose proof (digits2_pos_bounds my) as [_ Huy].
    set (dx := Zpos (digits2_pos mx)) in *. set (dy := Zpos (digits2_pos my)) in *.
    assert (Hk : 52 <= dx + sh - dy - 1) by (unfold sh, x0 in *; lia).
    assert (Hbig : 2 ^ (dx + sh - dy - 1) <= q).
    { rewrite Hq. apply Z.div_le_lower_bound; [lia |].
      assert (Hpow : 2 ^ (dx - 1) * 2 ^ sh = 2 ^ dy * 2 ^ (dx + sh - dy - 1)).
      { rewrite <- !Z.pow_add_r by (unfold dx, dy; lia). f_equal. lia. }
      assert (0 < 2 ^ (dx + sh - dy - 1)) by (apply Z.pow_pos_nonneg; lia).
      nia. }
    split.
    - assert (2 ^ 52 <= 2 ^ (dx + sh - dy - 1)) by (apply Z.pow_le_mono_r; lia). lia.
    - intros Hqpos. destruct q as [|q|q]; try lia.
      cbn [Zdigits2]. pose proof (digits2_pos_ge q _ Hbig). unfold sh, x0 in *. lia. }
  split; [| split; [| reflexivity]].
  - intros Hqpos. rewrite fexp_eq.
    destruct (Z_le_gt_dec e' (-1074)) as [Hlow | Hhigh]; [lia |].
    apply Hnormal; lia.
  - intros Hhigh. apply Hnormal. exact Hhigh.
Qed.

(** A number of the format that the exact quotient does not exceed bounds
    the computed quotient, strictly when the division is inexact. *)
Lemma SFdiv_core_binary_upper (mx my ma : positive) (ex ey ea q e' sh r : Z) :
  -1074 <= ex -> -1074 <= ey -> -1074 <= ea ->
  0 <= sh -> e' = ex - ey - sh -> -2200 <= e' -> -2200 <= ex - sh ->
  Zpos mx * 2 ^ sh = q * Zpos my + r -> 0 <= r < Zpos my ->
  (Zpos mx * p2 ex) * p2 0 <= (Zpos ma * p2 ea) * (Zpos my * p2 ey) ->
  q * p2 e' <= Zpos ma * p2 ea /\ (r <> 0 -> q * p2 e' < Zpos ma * p2 ea).
Proof.
  intros Hex Hey Hea Hsh He' He'lo Hexsh Hdiv Hr Hle.
  assert (H1 : p2 e' * p2 ey = p2 (ex - sh) * p2 0).
  { rewrite p2_mul by lia. f_equal. f_equal. lia. }
  assert (H2 : p2 ex = p2 (ex - sh) * 2 ^ sh).
  { rewrite <- p2_add by lia. f_equal. lia. }
  pose proof (p2_pos ey ltac:(lia)) as Hpy. pose proof (p2_pos 0 ltac:(lia)) as Hp0.
  pose proof (p2_pos (ex - sh) Hexsh) as Hps. pose proof (p2_pos e' He'lo) as Hpe'.
  assert (HP : 0 < 2 ^ sh) by (apply Z.pow_pos_nonneg; lia).
  set (vb := Zpos my * p2 ey) in *. assert (Hvb : 0 < vb) by (unfold vb; nia).
  assert (H3 : (q * p2 e') * vb + r * (p2 (ex - sh) * p2 0) = (Zpos mx * p2 ex) * p2 0).
  { unfold vb. rewrite H2.
    transitivity ((q * Zpos my + r) * (p2 (ex - sh) * p2 0)); [| rewrite <- Hdiv; ring].
    rewrite <- H1. ring. }
  assert (H4 : 0 <= r * (p2 (ex - sh) * p2 0)) by nia.
  split.
  - assert ((q * p2 e') * vb <= (Zpos ma * p2 ea) * vb) by lia. nia.
  - intros Hr0. assert (0 < r * (p2 (ex - sh) * p2 0)) by nia.
    assert ((q * p2 e') * vb < (Zpos ma * p2 ea) * vb) by lia. nia.
Qed.

(** ** Rounding to nearest

    The round and sticky bits that [shr] maintains keep track of where the
    exact value lies, so that the number returned is within half a unit in
    the last place of it. *)

Lemma loc_of_shr_record_of_loc (m : Z) (l : location) :
  loc_of_shr_record (shr_record_of_loc m l) = l.
Proof. destruct l as [|[ | | ]]; reflexivity. Qed.

Lemma shr_1_located (W D e : Z) (r : shr_record) :
  0 < D -> -2200 <= e -> 0 <= shr_m r ->
  located W D (shr_m r) e (loc_of_shr_record r) ->
  located W D (shr_m (shr_1 r)) (e + 1) (loc_of_shr_record (shr_1 r)).
Proof.
  intros HD He Hm.
  pose proof (p2_pos e He) as Hp. pose proof (p2_succ e He) as Hs.
  assert (HU : 0 < p2 e * D) by nia.
  assert (HU2 : p2 (e + 1) * D = 2 * (p2 e * D)) by (rewrite Hs; ring).
  destruct r as [m rb sb]. cbn [shr_m] in Hm.
  destruct m as [|[p|p|]|p]; try lia;
    destruct rb, sb; cbn [shr_1 shr_m loc_of_shr_record orb located];
    rewrite ?HU2; set (U := p2 e * D) in *; clearbody U; intros H; nia.
Qed.

Lemma iter_shr_1_located (W D e : Z) (k : nat) (r : shr_record) :
  0 < D -> -2200 <= e -> 0 <= shr_m r ->
  located W D (shr_m r) e (loc_of_shr_record r) ->
  located W D (shr_m (Nat.iter k shr_1 r)) (e + Z.of_nat k)
    (loc_of_shr_record (Nat.iter k shr_1 r)).
Proof.
  intros HD He Hm H. induction k as [|k IH].
  - simpl. rewrite Z.add_0_r. exact H.
  - rewrite Nat.iter_succ, Nat2Z.inj_succ.
    replace (e + Z.succ (Z.of_nat k)) with (e + Z.of_nat k + 1) by lia.
    apply shr_1_located; [exact HD | lia | | exact IH].
    rewrite iter_shr_1_m by exact Hm.
    apply Z.div_pos; [lia | apply Z.pow_pos_nonneg; lia].
Qed.

Lemma shr_located (W D e n : Z) (r : shr_record) :
  0 < D -> -2200 <= e -> 0 <= shr_m r ->
  located W D (shr_m r) e (loc_of_shr_record r) ->
  located W D (shr_m (fst (shr r e n))) (snd (shr r e n))
    (loc_of_shr_record (fst (shr r e n))).
Proof.
  intros HD He Hm H. destruct n as [|p|p]; cbn [shr fst snd]; try exact H.
  rewrite iter_pos_nat.
  replace (e + Zpos p) with (e + Z.of_nat (Pos.to_nat p)) by (rewrite positive_nat_Z; reflexivity).
  apply iter_shr_1_located; assumption.
Qed.

Lemma round_nearest_even_located (W D m e : Z) (l : location) :
  0 < D -> -2200 <= e ->
  located W D m e l ->
  (2 * round_nearest_even m l - 1) * (p2 e * D) <= 2 * W
    <= (2 * round_nearest_even m l + 1) * (p2 e * D).
Proof.
  intros HD He. pose proof (p2_pos e He) as Hp.
  assert (HU : 0 < p2 e * D) by nia.
  destruct l as [|[ | | ]]; cbn [located round_nearest_even];
    try destruct (Z.even m); set (U := p2 e * D) in *; clearbody U; intros H; nia.
Qed.

(** Rounding to the format is within half a unit in the last place of the
    result. *)
Lemma binary_round_aux_nearest (s : bool) (M E W D : Z) (l : location)
    (mt : positive) (et : Z) :
  0 < M -> -2200 <= E -> 0 < D ->
  located W D M E l ->
  binary_round_aux prec emax s M E l = S754_finite s mt et ->
  (2 * Zpos mt - 1) * (p2 et * D) <= 2 * W <= (2 * Zpos mt + 1) * (p2 et * D).
Proof.
  intros HM HE HD Hloc. unfold binary_round_aux, shr_fexp.
  pose proof (shr_spec (shr_record_of_loc M l) E (fexp prec emax (Zdigits2 M + E) - E)) as H1.
  rewrite shr_record_of_loc_m in H1. specialize (H1 ltac:(lia)).
  pose proof (shr_located W D E (fexp prec emax (Zdigits2 M + E) - E) (shr_record_of_loc M l)
                HD HE) as L1.
  rewrite shr_record_of_loc_m, loc_of_shr_record_of_loc in L1.
  specialize (L1 ltac:(lia) Hloc).
  destruct (shr (shr_record_of_loc M l) E (fexp prec emax (Zdigits2 M + E) - E)) as [mrs' e'].
  cbn [fst snd] in H1, L1. destruct H1 as [Hm' He'].
  assert (He'lo : -1074 <= e' /\ -2200 <= e').
  { destruct M as [|M|M]; try lia. cbn [Zdigits2] in He'. rewrite fexp_eq in He'. lia. }
  assert (Hm'b : 0 <= shr_m mrs' < 2 ^ 53).
  { rewrite Hm'. destruct M as [|M|M]; try lia. cbn [Zdigits2]. rewrite fexp_eq.
    set (n := Z.max (Z.max (Zpos (digits2_pos M) + E - 53) (-1074) - E) 0).
    assert (Hn : 0 <= n) by (unfold n; lia).
    assert (HP : 0 < 2 ^ n) by (apply Z.pow_pos_nonneg; lia).
    split; [apply Z.div_pos; lia |].
    apply Z.div_lt_upper_bound; [lia |].
    pose proof (digits2_pos_bounds M) as [_ Hu].
    rewrite <- Z.pow_add_r by lia.
    assert (2 ^ Zpos (digits2_pos M) <= 2 ^ (n + 53)) by (apply Z.pow_le_mono_r; unfold n; lia).
    lia. }
  pose proof (round_nearest_even_located W D (shr_m mrs') e' (loc_of_shr_record mrs')
                HD ltac:(lia) L1) as N1.
  pose proof (round_nearest_even_bounds (shr_m mrs') (loc_of_shr_record mrs')) as Hr.
  set (m1 := round_nearest_even (shr_m mrs') (loc_of_shr_record mrs')) in *.
  clearbody m1. clear L1 Hloc Hm' He'.
  pose proof (shr_spec (shr_record_of_loc m1 loc_Exact) e' (fexp prec emax (Zdigits2 m1 + e') - e')) as H2.
  rewrite shr_record_of_loc_m in H2. specialize (H2 ltac:(lia)).
  destruct (shr (shr_record_of_loc m1 loc_Exact) e' (fexp prec emax (Zdigits2 m1 + e') - e')) as [mrs'' e''].
  cbn [fst snd] in H2. destruct H2 as [Hm'' He''].
  pose proof (p2_pos e' ltac:(lia)) as Hpe'.
  assert (HU : 0 < p2 e' * D) by nia.
  change (2 ^ 53) with 9007199254740992 in *.
  assert (Hfinal : shr_m mrs'' * p2 e'' = m1 * p2 e' /\
                   (e'' = e' \/ (m1 = 9007199254740992 /\ p2 e'' = 2 * p2 e'))).
  { destruct m1 as [|m1|m1]; try lia.
    - cbn [Zdigits2] in *. rewrite fexp_eq in *.
      replace (Z.max (Z.max (0 + e' - 53) (-1074) - e') 0) with 0 in * by lia.
      rewrite Hm'', He''. change (2 ^ 0) with 1. rewrite Z.div_1_r, Z.add_0_r.
      split; [reflexivity | left; reflexivity].
    - cbn [Zdigits2] in *. rewrite fexp_eq in *.
      destruct (Z.eq_dec (Zpos m1) 9007199254740992) as [Heq | Hne].
      + assert (Hd : Zpos (digits2_pos m1) = 54).
        { apply digits2_pos_unique. rewrite Heq. split; vm_compute; congruence. }
        rewrite Hd in *.
        replace (Z.max (Z.max (54 + e' - 53) (-1074) - e') 0) with 1 in * by lia.
        rewrite Hm'', He'', Heq. change (9007199254740992 / 2 ^ 1) with 4503599627370496.
        rewrite (p2_succ e') by lia. split; [ring |]. right. split; reflexivity.
      + assert (Hd : Zpos (digits2_pos m1) <= 53).
        { apply digits2_pos_le. change (2 ^ 53) with 9007199254740992. lia. }
        replace (Z.max (Z.max (Zpos (digits2_pos m1) + e' - 53) (-1074) - e') 0) with 0 in * by lia.
        rewrite Hm'', He''. change (2 ^ 0) with 1. rewrite Z.div_1_r, Z.add_0_r.
        split; [reflexivity | left; reflexivity]. }
  destruct Hfinal as (Hv & Hcase).
  destruct (shr_m mrs'') as [|m''|m'']; try discriminate.
  destruct (e'' <=? emax - prec); try discriminate.
  intros ET. injection ET as <- <-.
  destruct Hcase as [Hsame | [Hbig Hd]].
  - rewrite Hsame in *. assert (Zpos m'' = m1) by nia. subst m1. exact N1.
  - rewrite Hbig in *. rewrite Hd in *.
    assert (Zpos m'' = 4503599627370496) by nia.
    set (U := p2 e' * D) in *. replace (2 * p2 e' * D) with (2 * U) by (unfold U; ring).
    clearbody U. nia.
Qed.

(** The location [SFdiv] computes is the location of the exact quotient. *)
Lemma SFdiv_core_binary_located (mx my : positive) (ex ey q e' sh r : Z) :
  -1074 <= ex -> -1074 <= ey ->
  0 <= sh -> e' = ex - ey - sh -> -2200 <= e' -> -2200 <= ex - sh ->
  Zpos mx * 2 ^ sh = q * Zpos my + r -> 0 <= r < Zpos my ->
  located ((Zpos mx * p2 ex) * p2 0) (Zpos my * p2 ey) q e' (new_location (Zpos my) r).
Proof.
  intros Hex Hey Hsh He' He'lo Hexsh Hdiv Hr.
  assert (H1 : p2 e' * p2 ey = p2 (ex - sh) * p2 0).
  { rewrite p2_mul by lia. f_equal. f_equal. lia. }
  assert (H2 : p2 ex = p2 (ex - sh) * 2 ^ sh).
  { rewrite <- p2_add by lia. f_equal. lia. }
  pose proof (p2_pos (ex - sh) Hexsh) as Hps. pose proof (p2_pos 0 ltac:(lia)) as Hp0.
  assert (HU : p2 e' * (Zpos my * p2 ey) = Zpos my * (p2 (ex - sh) * p2 0))
    by (rewrite <- H1; ring).
  assert (HW : (Zpos mx * p2 ex) * p2 0 = (q * Zpos my + r) * (p2 (ex - sh) * p2 0))
    by (rewrite H2, <- Hdiv; ring).
  assert (HG : 0 < p2 (ex - sh) * p2 0) by nia.
  set (G := p2 (ex - sh) * p2 0) in *. clearbody G.
  unfold new_location, new_location_even, new_location_odd.
  destruct (Z.even (Zpos my)) eqn:Ev; destruct (Z.eqb_spec r 0) as [Hz | Hnz].
  - cbn [located]. rewrite HU, HW, Hz. ring.
  - destruct (Z.compare_spec (2 * r) (Zpos my)) as [Hc | Hc | Hc];
      cbn [located]; rewrite HU, HW; nia.
  - cbn [located]. rewrite HU, HW, Hz. ring.
  - assert (Hodd : 2 * r <> Zpos my).
    { intros Heq. rewrite <- Heq, Z.even_mul in Ev. discriminate. }
    destruct (Z.compare_spec (2 * r + 1) (Zpos my)) as [Hc | Hc | Hc];
      cbn [located]; rewrite HU, HW; nia.
Qed.

(** ** Dividing by a buff and multiplying back *)

(** Rounding a non-negative mantissa yields a zero, an infinity or a finite
    number, of the sign given. *)
Lemma binary_round_aux_shape (s : bool) (M E : Z) (l : location) :
  0 <= M ->
  binary_round_aux prec emax s M E l = S754_zero s \/
  binary_round_aux prec emax s M E l = S754_infinity s \/
  exists (m : positive) (e : Z), binary_round_aux prec emax s M E l = S754_finite s m e.
Proof.
  intros HM. unfold binary_round_aux, shr_fexp.
  pose proof (shr_spec (shr_record_of_loc M l) E (fexp prec emax (Zdigits2 M + E) - E)) as H1.
  rewrite shr_record_of_loc_m in H1. specialize (H1 HM).
  destruct (shr (shr_record_of_loc M l) E (fexp prec emax (Zdigits2 M + E) - E)) as [mrs' e'].
  cbn [fst snd] in H1. destruct H1 as [Hm' _].
  pose proof (round_nearest_even_bounds (shr_m mrs') (loc_of_shr_record mrs')) as [Hr _].
  set (m1 := round_nearest_even (shr_m mrs') (loc_of_shr_record mrs')) in *.
  assert (Hm1 : 0 <= m1).
  { assert (0 <= M / 2 ^ Z.max (fexp prec emax (Zdigits2 M + E) - E) 0)
      by (apply Z.div_pos; [lia | apply Z.pow_pos_nonneg; lia]). lia. }
  pose proof (shr_spec (shr_record_of_loc m1 loc_Exact) e' (fexp prec emax (Zdigits2 m1 + e') - e')) as H2.
  rewrite shr_record_of_loc_m in H2. specialize (H2 Hm1).
  destruct (shr (shr_record_of_loc m1 loc_Exact) e' (fexp prec emax (Zdigits2 m1 + e') - e')) as [mrs'' e''].
  cbn [fst snd] in H2. destruct H2 as [Hm'' _].
  assert (0 <= shr_m mrs'').
  { rewrite Hm''. apply Z.div_pos; [lia | apply Z.pow_pos_nonneg; lia]. }
  destruct (shr_m mrs'') as [|m''|m'']; [left; reflexivity | | lia].
  right. destruct (e'' <=? emax - prec); [right; eauto | left; reflexivity].
Qed.

(** [Math.floor] of a positive number: [+0] below one, otherwise a positive
    integer [Zv] with the number in [[Zv, Zv + 1)]. *)
Lemma floor_small (my : positive) (ey : Z) :
  bounded prec emax my ey = true ->
  Zpos my * p2 ey < p2 0 ->
  SFfloor (S754_finite false my ey) = S754_zero false.
Proof.
  intros Hb Hlt. destruct (bounded_inv my ey Hb) as [Hc _]. cbn [SFfloor].
  destruct (Z.leb_spec 0 ey) as [Hey | Hey].
  - exfalso. pose proof (p2_le 0 ey ltac:(lia) Hey). pose proof (p2_pos 0 ltac:(lia)). nia.
  - cbn [cond_Zopp]. rewrite Z.shiftr_div_pow2 by lia.
    assert (Hp : p2 0 = p2 ey * 2 ^ (- ey)).
    { rewrite <- p2_add by lia. f_equal. lia. }
    pose proof (p2_pos ey ltac:(lia)).
    rewrite Z.div_small; [reflexivity |]. rewrite Hp in Hlt. nia.
Qed.

(** A product has at least as many digits as its first factor. *)
Lemma digits2_pos_mul_ge (a b : positive) :
  Zpos (digits2_pos a) <= Zpos (digits2_pos (a * b)).
Proof.
  pose proof (digits2_pos_bounds a) as [Hl _].
  assert (2 ^ (Zpos (digits2_pos a) - 1) <= Zpos (a * b)).
  { rewrite Pos2Z.inj_mul. nia. }
  pose proof (digits2_pos_ge (a * b) _ H). lia.
Qed.

Lemma floor_pos_cases (my : positive) (ey : Z) :
  bounded prec emax my ey = true ->
  SFfloor (S754_finite false my ey) = S754_zero false \/
  exists (mz : positive) (ez Zv : Z),
    SFfloor (S754_finite false my ey) = S754_finite false mz ez /\
    bounded prec emax mz ez = true /\ -52 <= ez /\
    Zpos mz * p2 ez = Zv * p2 0 /\ 1 <= Zv /\
    Zv * p2 0 <= Zpos my * p2 ey < (Zv + 1) * p2 0.
Proof.
  intros Hb. destruct (Z_lt_ge_dec (Zpos my * p2 ey) (p2 0)) as [Hs | Hg].
  - left. apply floor_small; assumption.
  - right.
    destruct (floor_lower my ey 1 Hb ltac:(lia) ltac:(lia))
      as (mz & ez & Zv & EZ & Hbz & Hez & _ & Hzv & HXZ & HyZ & HZy).
    exists mz, ez, Zv. repeat split; assumption.
Qed.

(** The non-negative case: a positive integer [e] below 2^52, a positive
    finite multiplier [b], and a finite quotient. *)
Lemma refloor_upper_pos (me mb : positive) (ee eb Ev : Z) :
  bounded prec emax me ee = true -> bounded prec emax mb eb = true ->
  -52 <= ee -> Zpos me * p2 ee = Ev * p2 0 -> 1 <= Ev < 2 ^ 52 ->
  valid_binary (SF64div (S754_finite false me ee) (S754_finite false mb eb)) = true ->
  SFfloor (SF64div (S754_finite false me ee) (S754_finite false mb eb)) <> S754_infinity false ->
  valid_binary (SF64mul (SFfloor (SF64div (S754_finite false me ee) (S754_finite false mb eb)))
                        (S754_finite false mb eb)) = true ->
  SFleb (SFfloor (SF64mul (SFfloor (SF64div (S754_finite false me ee) (S754_finite false mb eb)))
                          (S754_finite false mb eb)))
        (S754_finite false me ee) = true.
Proof.
  intros Hbe Hbb Hee HEv HEvb HvT Hfin HvP.
  destruct (bounded_inv me ee Hbe) as [Hce Heehi].
  destruct (bounded_inv mb eb Hbb) as [Hcb Hebhi].
  pose proof (bounded_digits mb eb Hbb) as Hmb.
  pose proof (bounded_normal_digits me ee Hbe ltac:(lia)) as Hde.
  pose proof (digits2_pos_bounds me) as [Hle _]. rewrite Hde in Hle.
  change (2 ^ (53 - 1)) with 4503599627370496 in Hle.
  change (2 ^ 53) with 9007199254740992 in *. change (2 ^ 52) with 4503599627370496 in *.
  pose proof (p2_pos 0 ltac:(lia)) as Hp0.
  pose proof (p2_pos ee ltac:(lia)) as Hpee. pose proof (p2_pos eb ltac:(lia)) as Hpeb.
  set (ve := Zpos me * p2 ee) in *. set (vb := Zpos mb * p2 eb) in *.
  assert (Hvb : 0 < vb) by (unfold vb; nia).
  (* the quotient before rounding *)
  destruct (SFdiv_core_binary_spec me mb ee eb)
    as (q & e' & sh & r & l & Ecore & Hsh & He' & Hdiv & Hr & Hq0 & Hl & He'lo & Hfexp & Hnormal & Hloc).
  assert (Hqpos : 0 < q).
  { destruct (Z_le_gt_dec e' (-1074)) as [Hlow | Hhigh].
    - assert (Hsh51 : 51 <= sh) by lia.
      assert (2 ^ 51 <= 2 ^ sh) by (apply Z.pow_le_mono_r; lia).
      change (2 ^ 51) with 2251799813685248 in *.
      destruct (Z.eq_dec q 0) as [Hz | Hz]; [| lia]. rewrite Hz in Hdiv. nia.
    - specialize (Hnormal ltac:(lia)). change (2 ^ 52) with 4503599627370496 in Hnormal. lia. }
  specialize (Hfexp Hqpos).
  assert (Hexsh : -2200 <= ee - sh) by lia.
  unfold SF64div in *. cbn [SFdiv xorb] in *. rewrite Ecore in *.
  set (T := binary_round_aux prec emax false q e' l) in *.
  (* an upper bound on the rounded quotient from an upper bound on the exact one *)
  assert (Tupper : forall (ma : positive) (ea : Z),
            Zpos ma < 9007199254740992 -> -1074 <= ea <= 971 ->
            ve * p2 0 <= (Zpos ma * p2 ea) * vb ->
            forall (mt : positive) (et : Z), T = S754_finite false mt et ->
            Zpos mt * p2 et <= Zpos ma * p2 ea).
  { intros ma ea Hma Hea Hle' mt et ET.
    destruct (SFdiv_core_binary_upper me mb ma ee eb ea q e' sh r
                ltac:(lia) ltac:(lia) ltac:(lia) Hsh He' ltac:(lia) Hexsh Hdiv Hr Hle')
      as [U1 U2].
    destruct (binary_round_aux_upper false q e' l ma ea Hqpos ltac:(lia) Hfexp Hma Hea U1)
      as [EZ | (m & e & EF & Hme)].
    - intros Hne. apply U2. intros Hr0. apply Hne, Hl, Hr0.
    - unfold T in ET. congruence.
    - unfold T in ET. rewrite EF in ET. injection ET as -> ->. exact Hme. }
  destruct (binary_round_aux_shape false q e' l ltac:(lia)) as [ET | [ET | (mt & et & ET)]];
    fold T in ET; rewrite ET in *.
  - (* the quotient rounds to zero *) reflexivity.
  - (* the quotient overflows *) exfalso. apply Hfin. reflexivity.
  - destruct (floor_pos_cases mt et HvT) as [EQ | (mq & eq & Qv & EQ & Hbq & Heq & Hvq & HQv & HQlo & HQhi)];
      rewrite EQ in *; [reflexivity |].
    set (vq := Zpos mq * p2 eq) in *. set (vt := Zpos mt * p2 et) in *.
    pose proof (p2_pos eq ltac:(lia)) as Hpeq.
    (* the product stays below [e + 1/2] *)
    assert (Hkey : (vq * vb) * 2 <= (2 * Ev + 1) * (p2 0 * p2 0)).
    { destruct (Z_le_gt_dec (vq * vb) (ve * p2 0)) as [Hsmall | Hbig].
      - rewrite HEv in Hsmall. nia.
      - (* the quotient was rounded up to the integer [vq] *)
        assert (Hvt : vt = vq).
        { pose proof (Tupper mq eq (bounded_digits mq eq Hbq)
                        ltac:(destruct (bounded_inv mq eq Hbq); lia) ltac:(fold vq; lia)
                        mt et eq_refl) as H1.
          fold vq vt in H1. lia. }
        assert (Het : -52 <= et).
        { destruct (Z_le_gt_dec (-52) et) as [H | H]; [exact H | exfalso].
          pose proof (bounded_digits mt et HvT) as Hmt.
          assert (p2 et * 9007199254740992 <= p2 0).
          { change 9007199254740992 with (2 ^ 53). rewrite <- p2_add by (destruct (bounded_inv mt et HvT); lia).
            apply p2_le; destruct (bounded_inv mt et HvT); lia. }
          pose proof (p2_pos et ltac:(destruct (bounded_inv mt et HvT); lia)).
          unfold vt in *. nia. }
        pose proof (bounded_normal_digits mt et HvT ltac:(lia)) as Hdt.
        pose proof (digits2_pos_bounds mt) as [Hnorm _]. rewrite Hdt in Hnorm.
        change (2 ^ (53 - 1)) with 4503599627370496 in Hnorm.
        pose proof (p2_pos et ltac:(lia)) as Hpet.
        (* the rounded quotient is within half a unit of the exact one *)
        pose proof (SFdiv_core_binary_located me mb ee eb q e' sh r
                      ltac:(lia) ltac:(lia) Hsh He' ltac:(lia) Hexsh Hdiv Hr) as Hlocated.
        rewrite <- Hloc in Hlocated.
        pose proof (binary_round_aux_nearest false q e' (ve * p2 0) vb l mt et
                      Hqpos ltac:(lia) Hvb Hlocated ET) as [Hhalf _].
        rewrite HEv in Hhalf.
        set (X := vq * vb) in *. set (Y := p2 et * vb) in *. set (K := p2 0 * p2 0) in *.
        assert (HY : 4503599627370496 * Y <= X).
        { unfold X, Y. rewrite <- Hvt. unfold vt.
          replace (4503599627370496 * (p2 et * vb)) with (4503599627370496 * p2 et * vb) by ring.
          apply Z.mul_le_mono_nonneg_r; [lia |]. apply Z.mul_le_mono_nonneg_r; lia. }
        assert (HXY : 2 * X - Y <= 2 * (Ev * K)).
        { unfold X, K. rewrite <- Hvt. unfold vt.
          replace (2 * (Zpos mt * p2 et * vb) - Y) with ((2 * Zpos mt - 1) * Y) by (unfold Y; ring).
          replace (2 * (Ev * (p2 0 * p2 0))) with (2 * (Ev * p2 0 * p2 0)) by ring.
          exact Hhalf. }
        assert (HK : 0 < K) by (unfold K; nia).
        assert (HP : Ev * K <= 4503599627370495 * K) by (apply Z.mul_le_mono_nonneg_r; lia).
        clear - HY HXY HK HP. lia. }
    (* rounding the product *)
    assert (Hprod : Zpos (mq * mb) * p2 (eq + eb) <= Zpos (2 * Z.to_pos Ev + 1) * p2 (-1)).
    { assert (Hm : vq * vb = Zpos (mq * mb) * p2 (eq + eb) * p2 0).
      { unfold vq, vb. rewrite Pos2Z.inj_mul.
        transitivity (Zpos mq * Zpos mb * (p2 eq * p2 eb)); [ring |].
        rewrite p2_mul by lia. ring. }
      assert (Hh : p2 0 = 2 * p2 (-1)) by (rewrite <- p2_succ by lia; reflexivity).
      assert (Ha : Zpos (2 * Z.to_pos Ev + 1) = 2 * Ev + 1) by lia.
      rewrite Ha. rewrite Hm in Hkey.
      apply Z.mul_le_mono_pos_r with (p := 2 * p2 0); [lia |].
      replace ((2 * Ev + 1) * p2 (-1) * (2 * p2 0)) with ((2 * Ev + 1) * (p2 0 * p2 0))
        by (rewrite Hh at 1; ring).
      clear - Hkey. lia. }
    unfold SF64mul in *. cbn [SFmul xorb] in *.
    destruct (binary_round_aux_upper false (Zpos (mq * mb)) (eq + eb) loc_Exact
                (2 * Z.to_pos Ev + 1) (-1) ltac:(lia) ltac:(lia))
      as [EP | (mp & ep & EP & Hp)]; try lia; try exact Hprod.
    + cbn [Zdigits2]. rewrite fexp_eq.
      pose proof (digits2_pos_mul_ge mq mb).
      pose proof (bounded_normal_digits mq eq Hbq ltac:(lia)). lia.
    + intros Hne. congruence.
    + rewrite EP. reflexivity.
    + rewrite EP in *.
      destruct (floor_pos_cases mp ep HvP) as [ER | (mr & er & Rv & ER & Hbr & Her & Hvr & HRv & HRlo & HRhi)];
        rewrite ER; [reflexivity |].
      unfold SFleb. rewrite (SFcompare_pos mr me er ee Hbr Hbe).
      fold ve. rewrite Hvr, HEv.
      assert (Hh : p2 0 = 2 * p2 (-1)) by (rewrite <- p2_succ by lia; reflexivity).
      assert (Ha : Zpos (2 * Z.to_pos Ev + 1) = 2 * Ev + 1) by lia.
      rewrite Ha in Hp. pose proof (p2_pos (-1) ltac:(lia)).
      assert (HRE : Rv <= Ev).
      { destruct (Z_le_gt_dec Rv Ev) as [HR | HR]; [exact HR | exfalso].
        assert ((Ev + 1) * p2 (-1) <= Rv * p2 (-1)) by (apply Z.mul_le_mono_nonneg_r; lia).
        rewrite Hh in HRlo. clear - HRlo Hp H H0. lia. }
      assert (Rv * p2 0 <= Ev * p2 0) by (apply Z.mul_le_mono_nonneg_r; lia).
      destruct (Z.compare_spec (Rv * p2 0) (Ev * p2 0)) as [H1 | H1 | H1]; try reflexivity. lia.
Qed.

(** ** Negative numbers *)

(** Negative binary64 numbers compare as their magnitudes, reversed. *)
Lemma SFcompare_neg_swap (m1 m2 : positive) (e1 e2 : Z) :
  SFcompare (S754_finite true m1 e1) (S754_finite true m2 e2) =
  SFcompare (S754_finite false m2 e2) (S754_finite false m1 e1).
Proof.
  cbn [SFcompare]. f_equal.
  rewrite (Z.compare_antisym e1 e2).
  change (Pos.compare_cont Eq m2 m1) with (Pos.compare m2 m1).
  change (Pos.compare_cont Eq m1 m2) with (Pos.compare m1 m2).
  rewrite (Pos.compare_antisym m1 m2).
  destruct (e1 ?= e2); cbn [CompOpp]; reflexivity.
Qed.

Lemma SFcompare_neg (m1 m2 : positive) (e1 e2 : Z) :
  bounded prec emax m1 e1 = true -> bounded prec emax m2 e2 = true ->
  SFcompare (S754_finite true m1 e1) (S754_finite true m2 e2) =
  Some (Zpos m2 * p2 e2 ?= Zpos m1 * p2 e1).
Proof.
  intros H1 H2. rewrite SFcompare_neg_swap. apply SFcompare_pos; assumption.
Qed.

(** A number of the format that the exact quotient reaches is reached by
    the computed quotient. *)
Lemma SFdiv_core_binary_lower (mx my ma : positive) (ex ey ea q e' sh r : Z) :
  -1074 <= ex -> -1074 <= ey -> -1074 <= ea -> Zpos ma < 2 ^ 53 ->
  0 <= sh -> e' = ex - ey - sh -> -2200 <= e' -> -2200 <= ex - sh ->
  Zpos mx * 2 ^ sh = q * Zpos my + r -> 0 <= r < Zpos my -> 0 <= q ->
  (-1074 < e' -> 2 ^ 52 <= q) ->
  (Zpos ma * p2 ea) * (Zpos my * p2 ey) <= (Zpos mx * p2 ex) * p2 0 ->
  Zpos ma * p2 ea <= q * p2 e'.
Proof.
  intros Hex Hey Hea Hma Hsh He' He'lo Hexsh Hdiv Hr Hq0 Hnormal Hle.
  assert (H1 : p2 e' * p2 ey = p2 (ex - sh) * p2 0).
  { rewrite p2_mul by lia. f_equal. f_equal. lia. }
  assert (H2 : p2 ex = p2 (ex - sh) * 2 ^ sh).
  { rewrite <- p2_add by lia. f_equal. lia. }
  pose proof (p2_pos ey ltac:(lia)) as Hpy. pose proof (p2_pos 0 ltac:(lia)) as Hp0.
  pose proof (p2_pos (ex - sh) Hexsh) as Hps. pose proof (p2_pos e' He'lo) as Hpe'.
  pose proof (p2_pos ea ltac:(lia)) as Hpa.
  set (vb := Zpos my * p2 ey) in *. assert (Hvb : 0 < vb) by (unfold vb; nia).
  assert (H3 : (q * p2 e') * vb + r * (p2 (ex - sh) * p2 0) = (Zpos mx * p2 ex) * p2 0).
  { unfold vb. rewrite H2.
    transitivity ((q * Zpos my + r) * (p2 (ex - sh) * p2 0)); [| rewrite <- Hdiv; ring].
    rewrite <- H1. ring. }
  (* the exact quotient lies below the next multiple of the unit *)
  assert (H4 : (Zpos ma * p2 ea) * vb < ((q + 1) * p2 e') * vb).
  { assert (r * (p2 (ex - sh) * p2 0) < Zpos my * (p2 (ex - sh) * p2 0))
      by (apply Z.mul_lt_mono_pos_r; nia).
    assert (Zpos my * (p2 (ex - sh) * p2 0) = p2 e' * vb) by (unfold vb; rewrite <- H1; ring).
    lia. }
  assert (H5 : Zpos ma * p2 ea < (q + 1) * p2 e').
  { apply Z.mul_lt_mono_pos_r with (p := vb); assumption. }
  destruct (Z_le_gt_dec e' ea) as [Hge | Hlt].
  - assert (Hg : p2 ea = p2 e' * 2 ^ (ea - e')).
    { rewrite <- p2_add by lia. f_equal. lia. }
    assert (0 < 2 ^ (ea - e')) by (apply Z.pow_pos_nonneg; lia).
    rewrite Hg in *.
    assert (Zpos ma * 2 ^ (ea - e') < q + 1) by nia. nia.
  - specialize (Hnormal ltac:(lia)). change (2 ^ 52) with 4503599627370496 in Hnormal.
    change (2 ^ 53) with 9007199254740992 in Hma.
    pose proof (p2_le ea (e' - 1) ltac:(lia) ltac:(lia)).
    pose proof (p2_succ (e' - 1) ltac:(lia)) as Hs. replace (e' - 1 + 1) with e' in Hs by lia.
    nia.
Qed.

(** [Math.floor] of a negative number: minus an integer [Rv] that is at
    least the magnitude and less than the magnitude plus one. *)
Lemma floor_neg_cases (mp : positive) (ep : Z) :
  bounded prec emax mp ep = true ->
  exists (mr : positive) (er Rv : Z),
    SFfloor (S754_finite true mp ep) = S754_finite true mr er /\
    bounded prec emax mr er = true /\ -52 <= er /\
    Zpos mr * 2 ^ (er + 52) = Rv * 2 ^ 52 /\
    Zpos mr * p2 er = Rv * p2 0 /\ 1 <= Rv /\
    Zpos mp * p2 ep <= Rv * p2 0 < Zpos mp * p2 ep + p2 0.
Proof.
  intros Hb. cbn [SFfloor].
  destruct (bounded_inv mp ep Hb) as [Hc _].
  pose proof (bounded_digits mp ep Hb) as Hm.
  pose proof (p2_pos 0 ltac:(lia)) as Hp0.
  destruct (Z.leb_spec 0 ep) as [Hep | Hep].
  - exists mp, ep, (Zpos mp * 2 ^ ep).
    assert (0 < 2 ^ ep) by (apply Z.pow_pos_nonneg; lia).
    assert (Hp : p2 ep = p2 0 * 2 ^ ep).
    { rewrite <- p2_add by lia. f_equal. }
    split; [reflexivity |]. split; [exact Hb |]. split; [lia |].
    split; [rewrite Z.pow_add_r by lia; lia |].
    split; [rewrite Hp; lia |]. split; [nia |]. rewrite Hp. lia.
  - cbn [cond_Zopp]. rewrite Z.shiftr_div_pow2 by lia.
    set (k := 2 ^ (- ep)).
    assert (Hk : 2 <= k).
    { unfold k. change 2 with (2 ^ 1) at 1. apply Z.pow_le_mono_r; lia. }
    assert (Hp : p2 0 = p2 ep * k).
    { unfold k. rewrite <- p2_add by lia. f_equal. lia. }
    pose proof (p2_pos ep ltac:(lia)) as Hpe.
    set (n := - Zpos mp / k).
    pose proof (Z.div_mod (- Zpos mp) k ltac:(lia)) as Hdm.
    pose proof (Z.mod_pos_bound (- Zpos mp) k ltac:(lia)) as Hmb.
    fold n in Hdm.
    assert (Hn1 : n <= -1) by nia.
    assert (Hn2 : - Zpos mp <= n) by nia.
    destruct (binary_normalize_small_int n ltac:(lia) ltac:(lia)) as (mz & ez & -> & Hez & Hmz & Hbz).
    replace (n <? 0) with true by (symmetry; apply Z.ltb_lt; lia).
    replace (Z.abs n) with (- n) in Hmz by lia.
    exists mz, ez, (- n).
    assert (Hpz : p2 0 = p2 ez * 2 ^ (- ez)).
    { rewrite <- p2_add by lia. f_equal. lia. }
    split; [reflexivity |]. split; [exact Hbz |]. split; [lia |].
    split; [rewrite Hmz, <- Z.mul_assoc, <- Z.pow_add_r by lia; f_equal; f_equal; lia |].
    split; [rewrite Hmz, Hpz; lia |]. split; [lia |].
    rewrite Hp. nia.
Qed.

(** The negative case: minus a positive integer below 2^52, a positive
    finite multiplier, and a finite quotient. *)
Lemma refloor_upper_neg (me mb : positive) (ee eb Ev : Z) :
  bounded prec emax me ee = true -> bounded prec emax mb eb = true ->
  -52 <= ee -> Zpos me * p2 ee = Ev * p2 0 -> 1 <= Ev < 2 ^ 52 ->
  valid_binary (SF64div (S754_finite true me ee) (S754_finite false mb eb)) = true ->
  SFfloor (SF64div (S754_finite true me ee) (S754_finite false mb eb)) <> S754_infinity true ->
  valid_binary (SF64mul (SFfloor (SF64div (S754_finite true me ee) (S754_finite false mb eb)))
                        (S754_finite false mb eb)) = true ->
  SFleb (SFfloor (SF64mul (SFfloor (SF64div (S754_finite true me ee) (S754_finite false mb eb)))
                          (S754_finite false mb eb)))
        (S754_finite true me ee) = true.
Proof.
  intros Hbe Hbb Hee HEv HEvb HvT Hfin HvP.
  destruct (bounded_inv me ee Hbe) as [Hce Heehi].
  destruct (bounded_inv mb eb Hbb) as [Hcb Hebhi].
  pose proof (bounded_digits mb eb Hbb) as Hmb.
  pose proof (bounded_normal_digits me ee Hbe ltac:(lia)) as Hde.
  pose proof (digits2_pos_bounds me) as [Hle _]. rewrite Hde in Hle.
  change (2 ^ (53 - 1)) with 4503599627370496 in Hle.
  change (2 ^ 53) with 9007199254740992 in *. change (2 ^ 52) with 4503599627370496 in *.
  pose proof (p2_pos 0 ltac:(lia)) as Hp0.
  pose proof (p2_pos ee ltac:(lia)) as Hpee. pose proof (p2_pos eb ltac:(lia)) as Hpeb.
  set (ve := Zpos me * p2 ee) in *. set (vb := Zpos mb * p2 eb) in *.
  assert (Hvb : 0 < vb) by (unfold vb; nia).
  destruct (SFdiv_core_binary_spec me mb ee eb)
    as (q & e' & sh & r & l & Ecore & Hsh & He' & Hdiv & Hr & Hq0 & Hl & He'lo & Hfexp & Hnormal & Hloc).
  assert (Hqpos : 0 < q).
  { destruct (Z_le_gt_dec e' (-1074)) as [Hlow | Hhigh].
    - assert (Hsh51 : 51 <= sh) by lia.
      assert (2 ^ 51 <= 2 ^ sh) by (apply Z.pow_le_mono_r; lia).
      change (2 ^ 51) with 2251799813685248 in *.
      destruct (Z.eq_dec q 0) as [Hz | Hz]; [| lia]. rewrite Hz in Hdiv. nia.
    - specialize (Hnormal ltac:(lia)). change (2 ^ 52) with 4503599627370496 in Hnormal. lia. }
  assert (Hexsh : -2200 <= ee - sh) by lia.
  unfold SF64div in *. cbn [SFdiv xorb] in *. rewrite Ecore in *.
  set (T := binary_round_aux prec emax true q e' l) in *.
  (* a lower bound on the rounded quotient from a lower bound on the exact one *)
  assert (Tlower : forall (ma : positive) (ea : Z),
            Zpos ma < 9007199254740992 -> -1074 <= ea ->
            (Zpos ma * p2 ea) * vb <= ve * p2 0 ->
            T = S754_infinity true \/
            exists (mt : positive) (et : Z),
              T = S754_finite true mt et /\ Zpos ma * p2 ea <= Zpos mt * p2 et).
  { intros ma ea Hma Hea Hle'.
    pose proof (SFdiv_core_binary_lower me mb ma ee eb ea q e' sh r
                  ltac:(lia) ltac:(lia) Hea Hma Hsh He' ltac:(lia) Hexsh Hdiv Hr Hq0 Hnormal Hle')
      as L1.
    apply binary_round_aux_lower; (lia || assumption). }
  (* the quotient does not round to zero *)
  destruct (Tlower 1%positive (-1074) ltac:(lia) ltac:(lia)) as [ET | (mt & et & ET & _)].
  { pose proof (p2_mul (-1074) 971 ltac:(lia) ltac:(lia) ltac:(lia)) as Hm.
    change (-1074 + 971) with (-103) in Hm.
    assert (Hs : p2 (-103) * 9007199254740992 <= p2 0).
    { change 9007199254740992 with (2 ^ 53). rewrite <- p2_add by lia. apply p2_le; lia. }
    pose proof (p2_le eb 971 ltac:(lia) ltac:(lia)) as Hb1.
    pose proof (p2_pos (-1074) ltac:(lia)) as Hpm. pose proof (p2_pos (-103) ltac:(lia)).
    assert (Hvb1 : vb <= 9007199254740992 * p2 971) by (unfold vb; nia).
    assert (p2 (-1074) * vb <= p2 (-1074) * (9007199254740992 * p2 971))
      by (apply Z.mul_le_mono_nonneg_l; lia).
    assert (p2 (-1074) * (9007199254740992 * p2 971) = 9007199254740992 * p2 (-103) * p2 0)
      by (transitivity (9007199254740992 * (p2 (-103) * p2 0)); [rewrite <- Hm |]; ring).
    assert (p2 0 * p2 0 <= ve * p2 0) by (rewrite HEv; apply Z.mul_le_mono_nonneg_r; nia).
    assert (9007199254740992 * p2 (-103) * p2 0 <= p2 0 * p2 0)
      by (apply Z.mul_le_mono_nonneg_r; lia).
    lia. }
  { exfalso. apply Hfin. rewrite ET. reflexivity. }
  rewrite ET in *.
  destruct (floor_neg_cases mt et HvT)
    as (mq & eq & Qv & EQ & Hbq & Heq & _ & Hvq & HQv & HQlo & HQhi).
  rewrite EQ in *.
  set (vq := Zpos mq * p2 eq) in *. set (vt := Zpos mt * p2 et) in *.
  pose proof (p2_pos eq ltac:(lia)) as Hpeq.
  (* the product stays above [e - 1/2] in magnitude *)
  assert (Hkey : (2 * Ev - 1) * (p2 0 * p2 0) <= (vq * vb) * 2).
  { destruct (Z_le_gt_dec (ve * p2 0) (vq * vb)) as [Hbig | Hsmall].
    - rewrite HEv in Hbig. nia.
    - (* the quotient was rounded toward zero to the integer [vq] *)
      assert (Hvt : vt = vq).
      { destruct (Tlower mq eq (bounded_digits mq eq Hbq)
                    ltac:(destruct (bounded_inv mq eq Hbq); lia) ltac:(fold vq; lia))
          as [H1 | (mt' & et' & H1 & H2)]; [congruence |].
        injection H1 as <- <-. fold vq vt in H2. lia. }
      assert (Het : -52 <= et).
      { destruct (Z_le_gt_dec (-52) et) as [H | H]; [exact H | exfalso].
        pose proof (bounded_digits mt et HvT) as Hmt.
        assert (p2 et * 9007199254740992 <= p2 0).
        { change 9007199254740992 with (2 ^ 53).
          rewrite <- p2_add by (destruct (bounded_inv mt et HvT); lia).
          apply p2_le; destruct (bounded_inv mt et HvT); lia. }
        pose proof (p2_pos et ltac:(destruct (bounded_inv mt et HvT); lia)).
        unfold vt in *. nia. }
      pose proof (bounded_normal_digits mt et HvT ltac:(lia)) as Hdt.
      pose proof (digits2_pos_bounds mt) as [Hnorm _]. rewrite Hdt in Hnorm.
      change (2 ^ (53 - 1)) with 4503599627370496 in Hnorm.
      pose proof (p2_pos et ltac:(lia)) as Hpet.
      (* the rounded quotient is within half a unit of the exact one *)
      pose proof (SFdiv_core_binary_located me mb ee eb q e' sh r
                    ltac:(lia) ltac:(lia) Hsh He' ltac:(lia) Hexsh Hdiv Hr) as Hlocated.
      rewrite <- Hloc in Hlocated.
      pose proof (binary_round_aux_nearest true q e' (ve * p2 0) vb l mt et
                    Hqpos ltac:(lia) Hvb Hlocated ET) as [_ Hhalf].
      rewrite HEv in Hhalf.
      set (X := vq * vb) in *. set (Y := p2 et * vb) in *. set (K := p2 0 * p2 0) in *.
      assert (HY : 4503599627370496 * Y <= X).
      { unfold X, Y. rewrite <- Hvt. unfold vt.
        replace (4503599627370496 * (p2 et * vb)) with (4503599627370496 * p2 et * vb) by ring.
        apply Z.mul_le_mono_nonneg_r; [lia |]. apply Z.mul_le_mono_nonneg_r; lia. }
      assert (HXY : 2 * (Ev * K) <= 2 * X + Y).
      { unfold X, K. rewrite <- Hvt. unfold vt.
        replace (2 * (Zpos mt * p2 et * vb) + Y) with ((2 * Zpos mt + 1) * Y) by (unfold Y; ring).
        replace (2 * (Ev * (p2 0 * p2 0))) with (2 * (Ev * p2 0 * p2 0)) by ring.
        exact Hhalf. }
      assert (HK : 0 < K) by (unfold K; nia).
      assert (HP : Ev * K <= 4503599627370495 * K) by (apply Z.mul_le_mono_nonneg_r; lia).
      clear - HY HXY HK HP. lia. }
  (* rounding the product *)
  assert (Ha : Zpos (Z.to_pos (2 * Ev - 1)) = 2 * Ev - 1) by lia.
  assert (Hh : p2 0 = 2 * p2 (-1)) by (rewrite <- p2_succ by lia; reflexivity).
  pose proof (p2_pos (-1) ltac:(lia)) as Hpm1.
  assert (Hprod : Zpos (Z.to_pos (2 * Ev - 1)) * p2 (-1) <= Zpos (mq * mb) * p2 (eq + eb)).
  { assert (Hm : vq * vb = Zpos (mq * mb) * p2 (eq + eb) * p2 0).
    { unfold vq, vb. rewrite Pos2Z.inj_mul.
      transitivity (Zpos mq * Zpos mb * (p2 eq * p2 eb)); [ring |].
      rewrite p2_mul by lia. ring. }
    rewrite Ha. rewrite Hm in Hkey.
    apply Z.mul_le_mono_pos_r with (p := 2 * p2 0); [lia |].
    replace ((2 * Ev - 1) * p2 (-1) * (2 * p2 0)) with ((2 * Ev - 1) * (p2 0 * p2 0))
      by (rewrite Hh at 1; ring).
    clear - Hkey. lia. }
  unfold SF64mul in *. cbn [SFmul xorb] in *.
  destruct (binary_round_aux_lower true (Zpos (mq * mb)) (eq + eb) loc_Exact
              (Z.to_pos (2 * Ev - 1)) (-1) ltac:(lia) ltac:(lia) ltac:(lia) ltac:(lia) Hprod)
    as [EP | (mp & ep & EP & Hp)]; rewrite EP in *.
  - reflexivity.
  - destruct (floor_neg_cases mp ep HvP)
      as (mr & er & Rv & ER & Hbr & Her & _ & Hvr & HRv & HRlo & HRhi).
    rewrite ER. unfold SFleb. rewrite (SFcompare_neg mr me er ee Hbr Hbe).
    fold ve. rewrite Hvr, HEv. rewrite Ha in Hp.
    assert (HRE : Ev <= Rv).
    { destruct (Z_le_gt_dec Ev Rv) as [HR | HR]; [exact HR | exfalso].
      assert ((Rv + 1) * p2 (-1) <= Ev * p2 (-1)) by (apply Z.mul_le_mono_nonneg_r; lia).
      rewrite Hh in HRlo. clear - HRlo Hp H Hpm1. lia. }
    assert (Ev * p2 0 <= Rv * p2 0) by (apply Z.mul_le_mono_nonneg_r; lia).
    destruct (Z.compare_spec (Ev * p2 0) (Rv * p2 0)) as [H1 | H1 | H1]; try reflexivity. lia.
Qed.

(** * The program's properties *)

(** ** The loops run to completion

    The fuel [calculateBaseSpeeds] gives to its two loops is never what
    stops them: with any larger amount the result is the same. *)

Lemma upward_fuel (n : nat) : forall (i : Z) (f : float) (s : jsarray),
  (Z.to_nat i <= n)%nat -> upward n i f s = upward (Z.to_nat i) i f s.
Proof.
  induction n as [|n IH]; intros i f s Hn.
  - replace (Z.to_nat i) with O by lia. reflexivity.
  - destruct (Z.to_nat i) as [|k] eqn:Hk.
    + simpl. destruct (Z.leb_spec 1 i); [lia | reflexivity].
    + simpl. destruct (Z.leb_spec 1 i); [|reflexivity].
      rewrite IH by lia. replace (Z.to_nat (i - 1)) with k by lia. reflexivity.
Qed.

Lemma downward_fuel (n : nat) : forall (j : Z) (f : float) (s : jsarray),
  (Z.to_nat (PARTY_SIZE + 1 - j) <= n)%nat ->
  downward n j f s = downward (Z.to_nat (PARTY_SIZE + 1 - j)) j f s.
Proof.
  induction n as [|n IH]; intros j f s Hn.
  - replace (Z.to_nat (PARTY_SIZE + 1 - j)) with O by lia. reflexivity.
  - destruct (Z.to_nat (PARTY_SIZE + 1 - j)) as [|k] eqn:Hk.
    + simpl. destruct (Z.leb_spec j PARTY_SIZE); [lia | reflexivity].
    + simpl. destruct (Z.leb_spec j PARTY_SIZE); [|reflexivity].
      rewrite IH by lia.
      replace (Z.to_nat (PARTY_SIZE + 1 - (j + 1))) with k by lia. reflexivity.
Qed.

Lemma upward_fuel_enough (position : Z) (n : nat) (f : float) (s : jsarray) :
  (Z.to_nat position <= n)%nat ->
  upward n (position - 1) f s = upward (Z.to_nat position) (position - 1) f s.
Proof.
  intros Hn. rewrite (upward_fuel n), (upward_fuel (Z.to_nat position)) by lia.
  reflexivity.
Qed.

Lemma downward_fuel_enough (position : Z) (n : nat) (f : float) (s : jsarray) :
  (Z.to_nat (PARTY_SIZE - position) <= n)%nat ->
  downward n (position + 2) f s =
  downward (Z.to_nat (PARTY_SIZE - position)) (position + 2) f s.
Proof.
  intros Hn. unfold PARTY_SIZE in *.
  rewrite (downward_fuel n), (downward_fuel (Z.to_nat (4 - position)))
    by (unfold PARTY_SIZE; lia).
  reflexivity.
Qed.

(** ** The four anchor positions

    For each anchor slot the returned array, entry by entry, as the loops
    leave it. *)

Lemma calculateBaseSpeeds_1 (v f : float) :
  calculateBaseSpeeds 1 v f =
  [ v;
    (floorDiv v f - 1)%float;
    (floorDiv (floorDiv v f - 1) f - 1)%float;
    (floorDiv (floorDiv (floorDiv v f - 1) f - 1) f - 1)%float ].
Proof. reflexivity. Qed.

Lemma calculateBaseSpeeds_2 (v f : float) :
  calculateBaseSpeeds 2 v f =
  [ (floorMul v f + 1)%float;
    v;
    (floorDiv v f - 1)%float;
    (floorDiv (floorDiv v f - 1) f - 1)%float ].
Proof. reflexivity. Qed.

Lemma calculateBaseSpeeds_3 (v f : float) :
  calculateBaseSpeeds 3 v f =
  [ (floorMul (floorMul v f + 1) f + 1)%float;
    (floorMul v f + 1)%float;
    v;
    (floorDiv v f - 1)%float ].
Proof. reflexivity. Qed.

Lemma calculateBaseSpeeds_4 (v f : float) :
  calculateBaseSpeeds 4 v f =
  [ (floorMul (floorMul (floorMul v f + 1) f + 1) f + 1)%float;
    (floorMul (floorMul v f + 1) f + 1)%float;
    (floorMul v f + 1)%float;
    v ].
Proof. reflexivity. Qed.

Ltac slot_cases s H :=
  let E := fresh "E" in
  assert (E : s = 1 \/ s = 2 \/ s = 3 \/ s = 4) by lia;
  clear H; destruct E as [-> | [-> | [-> | ->]]].

Ltac slot_cases_below i s :=
  let E := fresh "E" in
  assert (E : i = 1 \/ i = 2 \/ i = 3) by lia;
  destruct E as [-> | [-> | ->]]; try lia.

(** ** Threshold propagation: [calculateBaseSpeeds] *)

(** C3. The returned value of the anchor slot is the anchor value itself. *)
Theorem anchor_slot_is_anchor_value (s : Z) (v f : float) :
  1 <= s <= 4 -> slot (calculateBaseSpeeds s v f) s = v.
Proof.
  intros Hs. slot_cases s Hs; reflexivity.
Qed.

Lemma anchor_slot_is_anchor_value_witness :
  1 <= 3 <= 4 /\ slot (calculateBaseSpeeds 3 1000 BATTLE_FACTORS_NORMAL) 3 = 1000%float.
Proof.
  split; [lia | apply (anchor_slot_is_anchor_value 3 1000 BATTLE_FACTORS_NORMAL); lia].
Defined.

(** ** Buff-aware resolution: [calculateWithBuffs] *)

(** C4. The raw speed returned for the anchor slot is the caller's
    [baseSpeed], whatever the buffs. *)
Theorem anchor_raw_speed_echoed (s : Z) (r f : float) (b : list float) :
  1 <= s <= 4 ->
  index (baseSpeeds (calculateWithBuffs s r f b)) (s - 1) = r.
Proof.
  intros Hs. slot_cases s Hs; reflexivity.
Qed.

Lemma anchor_raw_speed_echoed_witness :
  1 <= 2 <= 4 /\
  index (baseSpeeds (calculateWithBuffs 2 1000 BATTLE_FACTORS_MEGAMON
                       [1.5; 0.5; 3; 1]%float)) (2 - 1) = 1000%float.
Proof.
  split; [lia | apply (anchor_raw_speed_echoed 2 1000 BATTLE_FACTORS_MEGAMON); lia].
Defined.

(** C10. The effective speed returned for the anchor slot is
    [Math.floor (baseSpeed * buffs[s - 1])], the anchor value given to
    [calculateBaseSpeeds], and so it equals the value propagated for the
    anchor slot in step 2. *)
Theorem anchor_effective_speed_is_step2_value (s : Z) (r f : float) (b : list float) :
  1 <= s <= 4 ->
  index (effectiveSpeeds (calculateWithBuffs s r f b)) (s - 1) =
    Math_floor (r * index b (s - 1)) /\
  index (effectiveSpeeds (calculateWithBuffs s r f b)) (s - 1) =
    slot (calculateBaseSpeeds s (Math_floor (r * index b (s - 1))) f) s.
Proof.
  intros Hs. slot_cases s Hs; split; reflexivity.
Qed.

Lemma anchor_effective_speed_is_step2_value_witness :
  1 <= 2 <= 4 /\
  (index (effectiveSpeeds (calculateWithBuffs 2 1001 BATTLE_FACTORS_NORMAL
                             [1; 1.5; 1; 1]%float)) (2 - 1) =
     Math_floor (1001 * index [1; 1.5; 1; 1]%float (2 - 1)) /\
   index (effectiveSpeeds (calculateWithBuffs 2 1001 BATTLE_FACTORS_NORMAL
                             [1; 1.5; 1; 1]%float)) (2 - 1) =
     slot (calculateBaseSpeeds 2 (Math_floor (1001 * index [1; 1.5; 1; 1]%float (2 - 1)))
             BATTLE_FACTORS_NORMAL) 2).
Proof.
  split; [lia | apply (anchor_effective_speed_is_step2_value 2 1001 BATTLE_FACTORS_NORMAL); lia].
Defined.

(** At a slot other than the anchor the two values can differ: with a
    150% buff on slot 2 the propagated effective value 832 becomes the raw
    speed 554, whose effective speed is 831. *)
Example non_anchor_effective_speed_diverges :
  slot (calculateBaseSpeeds 1 1000 BATTLE_FACTORS_MEGAMON) 2 = 832%float /\
  index (effectiveSpeeds (calculateWithBuffs 1 1000 BATTLE_FACTORS_MEGAMON
                            [1; 1.5; 1; 1]%float)) 1 = 831%float.
Proof. split; vm_compute; reflexivity. Qed.

(** ** Slots other than the anchor

    The value propagated to a slot other than the anchor is integral
    ([Math.floor] of something, plus or minus one); step 3 divides it by the
    slot's multiplier and floors, step 4 multiplies the result back and
    floors again. *)

Lemma Math_floor_floorMul_succ (a f : float) :
  Math_floor (floorMul a f + 1) = (floorMul a f + 1)%float.
Proof. apply Math_floor_add_one, Math_floor_idempotent. Qed.

Lemma Math_floor_floorDiv_pred (a f : float) :
  Math_floor (floorDiv a f - 1) = (floorDiv a f - 1)%float.
Proof. apply Math_floor_sub_one, Math_floor_idempotent. Qed.

Lemma non_anchor_speeds (s i : Z) (r f : float) (b : list float) :
  1 <= s <= 4 -> 0 <= i < 4 -> i <> s - 1 ->
  let e := index (calculateBaseSpeeds s (Math_floor (r * index b (s - 1))) f) i in
  Math_floor e = e /\
  index (baseSpeeds (calculateWithBuffs s r f b)) i = Math_floor (e / index b i) /\
  index (effectiveSpeeds (calculateWithBuffs s r f b)) i =
    Math_floor (Math_floor (e / index b i) * index b i).
Proof.
  intros Hs Hi Hne.
  slot_cases s Hs;
    (assert (E : i = 0 \/ i = 1 \/ i = 2 \/ i = 3) by lia;
     destruct E as [-> | [-> | [-> | ->]]]; try lia);
    (split; [| split; reflexivity]);
    first [ apply Math_floor_floorMul_succ | apply Math_floor_floorDiv_pred ].
Qed.

(** ** Division by a zero multiplier

    JavaScript's division never throws: dividing by [+0] or [-0] yields an
    infinity or NaN, which [Math.floor] leaves unchanged, and multiplying
    that by zero yields NaN. *)








(** ** Buffs of exactly 100% *)

(** With buffs [[1; 1; 1; 1]] step 3 keeps the anchor's raw speed and
    divides every other propagated value by one. *)
Lemma baseSpeeds_unit_buffs (s : Z) (r f : float) :
  1 <= s <= 4 ->
  baseSpeeds (calculateWithBuffs s r f [1; 1; 1; 1]%float) =
  imap (fun i e => if Z.of_nat i =? s - 1 then r else Math_floor (e / 1))
       (calculateBaseSpeeds s (Math_floor (r * 1)) f).
Proof. intros Hs. slot_cases s Hs; reflexivity. Qed.

(** C7. With an integral anchor raw speed and all four buff multipliers
    equal to 1, the raw speeds returned by [calculateWithBuffs] are, entry
    for entry, the array returned by [calculateBaseSpeeds] for the same
    anchor slot, raw speed and factor.  It holds for every factor and for
    every integral raw speed, non-negative or not. *)
Theorem unit_buffs_raw_speeds_are_base_speeds (s : Z) (r f : float) :
  1 <= s <= 4 -> Math_floor r = r ->
  baseSpeeds (calculateWithBuffs s r f [1; 1; 1; 1]%float) = calculateBaseSpeeds s r f.
Proof.
  intros Hs Hr. rewrite (baseSpeeds_unit_buffs s r f Hs), mul_one, Hr.
  slot_cases s Hs;
    [ rewrite calculateBaseSpeeds_1 | rewrite calculateBaseSpeeds_2
    | rewrite calculateBaseSpeeds_3 | rewrite calculateBaseSpeeds_4 ];
    cbv [imap Z.of_nat Z.eqb Z.sub Z.add Z.opp Z.pos_sub
         Pos.of_succ_nat Pos.succ compose];
    rewrite ?div_one, ?Math_floor_floorMul_succ, ?Math_floor_floorDiv_pred;
    reflexivity.
Qed.

Lemma unit_buffs_raw_speeds_are_base_speeds_witness :
  (1 <= 3 <= 4 /\ Math_floor 1000 = 1000%float) /\
  baseSpeeds (calculateWithBuffs 3 1000 BATTLE_FACTORS_NORMAL [1; 1; 1; 1]%float) =
  calculateBaseSpeeds 3 1000 BATTLE_FACTORS_NORMAL.
Proof.
  split; [split; [lia | reflexivity] |].
  apply (unit_buffs_raw_speeds_are_base_speeds 3 1000 BATTLE_FACTORS_NORMAL);
    [lia | reflexivity].
Defined.

(** ** The upward region is decreasing *)

(** The values the upward loop meets are integral and non-negative, and
    stay so. *)
Lemma upward_step_invariant (x f : float) :
  Math_floor x = x -> (0 <=? x)%float = true ->
  is_finite f = true -> (1 <? f)%float = true ->
  Math_floor (floorMul x f + 1) = (floorMul x f + 1)%float /\
  (0 <=? floorMul x f + 1)%float = true.
Proof.
  intros Hint Hnn Hffin Hfgt. split; [apply Math_floor_floorMul_succ |].
  destruct (nonneg_finite_or_infinity x Hnn) as [Hfin | ->].
  - apply (upward_step_finite x f); assumption.
  - rewrite upward_step_infinity by assumption. reflexivity.
Qed.

Lemma upward_step_le (x f : float) :
  Math_floor x = x -> (0 <=? x)%float = true ->
  is_finite f = true -> (1 <? f)%float = true ->
  (x <=? floorMul x f + 1)%float = true.
Proof.
  intros Hint Hnn Hffin Hfgt.
  destruct (nonneg_finite_or_infinity x Hnn) as [Hfin | ->].
  - apply ltb_leb, (upward_step_finite x f); assumption.
  - rewrite upward_step_infinity by assumption. reflexivity.
Qed.

(** C8, as the code behaves.  For an anchor slot [s] in 1..4, a finite
    non-negative integer anchor value and a finite factor above one, every
    slot [i] below the anchor holds a value at least that of slot [i + 1],
    and a strictly greater one whenever the value of slot [i + 1] is finite
    (once a value has overflowed to [Infinity], the slots above it hold
    [Infinity] too). *)
Theorem upward_region_decreasing (s i : Z) (v f : float) :
  1 <= s <= 4 -> 1 <= i < s ->
  is_finite v = true -> Math_floor v = v -> (0 <=? v)%float = true ->
  is_finite f = true -> (1 <? f)%float = true ->
  (slot (calculateBaseSpeeds s v f) (i + 1) <=? slot (calculateBaseSpeeds s v f) i)%float = true /\
  (is_finite (slot (calculateBaseSpeeds s v f) (i + 1)) = true ->
   (slot (calculateBaseSpeeds s v f) (i + 1) <? slot (calculateBaseSpeeds s v f) i)%float = true).
Proof.
  intros Hs Hi Hvfin Hvint Hvnn Hffin Hfgt.
  destruct (upward_step_invariant v f Hvint Hvnn Hffin Hfgt) as [I1 N1].
  destruct (upward_step_invariant _ f I1 N1 Hffin Hfgt) as [I2 N2].
  assert (Hstep : forall x : float,
            Math_floor x = x -> (0 <=? x)%float = true ->
            (x <=? floorMul x f + 1)%float = true /\
            (is_finite x = true -> (x <? floorMul x f + 1)%float = true)).
  { intros x Hint Hnn. split.
    - apply upward_step_le; assumption.
    - intros Hfin. apply (upward_step_finite x f); assumption. }
  slot_cases s Hs; slot_cases_below i Hi.
  - exact (Hstep v Hvint Hvnn).
  - exact (Hstep _ I1 N1).
  - exact (Hstep v Hvint Hvnn).
  - exact (Hstep _ I2 N2).
  - exact (Hstep _ I1 N1).
  - exact (Hstep v Hvint Hvnn).
Qed.

Lemma upward_region_decreasing_witness :
  (1 <= 3 <= 4 /\ 1 <= 1 < 3) /\
  (slot (calculateBaseSpeeds 3 1000 BATTLE_FACTORS_NORMAL) (1 + 1)
   <=? slot (calculateBaseSpeeds 3 1000 BATTLE_FACTORS_NORMAL) 1)%float = true /\
  (is_finite (slot (calculateBaseSpeeds 3 1000 BATTLE_FACTORS_NORMAL) (1 + 1)) = true ->
   (slot (calculateBaseSpeeds 3 1000 BATTLE_FACTORS_NORMAL) (1 + 1)
    <? slot (calculateBaseSpeeds 3 1000 BATTLE_FACTORS_NORMAL) 1)%float = true).
Proof.
  split; [lia |].
  apply (upward_region_decreasing 3 1 1000 BATTLE_FACTORS_NORMAL);
    (lia || reflexivity).
Defined.

(** C8, as stated, fails: the anchor value 10^308 (the integer nearest to
    it that binary64 holds) at slot 3 with factor 2 is finite, integral and
    non-negative, yet slots 1 and 2 both hold [Infinity], so slot 1 does not
    exceed slot 2. *)
Lemma upward_overflow_not_decreasing :
  (is_finite 0x1.1ccf385ebc8a0p+1023 = true /\
   Math_floor 0x1.1ccf385ebc8a0p+1023 = 0x1.1ccf385ebc8a0p+1023%float /\
   (0 <=? 0x1.1ccf385ebc8a0p+1023)%float = true /\
   is_finite 2 = true /\ (1 <? 2)%float = true) /\
  calculateBaseSpeeds 3 0x1.1ccf385ebc8a0p+1023 2 =
    [infinity; infinity; 0x1.1ccf385ebc8a0p+1023; 0x1.1ccf385ebc8a0p+1022]%float /\
  (slot (calculateBaseSpeeds 3 0x1.1ccf385ebc8a0p+1023 2) 2
   <? slot (calculateBaseSpeeds 3 0x1.1ccf385ebc8a0p+1023 2) 1)%float = false.
Proof. vm_compute. repeat split; reflexivity. Qed.

(** ** The effective speed recomputed from the raw speed *)

(** A finite number above zero decodes to a positive finite number. *)
Lemma positive_finite_inv (b : float) :
  is_finite b = true -> (0 <? b)%float = true ->
  exists (mb : positive) (eb : Z), Prim2SF b = S754_finite false mb eb.
Proof.
  intros Hfin Hpos. pose proof (is_finite_inv b Hfin) as C.
  rewrite ltb_spec, Prim2SF_of_zero in Hpos. unfold SFltb in Hpos.
  destruct (Prim2SF b) as [s | s | | [|] mb eb]; try contradiction;
    cbn [SFcompare] in Hpos; try discriminate.
  eauto.
Qed.

Lemma Prim2SF_two_pow_52 : Prim2SF 0x1p+52%float = S754_finite false 4503599627370496 0.
Proof. reflexivity. Qed.

(** Dividing an integer of magnitude below 2^52 by a positive finite
    multiplier, flooring, multiplying back and flooring again does not
    exceed the integer, provided the floored quotient is finite. *)
Lemma refloor_le (e b : float) :
  Math_floor e = e -> (abs e <? 0x1p+52)%float = true ->
  is_finite b = true -> (0 <? b)%float = true ->
  is_finite (Math_floor (e / b)) = true ->
  (Math_floor (Math_floor (e / b) * b) <=? e)%float = true.
Proof.
  intros Hint Hmag Hbfin Hbpos Hqfin.
  destruct (positive_finite_inv b Hbfin Hbpos) as (mb & eb & EB).
  apply Math_floor_fixed_iff in Hint.
  pose proof (Prim2SF_valid e) as Hve. pose proof (Prim2SF_valid b) as Hvb.
  pose proof (Prim2SF_valid (e / b)) as HvT.
  pose proof (Prim2SF_valid (Math_floor (e / b) * b)) as HvP.
  pose proof (is_finite_inv _ Hqfin) as Hq.
  rewrite ltb_spec, abs_spec, Prim2SF_two_pow_52 in Hmag.
  rewrite leb_spec, Math_floor_spec.
  rewrite mul_spec, Math_floor_spec, div_spec, EB in *.
  destruct (Prim2SF e) as [s | s | | s me ee].
  - destruct s; reflexivity.
  - destruct s; discriminate.
  - discriminate.
  - destruct (SFint_value s me ee Hint) as [Hee [Ev [HEv1 HEv]]].
    assert (HEv2 : Ev < 2 ^ 52).
    { unfold SFltb in Hmag. cbn [SFabs] in Hmag.
      rewrite (SFcompare_pos me 4503599627370496 ee 0 Hve eq_refl) in Hmag.
      destruct (Z.compare_spec (Zpos me * p2 ee) (4503599627370496 * p2 0)) as [H | H | H];
        try discriminate.
      pose proof (p2_pos 0 ltac:(lia)) as Hp.
      change (2 ^ 52) with 4503599627370496.
      destruct (Z_lt_ge_dec Ev 4503599627370496) as [Hl | Hg]; [exact Hl | exfalso].
      assert (4503599627370496 * p2 0 <= Ev * p2 0) by (apply Z.mul_le_mono_nonneg_r; lia).
      rewrite HEv in H. lia. }
    destruct s.
    + apply (refloor_upper_neg me mb ee eb Ev); try assumption; try lia.
      intros Hinf. rewrite Hinf in Hq. exact Hq.
    + apply (refloor_upper_pos me mb ee eb Ev); try assumption; try lia.
      intros Hinf. rewrite Hinf in Hq. exact Hq.
Qed.

(** C9, as the code behaves.  For a slot [i] other than the anchor whose
    buff multiplier is finite and positive, whose propagated effective
    value [e_i] is below 2^52 in magnitude and whose raw speed
    [Math.floor (e_i / b_i)] is finite, the effective speed finally returned
    does not exceed [e_i]. *)
Theorem final_effective_speed_le_propagated (s i : Z) (r f : float) (b : list float) :
  1 <= s <= 4 -> 0 <= i < 4 -> i <> s - 1 ->
  is_finite (index b i) = true -> (0 <? index b i)%float = true ->
  (abs (index (calculateBaseSpeeds s (Math_floor (r * index b (s - 1))) f) i)
   <? 0x1p+52)%float = true ->
  is_finite (index (baseSpeeds (calculateWithBuffs s r f b)) i) = true ->
  (index (effectiveSpeeds (calculateWithBuffs s r f b)) i
   <=? index (calculateBaseSpeeds s (Math_floor (r * index b (s - 1))) f) i)%float = true.
Proof.
  intros Hs Hi Hne Hbfin Hbpos Hmag Hraw.
  destruct (non_anchor_speeds s i r f b Hs Hi Hne) as (Hint & Hbase & Heff).
  rewrite Heff. rewrite Hbase in Hraw.
  apply refloor_le; assumption.
Qed.

Lemma final_effective_speed_le_propagated_witness :
  (1 <= 1 <= 4 /\ 0 <= 1 < 4 /\ 1 <> 1 - 1 /\
   is_finite (index [1; 1.5; 1; 1]%float 1) = true /\
   (0 <? index [1; 1.5; 1; 1]%float 1)%float = true /\
   (abs (index (calculateBaseSpeeds 1
                  (Math_floor (1000 * index [1; 1.5; 1; 1]%float (1 - 1)))
                  BATTLE_FACTORS_MEGAMON) 1) <? 0x1p+52)%float = true /\
   is_finite (index (baseSpeeds (calculateWithBuffs 1 1000 BATTLE_FACTORS_MEGAMON
                                   [1; 1.5; 1; 1]%float)) 1) = true) /\
  (index (effectiveSpeeds (calculateWithBuffs 1 1000 BATTLE_FACTORS_MEGAMON
                             [1; 1.5; 1; 1]%float)) 1
   <=? index (calculateBaseSpeeds 1
                (Math_floor (1000 * index [1; 1.5; 1; 1]%float (1 - 1)))
                BATTLE_FACTORS_MEGAMON) 1)%float = true.
Proof.
  split; [repeat split; (lia || reflexivity) |].
  apply (final_effective_speed_le_propagated 1 1 1000 BATTLE_FACTORS_MEGAMON
           [1; 1.5; 1; 1]%float); (lia || reflexivity).
Defined.

(** C9, as stated, fails: with anchor slot 4, raw speed 4503824303035504,
    factor 1.2 and buffs 60%, 110%, 213% and 100%, the value propagated to
    slot 1 is 7782608395645354; its raw speed is 12971013992742258, whose
    effective speed, as binary64 rounds the product, is 7782608395645355. *)
Lemma final_effective_speed_exceeds_propagated :
  (Math_floor 4503824303035504 = 4503824303035504%float /\
   (0 <=? 4503824303035504)%float = true /\
   (1 <? BATTLE_FACTORS_MEGAMON)%float = true /\
   forallb (fun x => (0 <? x)%float)
     [0x1.3333333333333p-1; 0x1.199999999999ap+0; 0x1.10a3d70a3d70ap+1; 1]%float = true) /\
  index (calculateBaseSpeeds 4
           (Math_floor (4503824303035504 *
              index [0x1.3333333333333p-1; 0x1.199999999999ap+0; 0x1.10a3d70a3d70ap+1; 1]%float
                    (4 - 1)))
           BATTLE_FACTORS_MEGAMON) 0 = 7782608395645354%float /\
  index (baseSpeeds (calculateWithBuffs 4 4503824303035504 BATTLE_FACTORS_MEGAMON
           [0x1.3333333333333p-1; 0x1.199999999999ap+0; 0x1.10a3d70a3d70ap+1; 1]%float)) 0
    = 12971013992742258%float /\
  index (effectiveSpeeds (calculateWithBuffs 4 4503824303035504 BATTLE_FACTORS_MEGAMON
           [0x1.3333333333333p-1; 0x1.199999999999ap+0; 0x1.10a3d70a3d70ap+1; 1]%float)) 0
    = 7782608395645355%float /\
  (7782608395645355 <=? 7782608395645354)%float = false.
Proof. vm_compute. repeat split; reflexivity. Qed.

(** * Further properties of the code

    What follows goes beyond the anchor slots 1..4 and the well-formed
    inputs: any integer position, NaN values, missing buffs, the order of
    the whole returned array, the margin each threshold keeps, and the
    form handler [calculateSpeeds]. *)

(** ** [floorDiv] and [floorMul] round down *)

Lemma is_nan_inv (x : float) : is_nan x = false -> Prim2SF x <> S754_nan.
Proof.
  unfold is_nan. rewrite FloatAxioms.eqb_spec. intros H E. rewrite E in H. discriminate.
Qed.

Lemma SFfloor_le (x : spec_float) :
  valid_binary x = true -> x <> S754_nan -> SFleb (SFfloor x) x = true.
Proof.
  intros Hv Hn. destruct x as [s | s | | s m e].
  - reflexivity.
  - destruct s; reflexivity.
  - contradiction.
  - destruct s.
    + destruct (floor_neg_cases m e Hv) as (mr & er & Rv & ER & Hbr & _ & _ & Hvr & _ & Hlo & _).
      rewrite ER. unfold SFleb. rewrite (SFcompare_neg mr m er e Hbr Hv).
      destruct (Z.compare_spec (Zpos m * p2 e) (Zpos mr * p2 er)); try reflexivity. lia.
    + destruct (floor_pos_cases m e Hv) as [EZ | (mz & ez & Zv & EZ & Hbz & _ & Hvz & _ & Hlo & _)];
        rewrite EZ; [reflexivity |].
      unfold SFleb. rewrite (SFcompare_pos mz m ez e Hbz Hv).
      destruct (Z.compare_spec (Zpos mz * p2 ez) (Zpos m * p2 e)); try reflexivity. lia.
Qed.

Lemma Math_floor_le (x : float) : is_nan x = false -> (Math_floor x <=? x)%float = true.
Proof.
  intros Hn. rewrite leb_spec, Math_floor_spec.
  apply SFfloor_le; [apply Prim2SF_valid | apply is_nan_inv, Hn].
Qed.

(** X1. When the product [a * f] and the quotient [a / f] are not NaN,
    [floorMul a f] and [floorDiv a f] do not exceed them, and they are
    integers (fixed points of [Math.floor]). *)
Theorem floor_helpers_round_down (a f : float) :
  is_nan (a * f) = false -> is_nan (a / f) = false ->
  (floorMul a f <=? a * f)%float = true /\
  (floorDiv a f <=? a / f)%float = true /\
  Math_floor (floorMul a f) = floorMul a f /\
  Math_floor (floorDiv a f) = floorDiv a f.
Proof.
  intros Hm Hd. split; [apply Math_floor_le, Hm |]. split; [apply Math_floor_le, Hd |].
  split; apply Math_floor_idempotent.
Qed.

Lemma floor_helpers_round_down_witness :
  (is_nan (1000 * BATTLE_FACTORS_MEGAMON) = false /\
   is_nan (1000 / BATTLE_FACTORS_MEGAMON) = false) /\
  (floorMul 1000 BATTLE_FACTORS_MEGAMON <=? 1000 * BATTLE_FACTORS_MEGAMON)%float = true /\
  (floorDiv 1000 BATTLE_FACTORS_MEGAMON <=? 1000 / BATTLE_FACTORS_MEGAMON)%float = true /\
  Math_floor (floorMul 1000 BATTLE_FACTORS_MEGAMON) = floorMul 1000 BATTLE_FACTORS_MEGAMON /\
  Math_floor (floorDiv 1000 BATTLE_FACTORS_MEGAMON) = floorDiv 1000 BATTLE_FACTORS_MEGAMON.
Proof.
  split; [split; reflexivity |].
  apply (floor_helpers_round_down 1000 BATTLE_FACTORS_MEGAMON); reflexivity.
Defined.

(** ** Any anchor position

    [calculateBaseSpeeds] does not check [position].  Its array [s] takes
    an assignment at any integer key, so the two loops run as written for a
    position beyond the party or below 1; only the keys 1..4 are
    returned. *)

Lemma get_insert (s : jsarray) (k : Z) (x : float) : get (<[k := x]> s) k = x.
Proof. unfold get, jsarray. rewrite lookup_insert_eq. reflexivity. Qed.

Lemma get_insert_ne (s : jsarray) (k k' : Z) (x : float) :
  k <> k' -> get (<[k := x]> s) k' = get s k'.
Proof. intros H. unfold get, jsarray. rewrite lookup_insert_ne by exact H. reflexivity. Qed.

(** The upward loop started at [i] leaves the keys above [i] alone and
    fills every key from [i] down to 1 from the key above it. *)
Lemma upward_spec (n : nat) : forall (i : Z) (f : float) (s : jsarray),
  (Z.to_nat i <= n)%nat ->
  (forall k, i < k -> get (upward n i f s) k = get s k) /\
  (forall k, 1 <= k <= i ->
     get (upward n i f s) k = (floorMul (get (upward n i f s) (k + 1)) f + 1)%float).
Proof.
  induction n as [|n IH]; intros i f s Hn.
  - split; [reflexivity | intros k Hk; lia].
  - cbn [upward]. destruct (Z.leb_spec 1 i) as [Hi | Hi]; [| split; [reflexivity | intros k Hk; lia]].
    destruct (IH (i - 1) f (<[i := (floorMul (get s (i + 1)) f + 1)%float]> s) ltac:(lia))
      as [Hkeep Hrel].
    split.
    + intros k Hk. rewrite Hkeep by lia. apply get_insert_ne. lia.
    + intros k Hk. destruct (Z.eq_dec k i) as [-> | Hne].
      * rewrite !Hkeep by lia. rewrite get_insert, get_insert_ne by lia. reflexivity.
      * apply Hrel. lia.
Qed.

Lemma downward_spec (n : nat) : forall (j : Z) (f : float) (s : jsarray),
  (Z.to_nat (PARTY_SIZE + 1 - j) <= n)%nat ->
  (forall k, k < j -> get (downward n j f s) k = get s k) /\
  (forall k, j <= k <= PARTY_SIZE ->
     get (downward n j f s) k = (floorDiv (get (downward n j f s) (k - 1)) f - 1)%float).
Proof.
  induction n as [|n IH]; intros j f s Hn.
  - split; [reflexivity | intros k Hk; lia].
  - cbn [downward]. destruct (Z.leb_spec j PARTY_SIZE) as [Hj | Hj];
      [| split; [reflexivity | intros k Hk; lia]].
    destruct (IH (j + 1) f (<[j := (floorDiv (get s (j - 1)) f - 1)%float]> s) ltac:(lia))
      as [Hkeep Hrel].
    split.
    + intros k Hk. rewrite Hkeep by lia. apply get_insert_ne. lia.
    + intros k Hk. destruct (Z.eq_dec k j) as [-> | Hne].
      * rewrite !Hkeep by lia. rewrite get_insert, get_insert_ne by lia. reflexivity.
      * apply Hrel. lia.
Qed.

Lemma slot_slice (s : jsarray) (i : Z) :
  1 <= i <= 4 -> slot (slice s 1 (PARTY_SIZE + 1)) i = get s i.
Proof.
  intros Hi. assert (E : i = 1 \/ i = 2 \/ i = 3 \/ i = 4) by lia.
  destruct E as [-> | [-> | [-> | ->]]]; reflexivity.
Qed.

(** The returned array has four entries, whatever the position. *)
Lemma calculateBaseSpeeds_length (position : Z) (v f : float) :
  length (calculateBaseSpeeds position v f) = 4%nat.
Proof. reflexivity. Qed.

(** The map [calculateBaseSpeeds] builds, before it is sliced. *)
Lemma calculateBaseSpeeds_keys (position : Z) (v f : float) :
  exists s : jsarray,
    calculateBaseSpeeds position v f = slice s 1 (PARTY_SIZE + 1) /\
    get s position = v /\
    (forall k, 1 <= k < position -> get s k = (floorMul (get s (k + 1)) f + 1)%float) /\
    (forall k, position < k <= PARTY_SIZE -> get s k = (floorDiv (get s (k - 1)) f - 1)%float).
Proof.
  unfold calculateBaseSpeeds.
  set (s0 := <[position := v]> (Array_fill (PARTY_SIZE + 1) 0%float)).
  destruct (upward_spec (Z.to_nat position) (position - 1) f s0 ltac:(lia)) as [U1 U2].
  set (s2 := upward (Z.to_nat position) (position - 1) f s0) in *.
  set (s3 := if position + 1 <=? PARTY_SIZE
             then <[position + 1 := (floorDiv (get s2 position) f - 1)%float]> s2 else s2).
  destruct (downward_spec (Z.to_nat (PARTY_SIZE - position)) (position + 2) f s3
              ltac:(unfold PARTY_SIZE; lia)) as [D1 D2].
  set (s4 := downward (Z.to_nat (PARTY_SIZE - position)) (position + 2) f s3) in *.
  assert (H32 : forall k, k <> position + 1 -> get s3 k = get s2 k).
  { intros k Hk. unfold s3. destruct (position + 1 <=? PARTY_SIZE); [| reflexivity].
    apply get_insert_ne. lia. }
  assert (H2p : get s2 position = v).
  { rewrite U1 by lia. apply get_insert. }
  exists s4. split; [reflexivity |]. split; [| split].
  - rewrite D1, H32 by lia. exact H2p.
  - intros k Hk. rewrite !D1, !H32 by lia. apply U2. lia.
  - intros k Hk. destruct (Z.eq_dec k (position + 1)) as [-> | Hne].
    + rewrite !D1 by lia. replace (position + 1 - 1) with position by lia.
      rewrite (H32 position) by lia. unfold s3.
      destruct (Z.leb_spec (position + 1) PARTY_SIZE) as [H | H]; [| lia].
      apply get_insert.
    + apply D2. lia.
Qed.

(** X4. Whatever the position, the anchor value and the factor, every
    returned slot other than the anchor's holds an integer (a fixed point
    of [Math.floor]: an integer, an infinity or NaN). *)
Theorem non_anchor_slots_integral (position i : Z) (v f : float) :
  1 <= i <= 4 -> i <> position ->
  Math_floor (slot (calculateBaseSpeeds position v f) i) =
  slot (calculateBaseSpeeds position v f) i.
Proof.
  intros Hi Hne.
  destruct (calculateBaseSpeeds_keys position v f) as (s & -> & _ & Hup & Hdown).
  rewrite !slot_slice by lia.
  destruct (Z_lt_ge_dec i position) as [Hlt | Hge].
  - rewrite Hup by lia. apply Math_floor_floorMul_succ.
  - rewrite Hdown by (unfold PARTY_SIZE; lia). apply Math_floor_floorDiv_pred.
Qed.

Lemma non_anchor_slots_integral_witness :
  (1 <= 4 <= 4 /\ 4 <> 9) /\
  Math_floor (slot (calculateBaseSpeeds 9 0.5 BATTLE_FACTORS_NORMAL) 4) =
  slot (calculateBaseSpeeds 9 0.5 BATTLE_FACTORS_NORMAL) 4.
Proof.
  split; [lia |].
  apply (non_anchor_slots_integral 9 4 0.5 BATTLE_FACTORS_NORMAL); lia.
Defined.

(** ** NaN

    Nothing rejects a NaN: it goes through every multiplication, division,
    [Math.floor], addition and subtraction. *)

Lemma Prim2SF_nan : Prim2SF nan = S754_nan.
Proof. reflexivity. Qed.

Lemma Prim2SF_nan_inv (x : float) : Prim2SF x = S754_nan -> x = nan.
Proof. intros H. apply Prim2SF_inj. rewrite H. reflexivity. Qed.

Lemma mul_nan_l (y : float) : (nan * y)%float = nan.
Proof. apply Prim2SF_nan_inv. rewrite mul_spec, Prim2SF_nan. reflexivity. Qed.

Lemma mul_nan_r (x : float) : (x * nan)%float = nan.
Proof.
  apply Prim2SF_nan_inv. rewrite mul_spec, Prim2SF_nan.
  destruct (Prim2SF x); reflexivity.
Qed.

Lemma div_nan_l (y : float) : (nan / y)%float = nan.
Proof. apply Prim2SF_nan_inv. rewrite div_spec, Prim2SF_nan. reflexivity. Qed.

Lemma div_nan_r (x : float) : (x / nan)%float = nan.
Proof.
  apply Prim2SF_nan_inv. rewrite div_spec, Prim2SF_nan.
  destruct (Prim2SF x); reflexivity.
Qed.

Lemma add_nan_l (y : float) : (nan + y)%float = nan.
Proof. apply Prim2SF_nan_inv. rewrite add_spec, Prim2SF_nan. reflexivity. Qed.

Lemma sub_nan_l (y : float) : (nan - y)%float = nan.
Proof. apply Prim2SF_nan_inv. rewrite sub_spec, Prim2SF_nan. reflexivity. Qed.

Lemma Math_floor_nan : Math_floor nan = nan.
Proof. reflexivity. Qed.

Lemma floorMul_nan_l (f : float) : (floorMul nan f + 1)%float = nan.
Proof. unfold floorMul. rewrite mul_nan_l, Math_floor_nan. apply add_nan_l. Qed.

Lemma floorMul_nan_r (x : float) : (floorMul x nan + 1)%float = nan.
Proof. unfold floorMul. rewrite mul_nan_r, Math_floor_nan. apply add_nan_l. Qed.

Lemma floorDiv_nan_l (f : float) : (floorDiv nan f - 1)%float = nan.
Proof. unfold floorDiv. rewrite div_nan_l, Math_floor_nan. apply sub_nan_l. Qed.

Lemma floorDiv_nan_r (x : float) : (floorDiv x nan - 1)%float = nan.
Proof. unfold floorDiv. rewrite div_nan_r, Math_floor_nan. apply sub_nan_l. Qed.

(** With a NaN anchor value every key the loops fill is NaN. *)
Lemma calculateBaseSpeeds_nan_any_position (position i : Z) (f : float) :
  1 <= i <= 4 -> slot (calculateBaseSpeeds position nan f) i = nan.
Proof.
  intros Hi.
  destruct (calculateBaseSpeeds_keys position nan f) as (s & -> & Hanchor & Hup & Hdown).
  rewrite slot_slice by lia.
  assert (Hbelow : forall n : nat, forall k, k = position - Z.of_nat n -> 1 <= k -> get s k = nan).
  { induction n as [|n IH]; intros k Hk Hk1.
    - replace k with position by lia. exact Hanchor.
    - rewrite Hup by lia. rewrite (IH (k + 1)) by lia. apply floorMul_nan_l. }
  assert (Habove : forall n : nat, forall k,
            k = position + Z.of_nat n -> k <= PARTY_SIZE -> get s k = nan).
  { induction n as [|n IH]; intros k Hk Hk4.
    - replace k with position by lia. exact Hanchor.
    - rewrite Hdown by lia. rewrite (IH (k - 1)) by lia. apply floorDiv_nan_l. }
  destruct (Z_le_gt_dec i position) as [Hle | Hgt].
  - apply (Hbelow (Z.to_nat (position - i))); lia.
  - apply (Habove (Z.to_nat (i - position))); unfold PARTY_SIZE; lia.
Qed.

(** X5. With a NaN anchor value the returned array is four NaNs, for
    every integer position below 2^53 in magnitude and every factor. *)
Theorem nan_anchor_value_propagates (position : Z) (f : float) :
  - 2 ^ 53 < position < 2 ^ 53 ->
  calculateBaseSpeeds position nan f = [nan; nan; nan; nan].
Proof.
  intros _.
  pose proof (calculateBaseSpeeds_nan_any_position position 1 f ltac:(lia)) as H1.
  pose proof (calculateBaseSpeeds_nan_any_position position 2 f ltac:(lia)) as H2.
  pose proof (calculateBaseSpeeds_nan_any_position position 3 f ltac:(lia)) as H3.
  pose proof (calculateBaseSpeeds_nan_any_position position 4 f ltac:(lia)) as H4.
  destruct (calculateBaseSpeeds_keys position nan f) as (s & E & _).
  rewrite E in *. rewrite slot_slice in H1, H2, H3, H4 by lia.
  change (slice s 1 (PARTY_SIZE + 1)) with [get s 1; get s 2; get s 3; get s 4].
  rewrite H1, H2, H3, H4. reflexivity.
Qed.

Lemma nan_anchor_value_propagates_witness :
  - 2 ^ 53 < 6 < 2 ^ 53 /\
  calculateBaseSpeeds 6 nan BATTLE_FACTORS_MEGAMON = [nan; nan; nan; nan].
Proof. split; [lia | apply (nan_anchor_value_propagates 6 BATTLE_FACTORS_MEGAMON); lia]. Defined.

(** X6. With a NaN factor the returned array has four entries and every
    one other than the anchor's is NaN, for every integer position below
    2^53 in magnitude and every anchor value. *)
Theorem nan_factor_propagates (position i : Z) (v : float) :
  - 2 ^ 53 < position < 2 ^ 53 -> 1 <= i <= 4 -> i <> position ->
  length (calculateBaseSpeeds position v nan) = 4%nat /\
  slot (calculateBaseSpeeds position v nan) i = nan.
Proof.
  intros _ Hi Hne. split; [apply calculateBaseSpeeds_length |].
  destruct (calculateBaseSpeeds_keys position v nan) as (s & -> & _ & Hup & Hdown).
  rewrite !slot_slice by lia.
  destruct (Z_lt_ge_dec i position) as [Hlt | Hge].
  - rewrite Hup by lia. apply floorMul_nan_r.
  - rewrite Hdown by (unfold PARTY_SIZE; lia). apply floorDiv_nan_r.
Qed.

Lemma nan_factor_propagates_witness :
  (- 2 ^ 53 < 3 < 2 ^ 53 /\ 1 <= 1 <= 4 /\ 1 <> 3) /\
  length (calculateBaseSpeeds 3 1000 nan) = 4%nat /\
  slot (calculateBaseSpeeds 3 1000 nan) 1 = nan.
Proof. split; [lia | apply (nan_factor_propagates 3 1 1000); lia]. Defined.

(** ** Bounds on a rounded quotient *)

Lemma SFdiv_core_binary_pos (mx my : positive) (ex ey q e' sh r : Z) :
  bounded prec emax mx ex = true -> bounded prec emax my ey = true -> -52 <= ex ->
  0 <= sh -> e' = ex - ey - sh ->
  Zpos mx * 2 ^ sh = q * Zpos my + r -> 0 <= r < Zpos my -> 0 <= q ->
  (-1074 < e' -> 2 ^ 52 <= q) ->
  0 < q.
Proof.
  intros Hbx Hby Hex Hsh He' Hdiv Hr Hq0 Hnormal.
  destruct (bounded_inv my ey Hby) as [Hcy Heyhi].
  pose proof (bounded_digits my ey Hby) as Hmy.
  pose proof (bounded_normal_digits mx ex Hbx ltac:(lia)) as Hdx.
  pose proof (digits2_pos_bounds mx) as [Hlx _]. rewrite Hdx in Hlx.
  change (2 ^ (53 - 1)) with 4503599627370496 in Hlx.
  change (2 ^ 53) with 9007199254740992 in *.
  destruct (Z_le_gt_dec e' (-1074)) as [Hlow | Hhigh].
  - assert (Hsh51 : 51 <= sh) by lia.
    assert (2 ^ 51 <= 2 ^ sh) by (apply Z.pow_le_mono_r; lia).
    change (2 ^ 51) with 2251799813685248 in *.
    destruct (Z.eq_dec q 0) as [Hz | Hz]; [| lia]. rewrite Hz in Hdiv. nia.
  - specialize (Hnormal ltac:(lia)). change (2 ^ 52) with 4503599627370496 in Hnormal. lia.
Qed.

(** The quotient of a number of magnitude at least one by a finite number
    rounds to zero or to at most every number of the format that the exact
    quotient does not exceed. *)
Lemma SF64div_upper (sx sy : bool) (mx my ma : positive) (ex ey ea : Z) :
  bounded prec emax mx ex = true -> bounded prec emax my ey = true -> -52 <= ex ->
  Zpos ma < 2 ^ 53 -> -1074 <= ea <= 971 ->
  (Zpos mx * p2 ex) * p2 0 <= (Zpos ma * p2 ea) * (Zpos my * p2 ey) ->
  SF64div (S754_finite sx mx ex) (S754_finite sy my ey) = S754_zero (xorb sx sy) \/
  exists (mt : positive) (et : Z),
    SF64div (S754_finite sx mx ex) (S754_finite sy my ey) = S754_finite (xorb sx sy) mt et /\
    Zpos mt * p2 et <= Zpos ma * p2 ea.
Proof.
  intros Hbx Hby Hex Hma Hea Hle.
  destruct (bounded_inv mx ex Hbx) as [_ Hexhi]. destruct (bounded_inv my ey Hby) as [Hcy Heyhi].
  destruct (SFdiv_core_binary_spec mx my ex ey)
    as (q & e' & sh & r & l & Ecore & Hsh & He' & Hdiv & Hr & Hq0 & Hl & He'lo & Hfexp & Hnormal & _).
  pose proof (SFdiv_core_binary_pos mx my ex ey q e' sh r Hbx Hby Hex Hsh He' Hdiv Hr Hq0 Hnormal)
    as Hqpos.
  unfold SF64div. cbn [SFdiv]. rewrite Ecore.
  destruct (SFdiv_core_binary_upper mx my ma ex ey ea q e' sh r
              ltac:(lia) ltac:(lia) ltac:(lia) Hsh He' ltac:(lia) ltac:(lia) Hdiv Hr Hle)
    as [U1 U2].
  apply (binary_round_aux_upper _ q e' l ma ea Hqpos ltac:(lia) (Hfexp Hqpos) Hma Hea U1).
  intros Hne. apply U2. intros Hr0. apply Hne, Hl, Hr0.
Qed.

(** ... and to infinity or to at least every number of the format that the
    exact quotient reaches. *)
Lemma SF64div_lower (sx sy : bool) (mx my ma : positive) (ex ey ea : Z) :
  bounded prec emax mx ex = true -> bounded prec emax my ey = true -> -52 <= ex ->
  Zpos ma < 2 ^ 53 -> -1074 <= ea ->
  (Zpos ma * p2 ea) * (Zpos my * p2 ey) <= (Zpos mx * p2 ex) * p2 0 ->
  SF64div (S754_finite sx mx ex) (S754_finite sy my ey) = S754_infinity (xorb sx sy) \/
  exists (mt : positive) (et : Z),
    SF64div (S754_finite sx mx ex) (S754_finite sy my ey) = S754_finite (xorb sx sy) mt et /\
    Zpos ma * p2 ea <= Zpos mt * p2 et.
Proof.
  intros Hbx Hby Hex Hma Hea Hle.
  destruct (bounded_inv mx ex Hbx) as [_ Hexhi]. destruct (bounded_inv my ey Hby) as [Hcy Heyhi].
  destruct (SFdiv_core_binary_spec mx my ex ey)
    as (q & e' & sh & r & l & Ecore & Hsh & He' & Hdiv & Hr & Hq0 & Hl & He'lo & Hfexp & Hnormal & _).
  pose proof (SFdiv_core_binary_pos mx my ex ey q e' sh r Hbx Hby Hex Hsh He' Hdiv Hr Hq0 Hnormal)
    as Hqpos.
  unfold SF64div. cbn [SFdiv]. rewrite Ecore.
  pose proof (SFdiv_core_binary_lower mx my ma ex ey ea q e' sh r
                ltac:(lia) ltac:(lia) Hea Hma Hsh He' ltac:(lia) ltac:(lia) Hdiv Hr Hq0 Hnormal Hle)
    as L1.
  apply binary_round_aux_lower; (lia || assumption).
Qed.

(** Just below a number of magnitude at least one there is a number of the
    format that is still at least the number divided by [1 + 2^-52]. *)
Lemma predecessor_value (m : positive) (e : Z) :
  bounded prec emax m e = true -> -52 <= e ->
  exists (ma : positive) (ea : Z),
    Zpos ma < 2 ^ 53 /\ -1074 <= ea <= 971 /\
    Zpos ma * p2 ea < Zpos m * p2 e /\
    (Zpos m * p2 e) * 2 ^ 52 <= (Zpos ma * p2 ea) * (2 ^ 52 + 1).
Proof.
  intros Hb He. destruct (bounded_inv m e Hb) as [_ Hhi].
  pose proof (bounded_digits m e Hb) as Hm.
  pose proof (bounded_normal_digits m e Hb ltac:(lia)) as Hd.
  pose proof (digits2_pos_bounds m) as [Hl _]. rewrite Hd in Hl.
  change (2 ^ (53 - 1)) with 4503599627370496 in Hl.
  change (2 ^ 53) with 9007199254740992 in *. change (2 ^ 52) with 4503599627370496.
  pose proof (p2_pos e ltac:(lia)) as Hp.
  destruct (Z.eq_dec (Zpos m) 4503599627370496) as [Heq | Hne].
  - exists 9007199254740991%positive, (e - 1).
    pose proof (p2_succ (e - 1) ltac:(lia)) as Hs. replace (e - 1 + 1) with e in Hs by lia.
    pose proof (p2_pos (e - 1) ltac:(lia)).
    rewrite Heq, Hs. repeat split; lia.
  - exists (Pos.pred m), e.
    assert (Hpred : Zpos (Pos.pred m) = Zpos m - 1) by lia.
    rewrite Hpred. repeat split; try lia. nia.
Qed.

(** Dividing a number of magnitude at least one by a factor above one
    yields a number of strictly smaller magnitude. *)
Lemma div_gt_one_upper (sx : bool) (m mf : positive) (e ef : Z) :
  bounded prec emax m e = true -> bounded prec emax mf ef = true -> -52 <= e ->
  -52 <= ef -> 2 ^ 52 + 1 <= Zpos mf * 2 ^ (ef + 52) ->
  SF64div (S754_finite sx m e) (S754_finite false mf ef) = S754_zero sx \/
  exists (mt : positive) (et : Z),
    SF64div (S754_finite sx m e) (S754_finite false mf ef) = S754_finite sx mt et /\
    Zpos mt * p2 et < Zpos m * p2 e.
Proof.
  intros Hb Hbf He Hef Hf.
  destruct (predecessor_value m e Hb He) as (ma & ea & Hma & Hea & Hlt & Hnear).
  assert (Hpf : p2 ef = p2 (-52) * 2 ^ (ef + 52)).
  { rewrite <- p2_add by lia. f_equal. lia. }
  assert (Hp0 : p2 0 = p2 (-52) * 2 ^ 52).
  { rewrite <- p2_add by lia. f_equal. }
  pose proof (p2_pos (-52) ltac:(lia)) as Hpp.
  pose proof (p2_pos ea ltac:(lia)) as Hpa.
  assert (Hle : (Zpos m * p2 e) * p2 0 <= (Zpos ma * p2 ea) * (Zpos mf * p2 ef)).
  { rewrite Hpf, Hp0.
    set (X := Zpos m * p2 e) in *. set (A := Zpos ma * p2 ea) in *.
    set (F := Zpos mf * 2 ^ (ef + 52)) in *.
    replace (X * (p2 (-52) * 2 ^ 52)) with ((X * 2 ^ 52) * p2 (-52)) by ring.
    replace (A * (Zpos mf * (p2 (-52) * 2 ^ (ef + 52)))) with ((A * F) * p2 (-52)) by (unfold F; ring).
    apply Z.mul_le_mono_nonneg_r; [lia |].
    assert (0 < A) by (unfold A; nia).
    assert (A * (2 ^ 52 + 1) <= A * F) by (apply Z.mul_le_mono_nonneg_l; lia).
    lia. }
  destruct (SF64div_upper sx false m mf ma e ef ea Hb Hbf He Hma Hea Hle)
    as [EZ | (mt & et & ET & Hbound)];
    rewrite xorb_false_r in *.
  - left. exact EZ.
  - right. exists mt, et. split; [exact ET | lia].
Qed.

(** ** Subtracting one from a positive integer *)

(** Subtracting one from a positive integer [Zv]: the difference rounds to
    zero or to at most every number of the format that is at least
    [Zv - 1]. *)
Lemma sub_one_upper (mz : positive) (ez Zv : Z) (ma : positive) (ea : Z) :
  -52 <= ez -> 1 <= Zv ->
  Zpos mz * 2 ^ (ez + 52) = Zv * 2 ^ 52 ->
  Zpos ma < 2 ^ 53 -> -1074 <= ea <= 971 ->
  (Zv - 1) * p2 0 <= Zpos ma * p2 ea ->
  SF64sub (S754_finite false mz ez) SFone = S754_zero false \/
  exists (mw : positive) (ew : Z),
    SF64sub (S754_finite false mz ez) SFone = S754_finite false mw ew /\
    Zpos mw * p2 ew <= Zpos ma * p2 ea.
Proof.
  intros Hez HZ Hal Hma Hea Hle.
  unfold SF64sub, SFone. cbn [SFsub].
  replace (Z.min ez (-52)) with (-52) by lia.
  pose proof (shl_align_spec mz ez (-52)) as [_ Hm].
  replace (ez - Z.min ez (-52)) with (ez + 52) in Hm by lia.
  rewrite Hm, Hal.
  change (fst (shl_align 4503599627370496 (-52) (-52))) with 4503599627370496%positive.
  cbn [cond_Zopp]. change (2 ^ 52) with 4503599627370496.
  destruct (Zv * 4503599627370496 - 4503599627370496) as [|P|P] eqn:EP; try lia.
  { left. reflexivity. }
  cbn [binary_normalize]. unfold binary_round.
  pose proof (shl_align_spec P (-52) (fexp prec emax (Zpos (digits2_pos P) + -52))) as [Hs1 Hs2].
  destruct (shl_align P (-52) (fexp prec emax (Zpos (digits2_pos P) + -52))) as [mz' ez'].
  cbn [fst snd] in Hs1, Hs2. rewrite fexp_eq in Hs1, Hs2.
  assert (HdP : 53 <= Zpos (digits2_pos P)).
  { apply (digits2_pos_ge P 52). change (2 ^ 52) with 4503599627370496. lia. }
  assert (ez' = -52) as -> by lia.
  replace (-52 - Z.min (-52) (Z.max (Zpos (digits2_pos P) + -52 - 53) (-1074))) with 0 in Hs2 by lia.
  assert (mz' = P) as -> by (rewrite Z.pow_0_r in Hs2; lia).
  assert (Hp : p2 0 = p2 (-52) * 4503599627370496).
  { change 4503599627370496 with (2 ^ 52). rewrite <- p2_add by lia. f_equal. }
  pose proof (p2_pos (-52) ltac:(lia)) as Hpp.
  assert (H3 : -52 <= fexp prec emax (Zdigits2 (Zpos P) + -52)).
  { cbn [Zdigits2]. rewrite fexp_eq. lia. }
  assert (H6 : Zpos P * p2 (-52) <= Zpos ma * p2 ea).
  { rewrite Hp in Hle. rewrite <- EP. lia. }
  destruct (binary_round_aux_upper false (Zpos P) (-52) loc_Exact ma ea
              ltac:(lia) ltac:(lia) H3 Hma Hea H6 ltac:(intros Hne; contradiction))
    as [EZ | (mw & ew & EW & Hw)].
  - left. exact EZ.
  - right. exists mw, ew. split; assumption.
Qed.

(** ** The downward region is decreasing *)

Lemma is_finite_zero (x : float) (s : bool) : Prim2SF x = S754_zero s -> is_finite x = true.
Proof.
  intros E. unfold is_finite, is_nan, is_infinity.
  rewrite !FloatAxioms.eqb_spec, abs_spec, Prim2SF_infinity, E. destruct s; reflexivity.
Qed.

Lemma is_finite_finite (x : float) (s : bool) (m : positive) (e : Z) :
  Prim2SF x = S754_finite s m e -> is_finite x = true.
Proof.
  intros E. unfold is_finite, is_nan, is_infinity.
  rewrite !FloatAxioms.eqb_spec, abs_spec, Prim2SF_infinity, E.
  unfold SFeqb. rewrite SFcompare_refl_finite. destruct s; reflexivity.
Qed.

Lemma Prim2SF_minus_one : Prim2SF (-1)%float = S754_finite true 4503599627370496 (-52).
Proof. reflexivity. Qed.

(** For a finite non-negative integer [x] and a finite factor above one,
    [Math.floor (x / f) - 1] is less than [x]; it is [-1] or a finite
    non-negative number. *)
Lemma downward_step_nonneg (x f : float) :
  is_finite x = true -> Math_floor x = x -> (0 <=? x)%float = true ->
  is_finite f = true -> (1 <? f)%float = true ->
  (floorDiv x f - 1 <? x)%float = true /\
  ((floorDiv x f - 1)%float = (-1)%float \/
   (is_finite (floorDiv x f - 1) = true /\ (0 <=? floorDiv x f - 1)%float = true)).
Proof.
  intros Hfin Hint Hnn Hffin Hfgt.
  destruct (gt_one_finite_inv f Hffin Hfgt) as (mf & ef & EF & Hef & Hf).
  pose proof (is_finite_inv x Hfin) as C1. pose proof (nonneg_inv x Hnn) as C2.
  apply Math_floor_fixed_iff in Hint.
  pose proof (Prim2SF_valid x) as Hvx. pose proof (Prim2SF_valid f) as Hvf.
  pose proof (Prim2SF_valid (x / f)) as Hvt.
  pose proof (Prim2SF_valid (floorDiv x f - 1)) as Hvw.
  pose proof (is_finite_zero (floorDiv x f - 1)) as Fz.
  pose proof (is_finite_finite (floorDiv x f - 1)) as Ff.
  assert (Hm1 : Prim2SF (floorDiv x f - 1) = S754_finite true 4503599627370496 (-52) ->
                (floorDiv x f - 1)%float = (-1)%float).
  { intros E. apply Prim2SF_inj. rewrite E. reflexivity. }
  rewrite ltb_spec, leb_spec, Prim2SF_of_zero.
  unfold floorDiv in *.
  rewrite sub_spec, Math_floor_spec, Prim2SF_one in *.
  rewrite div_spec, EF in *.
  destruct (Prim2SF x) as [s | s | | s m e]; try contradiction.
  - (* x is a zero *)
    cbn [SF64div SFdiv SFfloor xorb] in *.
    change (SF64sub (S754_zero (xorb s false)) (S754_finite false 4503599627370496 (-52)))
      with (S754_finite true 4503599627370496 (-52)) in *.
    split; [destruct s; reflexivity | left; apply Hm1; reflexivity].
  - destruct s; [contradiction |].
    destruct (SFint_value false m e Hint) as [He [Xv [HXv HX]]].
    destruct (div_gt_one_upper false m mf e ef Hvx Hvf He Hef Hf) as [ET | (mt & et & ET & Ht)];
      rewrite ET in *.
    { cbn [SFfloor] in *.
      change (SF64sub (S754_zero false) (S754_finite false 4503599627370496 (-52)))
        with (S754_finite true 4503599627370496 (-52)) in *.
      split; [reflexivity | left; apply Hm1; reflexivity]. }
    destruct (Z_lt_ge_dec (Zpos mt * p2 et) (p2 0)) as [Hsmall | Hbig].
    { rewrite (floor_small mt et Hvt Hsmall) in *.
      change (SF64sub (S754_zero false) (S754_finite false 4503599627370496 (-52)))
        with (S754_finite true 4503599627370496 (-52)) in *.
      split; [reflexivity | left; apply Hm1; reflexivity]. }
    destruct (floor_lower mt et 1 Hvt ltac:(lia) ltac:(lia))
      as (mz & ez & Zv & EZ & Hbz & Hez & Hal & Hzv & HZ1 & _ & HZle).
    rewrite EZ in *.
    destruct (sub_one_upper mz ez Zv mz ez Hez HZ1 Hal (bounded_digits mz ez Hbz)
                ltac:(destruct (bounded_inv mz ez Hbz); lia)
                ltac:(rewrite Hzv; apply Z.mul_le_mono_nonneg_r;
                      [pose proof (p2_pos 0); lia | lia]))
      as [EW | (mw & ew & EW & Hw)];
      unfold SFone in EW; rewrite EW in *.
    { split; [reflexivity | right; split; [apply (Fz false); reflexivity | reflexivity]]. }
    split; [| right; split; [apply (Ff false mw ew); reflexivity | reflexivity]].
    unfold SFltb. rewrite (SFcompare_pos mw m ew e Hvw Hvx).
    assert (Hlt : Zpos mw * p2 ew < Zpos m * p2 e) by lia.
    apply Z.compare_lt_iff in Hlt. rewrite Hlt. reflexivity.
Qed.

(** X7. For every position, a slot [i] in 2..4 above it holds a value
    strictly less than slot [i - 1] does, provided the factor is finite and
    above one and the value of slot [i - 1] is finite and non-negative (the
    anchor value being integral). *)
Theorem downward_region_decreasing (position i : Z) (v f : float) :
  2 <= i <= 4 -> position < i -> Math_floor v = v ->
  is_finite f = true -> (1 <? f)%float = true ->
  is_finite (slot (calculateBaseSpeeds position v f) (i - 1)) = true ->
  (0 <=? slot (calculateBaseSpeeds position v f) (i - 1))%float = true ->
  (slot (calculateBaseSpeeds position v f) i
   <? slot (calculateBaseSpeeds position v f) (i - 1))%float = true.
Proof.
  intros Hi Hlt Hvint Hffin Hfgt.
  destruct (calculateBaseSpeeds_keys position v f) as (s & -> & Hanchor & Hup & Hdown).
  rewrite !slot_slice by lia. rewrite (Hdown i) by (unfold PARTY_SIZE; lia).
  intros Hfin Hnn.
  apply (downward_step_nonneg (get s (i - 1)) f); try assumption.
  destruct (Z.eq_dec (i - 1) position) as [E | Hne].
  - rewrite E, Hanchor. exact Hvint.
  - rewrite (Hdown (i - 1)) by (unfold PARTY_SIZE; lia). apply Math_floor_floorDiv_pred.
Qed.

Lemma downward_region_decreasing_witness :
  (2 <= 3 <= 4 /\ 1 < 3 /\ Math_floor 1000 = 1000%float /\
   is_finite BATTLE_FACTORS_MEGAMON = true /\ (1 <? BATTLE_FACTORS_MEGAMON)%float = true /\
   is_finite (slot (calculateBaseSpeeds 1 1000 BATTLE_FACTORS_MEGAMON) (3 - 1)) = true /\
   (0 <=? slot (calculateBaseSpeeds 1 1000 BATTLE_FACTORS_MEGAMON) (3 - 1))%float = true) /\
  (slot (calculateBaseSpeeds 1 1000 BATTLE_FACTORS_MEGAMON) 3
   <? slot (calculateBaseSpeeds 1 1000 BATTLE_FACTORS_MEGAMON) (3 - 1))%float = true.
Proof.
  split; [repeat split; (lia || reflexivity) |].
  apply (downward_region_decreasing 1 3 1000 BATTLE_FACTORS_MEGAMON); (lia || reflexivity).
Defined.

(** Below zero the downward pass need not decrease: from the anchor value
    0 with factor 2 the slots are 0, -1, -2 and -2. *)
Example downward_region_not_strict_below_zero :
  calculateBaseSpeeds 1 0 2 = [0; -1; -2; -2]%float.
Proof. vm_compute. reflexivity. Qed.

(** ** The downward step from [-1] and [-2] *)

(** The binary64 representations of the integers one and two. *)
Lemma small_int_repr (mr : positive) (er Rv : Z) :
  bounded prec emax mr er = true -> -52 <= er ->
  Zpos mr * 2 ^ (er + 52) = Rv * 2 ^ 52 -> 1 <= Rv <= 2 ->
  (Rv = 1 /\ mr = 4503599627370496%positive /\ er = -52) \/
  (Rv = 2 /\ mr = 4503599627370496%positive /\ er = -51).
Proof.
  intros Hb Her Hal HRv.
  pose proof (bounded_digits mr er Hb) as Hm.
  pose proof (bounded_normal_digits mr er Hb ltac:(lia)) as Hd.
  pose proof (digits2_pos_bounds mr) as [Hl _]. rewrite Hd in Hl.
  change (2 ^ (53 - 1)) with 4503599627370496 in Hl.
  change (2 ^ 53) with 9007199254740992 in Hm. change (2 ^ 52) with 4503599627370496 in Hal.
  assert (Hk : er + 52 = 0 \/ er + 52 = 1 \/ 2 <= er + 52) by lia.
  destruct Hk as [Hk | [Hk | Hk]].
  - rewrite Hk in Hal. change (2 ^ 0) with 1 in Hal. left. lia.
  - rewrite Hk in Hal. change (2 ^ 1) with 2 in Hal. right. lia.
  - exfalso. assert (2 ^ 2 <= 2 ^ (er + 52)) by (apply Z.pow_le_mono_r; lia).
    change (2 ^ 2) with 4 in *. nia.
Qed.

(** Dividing minus one or minus two by a finite factor above one and
    flooring yields minus one, or possibly minus two from minus two. *)
Lemma floor_div_small_neg (e0 Xv : Z) (mf : positive) (ef : Z) :
  (e0 = -52 /\ Xv = 1) \/ (e0 = -51 /\ Xv = 2) ->
  bounded prec emax mf ef = true ->
  -52 <= ef -> 2 ^ 52 + 1 <= Zpos mf * 2 ^ (ef + 52) ->
  valid_binary (SF64div (S754_finite true 4503599627370496 e0) (S754_finite false mf ef)) = true ->
  SFfloor (SF64div (S754_finite true 4503599627370496 e0) (S754_finite false mf ef)) =
    S754_finite true 4503599627370496 (-52) \/
  (Xv = 2 /\
   SFfloor (SF64div (S754_finite true 4503599627370496 e0) (S754_finite false mf ef)) =
     S754_finite true 4503599627370496 (-51)).
Proof.
  intros He0 Hbf Hef Hf HvT.
  assert (Hbx : bounded prec emax 4503599627370496 e0 = true)
    by (destruct He0 as [[-> _] | [-> _]]; reflexivity).
  assert (HX : 4503599627370496 * p2 e0 = Xv * p2 0).
  { assert (Hp : p2 0 = p2 (-52) * 4503599627370496).
    { change 4503599627370496 with (2 ^ 52). rewrite <- p2_add by lia. f_equal. }
    destruct He0 as [[-> ->] | [-> ->]].
    - rewrite Hp. ring.
    - replace (-51) with (-52 + 1) by lia. rewrite p2_succ, Hp by lia. ring. }
  destruct (bounded_inv mf ef Hbf) as [_ Hefhi].
  pose proof (bounded_digits mf ef Hbf) as Hmf. change (2 ^ 53) with 9007199254740992 in Hmf.
  pose proof (p2_pos 0 ltac:(lia)) as Hp0. pose proof (p2_pos ef ltac:(lia)) as Hpf.
  pose proof (p2_pos e0 ltac:(lia)) as Hpe0.
  assert (Hf1 : p2 0 <= Zpos mf * p2 ef).
  { assert (Hpf' : p2 ef = p2 (-52) * 2 ^ (ef + 52)).
    { rewrite <- p2_add by lia. f_equal. lia. }
    assert (Hp : p2 0 = p2 (-52) * 2 ^ 52).
    { rewrite <- p2_add by lia. f_equal. }
    pose proof (p2_pos (-52) ltac:(lia)).
    rewrite Hpf', Hp. nia. }
  (* the quotient is finite, negative and of magnitude at most that of the dividend *)
  destruct (SF64div_upper true false 4503599627370496 mf 4503599627370496 e0 ef e0
              Hbx Hbf ltac:(lia) ltac:(reflexivity) ltac:(lia))
    as [EZ | (mt & et & ET & Hup)].
  { apply Z.mul_le_mono_nonneg_l; [lia | exact Hf1]. }
  { exfalso.
    destruct (SF64div_lower true false 4503599627370496 mf 1 e0 ef (-1074)
                Hbx Hbf ltac:(lia) ltac:(reflexivity) ltac:(lia))
      as [EI | (mt & et & ET & _)]; try congruence.
    pose proof (p2_mul (-1074) 971 ltac:(lia) ltac:(lia) ltac:(lia)) as Hm.
    change (-1074 + 971) with (-103) in Hm.
    assert (Hs : p2 (-103) * 9007199254740992 <= p2 0).
    { change 9007199254740992 with (2 ^ 53). rewrite <- p2_add by lia. apply p2_le; lia. }
    pose proof (p2_le ef 971 ltac:(lia) ltac:(lia)) as Hb1.
    pose proof (p2_pos (-1074) ltac:(lia)) as Hpm. pose proof (p2_pos (-103) ltac:(lia)).
    assert (Hvb1 : Zpos mf * p2 ef <= 9007199254740992 * p2 971) by nia.
    assert (p2 (-1074) * (Zpos mf * p2 ef) <= p2 (-1074) * (9007199254740992 * p2 971))
      by (apply Z.mul_le_mono_nonneg_l; lia).
    assert (p2 (-1074) * (9007199254740992 * p2 971) = 9007199254740992 * p2 (-103) * p2 0)
      by (transitivity (9007199254740992 * (p2 (-103) * p2 0)); [rewrite <- Hm |]; ring).
    assert (p2 0 * p2 0 <= 4503599627370496 * p2 e0 * p2 0)
      by (rewrite HX; apply Z.mul_le_mono_nonneg_r; nia).
    assert (9007199254740992 * p2 (-103) * p2 0 <= p2 0 * p2 0)
      by (apply Z.mul_le_mono_nonneg_r; lia).
    lia. }
  cbn [xorb] in ET. rewrite ET in *.
  assert (Hvt : bounded prec emax mt et = true) by exact HvT.
  destruct (floor_neg_cases mt et Hvt) as (mr & er & Rv & ER & Hbr & Her & Hal & _ & HRv & HRlo & HRhi).
  rewrite ER.
  assert (HR : Rv <= Xv).
  { destruct (Z_le_gt_dec Rv Xv) as [H | H]; [exact H | exfalso].
    assert ((Xv + 1) * p2 0 <= Rv * p2 0) by (apply Z.mul_le_mono_nonneg_r; lia).
    rewrite HX in Hup. lia. }
  destruct (small_int_repr mr er Rv Hbr Her Hal ltac:(destruct He0 as [[_ ->] | [_ ->]]; lia))
    as [(_ & -> & ->) | (HR2 & -> & ->)].
  - left. reflexivity.
  - right. split; [lia | reflexivity].
Qed.

Lemma Prim2SF_minus_two : Prim2SF (-2)%float = S754_finite true 4503599627370496 (-51).
Proof. reflexivity. Qed.

Lemma downward_step_minus_one (f : float) :
  is_finite f = true -> (1 <? f)%float = true ->
  (floorDiv (-1) f - 1)%float = (-2)%float.
Proof.
  intros Hffin Hfgt.
  destruct (gt_one_finite_inv f Hffin Hfgt) as (mf & ef & EF & Hef & Hf).
  pose proof (Prim2SF_valid f) as Hvf. pose proof (Prim2SF_valid (-1 / f)) as HvT.
  apply Prim2SF_inj. unfold floorDiv.
  rewrite sub_spec, Math_floor_spec, Prim2SF_one.
  rewrite div_spec, Prim2SF_minus_one, EF in *.
  destruct (floor_div_small_neg (-52) 1 mf ef ltac:(lia) Hvf Hef Hf HvT) as [E | [H _]];
    [| lia].
  rewrite E. reflexivity.
Qed.

Lemma downward_step_minus_two (f : float) :
  is_finite f = true -> (1 <? f)%float = true ->
  (floorDiv (-2) f - 1)%float = (-2)%float \/ (floorDiv (-2) f - 1)%float = (-3)%float.
Proof.
  intros Hffin Hfgt.
  destruct (gt_one_finite_inv f Hffin Hfgt) as (mf & ef & EF & Hef & Hf).
  pose proof (Prim2SF_valid f) as Hvf. pose proof (Prim2SF_valid (-2 / f)) as HvT.
  unfold floorDiv. rewrite div_spec, Prim2SF_minus_two, EF in HvT. rewrite EF in Hvf.
  destruct (floor_div_small_neg (-51) 2 mf ef ltac:(lia) Hvf Hef Hf HvT) as [E | [_ E]];
    [left | right]; apply Prim2SF_inj;
    rewrite sub_spec, Math_floor_spec, Prim2SF_one, div_spec, Prim2SF_minus_two, EF, E;
    reflexivity.
Qed.

(** ** The returned array is sorted *)

(** The downward pass from a value that is [-1] or a finite non-negative
    integer. *)
Lemma downward_step_from_anchor (x f : float) :
  is_finite f = true -> (1 <? f)%float = true ->
  (x = (-1)%float \/
   (is_finite x = true /\ Math_floor x = x /\ (0 <=? x)%float = true)) ->
  (floorDiv x f - 1 <=? x)%float = true /\
  ((floorDiv x f - 1)%float = (-2)%float \/ (floorDiv x f - 1)%float = (-1)%float \/
   (is_finite (floorDiv x f - 1) = true /\
    Math_floor (floorDiv x f - 1) = (floorDiv x f - 1)%float /\
    (0 <=? floorDiv x f - 1)%float = true)).
Proof.
  intros Hffin Hfgt [-> | (Hfin & Hint & Hnn)].
  - rewrite downward_step_minus_one by assumption. split; [reflexivity | left; reflexivity].
  - destruct (downward_step_nonneg x f Hfin Hint Hnn Hffin Hfgt) as [Hlt Hcase].
    split; [apply ltb_leb, Hlt |].
    destruct Hcase as [E | [H1 H2]]; [right; left; exact E |].
    right. right. split; [exact H1 |]. split; [apply Math_floor_floorDiv_pred | exact H2].
Qed.

Lemma downward_step_le (x f : float) :
  is_finite f = true -> (1 <? f)%float = true ->
  (x = (-2)%float \/ x = (-1)%float \/
   (is_finite x = true /\ Math_floor x = x /\ (0 <=? x)%float = true)) ->
  (floorDiv x f - 1 <=? x)%float = true.
Proof.
  intros Hffin Hfgt [-> | H].
  - destruct (downward_step_minus_two f Hffin Hfgt) as [-> | ->]; reflexivity.
  - apply (downward_step_from_anchor x f Hffin Hfgt H).
Qed.

(** X8. For an anchor slot in 1..4, a finite non-negative integer anchor
    value and a finite factor above one, the returned array is sorted: no
    slot holds more than the slot before it.  (Neighbours can be equal: at
    [Infinity] after an overflow, and at -2.) *)
Theorem thresholds_sorted (s i : Z) (v f : float) :
  1 <= s <= 4 -> 1 <= i <= 3 ->
  is_finite v = true -> Math_floor v = v -> (0 <=? v)%float = true ->
  is_finite f = true -> (1 <? f)%float = true ->
  (slot (calculateBaseSpeeds s v f) (i + 1) <=? slot (calculateBaseSpeeds s v f) i)%float = true.
Proof.
  intros Hs Hi Hvfin Hvint Hvnn Hffin Hfgt.
  destruct (upward_step_invariant v f Hvint Hvnn Hffin Hfgt) as [I1 N1].
  destruct (upward_step_invariant _ f I1 N1 Hffin Hfgt) as [I2 N2].
  pose proof (upward_step_le v f Hvint Hvnn Hffin Hfgt) as U1.
  pose proof (upward_step_le _ f I1 N1 Hffin Hfgt) as U2.
  pose proof (upward_step_le _ f I2 N2 Hffin Hfgt) as U3.
  destruct (downward_step_nonneg v f Hvfin Hvint Hvnn Hffin Hfgt) as [L1 C1].
  pose proof (ltb_leb _ _ L1) as D1.
  assert (G1 : (floorDiv v f - 1)%float = (-1)%float \/
               (is_finite (floorDiv v f - 1) = true /\
                Math_floor (floorDiv v f - 1) = (floorDiv v f - 1)%float /\
                (0 <=? floorDiv v f - 1)%float = true)).
  { destruct C1 as [E | [H1 H2]]; [left; exact E | right].
    split; [exact H1 |]. split; [apply Math_floor_floorDiv_pred | exact H2]. }
  destruct (downward_step_from_anchor _ f Hffin Hfgt G1) as [D2 G2].
  pose proof (downward_step_le _ f Hffin Hfgt G2) as D3.
  assert (E : i = 1 \/ i = 2 \/ i = 3) by lia.
  slot_cases s Hs; destruct E as [-> | [-> | ->]]; assumption.
Qed.

Lemma thresholds_sorted_witness :
  (1 <= 1 <= 4 /\ 1 <= 3 <= 3 /\
   is_finite 0 = true /\ Math_floor 0 = 0%float /\ (0 <=? 0)%float = true /\
   is_finite 2 = true /\ (1 <? 2)%float = true) /\
  (slot (calculateBaseSpeeds 1 0 2) (3 + 1) <=? slot (calculateBaseSpeeds 1 0 2) 3)%float = true.
Proof.
  split; [repeat split; (lia || reflexivity) |].
  apply (thresholds_sorted 1 3 0 2); (lia || reflexivity).
Defined.

(** ** The margin of one *)

Lemma Prim2SF_two_pow_53 : Prim2SF 0x1p+53%float = S754_finite false 4503599627370496 1.
Proof. reflexivity. Qed.

(** A non-negative number below 2^53, decoded. *)
Lemma below_two_pow_53_inv (y : float) :
  (0 <=? y)%float = true -> (y <? 0x1p+53)%float = true ->
  (exists s, Prim2SF y = S754_zero s) \/
  exists (m : positive) (e : Z),
    Prim2SF y = S754_finite false m e /\ Zpos m * p2 e < 2 ^ 53 * p2 0.
Proof.
  intros Hnn Hlt. pose proof (nonneg_inv y Hnn) as C. pose proof (Prim2SF_valid y) as Hv.
  rewrite ltb_spec, Prim2SF_two_pow_53 in Hlt. unfold SFltb in Hlt.
  destruct (Prim2SF y) as [s | [|] | | [|] m e]; try contradiction; try discriminate.
  - left. eauto.
  - right. exists m, e. split; [reflexivity |].
    rewrite (SFcompare_pos m 4503599627370496 e 1 Hv eq_refl) in Hlt.
    destruct (Z.compare_spec (Zpos m * p2 e) (4503599627370496 * p2 1)) as [H | H | H];
      try discriminate.
    change 1 with (0 + 1) in H. rewrite p2_succ in H by lia.
    change (2 ^ 53) with 9007199254740992. lia.
Qed.

(** [Math.floor y + 1] exceeds [y], and [Math.floor y - 1] is below it, for
    a non-negative [y] below 2^53, where adding and subtracting one are
    exact. *)
Lemma floor_succ_gt (y : float) :
  (0 <=? y)%float = true -> (y <? 0x1p+53)%float = true ->
  (y <? Math_floor y + 1)%float = true.
Proof.
  intros Hnn Hlt.
  pose proof (Prim2SF_valid y) as Hv. pose proof (Prim2SF_valid (Math_floor y + 1)) as Hvw.
  destruct (below_two_pow_53_inv y Hnn Hlt) as [[s E] | (m & e & E & Hb)]; clear Hnn Hlt;
    rewrite ltb_spec, add_spec, Math_floor_spec, Prim2SF_one in *; rewrite E in *.
  - destruct s; reflexivity.
  - pose proof (p2_pos 0 ltac:(lia)) as Hp0.
    destruct (Z_lt_ge_dec (Zpos m * p2 e) (p2 0)) as [Hsmall | Hbig].
    + rewrite (floor_small m e Hv Hsmall). cbn [SF64add SFadd].
      unfold SFltb. rewrite (SFcompare_pos m 4503599627370496 e (-52) Hv eq_refl).
      assert (Hp : p2 0 = 4503599627370496 * p2 (-52)).
      { change 4503599627370496 with (2 ^ 52). rewrite Z.mul_comm, <- p2_add by lia. f_equal. }
      assert (Hc : Zpos m * p2 e < 4503599627370496 * p2 (-52)) by lia.
      apply Z.compare_lt_iff in Hc. rewrite Hc. reflexivity.
    + destruct (floor_lower m e 1 Hv ltac:(lia) ltac:(lia))
        as (mz & ez & Zv & EZ & Hbz & Hez & Hal & Hzv & HZ1 & Hlt' & HZle).
      rewrite EZ in *.
      assert (HZ53 : Zv + 1 <= 2 ^ 53).
      { destruct (Z_le_gt_dec (Zv + 1) (2 ^ 53)) as [H | H]; [exact H | exfalso].
        assert (2 ^ 53 * p2 0 <= Zv * p2 0) by (apply Z.mul_le_mono_nonneg_r; lia). lia. }
      change (2 ^ 53) with 9007199254740992 in *.
      assert (Hrep : exists (ma : positive) (ea : Z),
                Zpos ma < 9007199254740992 /\ -1074 <= ea /\ Zpos ma * p2 ea = (Zv + 1) * p2 0).
      { destruct (Z.eq_dec (Zv + 1) 9007199254740992) as [Heq | Hne].
        - exists 4503599627370496%positive, 1. split; [lia |]. split; [lia |].
          change 1 with (0 + 1) at 1. rewrite p2_succ, Heq by lia. ring.
        - exists (Z.to_pos (Zv + 1)), 0. rewrite Z2Pos.id by lia. repeat split; lia. }
      destruct Hrep as (ma & ea & Hma & Hea & Hva).
      destruct (add_one_lower mz ez Zv ma ea Hez HZ1 Hal Hma Hea ltac:(lia))
        as [Hw | (mw & ew & Hw & Hlow)]; unfold SFone in Hw; rewrite Hw in *.
      { reflexivity. }
      unfold SFltb. rewrite (SFcompare_pos m mw e ew Hv Hvw).
      assert (Hc : Zpos m * p2 e < Zpos mw * p2 ew) by lia.
      apply Z.compare_lt_iff in Hc. rewrite Hc. reflexivity.
Qed.

Lemma floor_pred_lt (y : float) :
  (0 <=? y)%float = true -> (y <? 0x1p+53)%float = true ->
  (Math_floor y - 1 <? y)%float = true.
Proof.
  intros Hnn Hlt.
  pose proof (Prim2SF_valid y) as Hv. pose proof (Prim2SF_valid (Math_floor y - 1)) as Hvw.
  destruct (below_two_pow_53_inv y Hnn Hlt) as [[s E] | (m & e & E & Hb)]; clear Hnn Hlt;
    rewrite ltb_spec, sub_spec, Math_floor_spec, Prim2SF_one in *; rewrite E in *.
  - destruct s; reflexivity.
  - pose proof (p2_pos 0 ltac:(lia)) as Hp0.
    destruct (Z_lt_ge_dec (Zpos m * p2 e) (p2 0)) as [Hsmall | Hbig].
    + rewrite (floor_small m e Hv Hsmall). reflexivity.
    + destruct (floor_lower m e 1 Hv ltac:(lia) ltac:(lia))
        as (mz & ez & Zv & EZ & Hbz & Hez & Hal & Hzv & HZ1 & Hlt' & HZle).
      rewrite EZ in *.
      assert (HZ53 : Zv < 2 ^ 53).
      { destruct (Z_lt_ge_dec Zv (2 ^ 53)) as [H | H]; [exact H | exfalso].
        assert (2 ^ 53 * p2 0 <= Zv * p2 0) by (apply Z.mul_le_mono_nonneg_r; lia). lia. }
      change (2 ^ 53) with 9007199254740992 in *.
      destruct (Z.eq_dec Zv 1) as [H1 | H1].
      * pose proof (p2_pos (-1) ltac:(lia)) as Hpm.
        pose proof (p2_succ (-1) ltac:(lia)) as Hps. change (-1 + 1) with 0 in Hps.
        destruct (sub_one_upper mz ez Zv 1 (-1) Hez HZ1 Hal ltac:(reflexivity) ltac:(lia)
                    ltac:(rewrite H1; lia))
          as [EW | (mw & ew & EW & Hw)]; unfold SFone in EW; rewrite EW in *.
        { reflexivity. }
        unfold SFltb. rewrite (SFcompare_pos mw m ew e Hvw Hv).
        assert (Hc : Zpos mw * p2 ew < Zpos m * p2 e) by lia.
        apply Z.compare_lt_iff in Hc. rewrite Hc. reflexivity.
      * destruct (sub_one_upper mz ez Zv (Z.to_pos (Zv - 1)) 0 Hez HZ1 Hal
                    ltac:(rewrite Z2Pos.id by lia; change (2 ^ 53) with 9007199254740992; lia)
                    ltac:(lia) ltac:(rewrite Z2Pos.id by lia; lia))
          as [EW | (mw & ew & EW & Hw)]; unfold SFone in EW; rewrite EW in *.
        { reflexivity. }
        rewrite Z2Pos.id in Hw by lia.
        unfold SFltb. rewrite (SFcompare_pos mw m ew e Hvw Hv).
        assert (Hc : Zpos mw * p2 ew < Zpos m * p2 e) by nia.
        apply Z.compare_lt_iff in Hc. rewrite Hc. reflexivity.
Qed.

(** X9. The guarantee the thresholds are computed for, upward: for every
    position, a slot [i] in 1..3 below it holds strictly more than the
    value of slot [i + 1] times the factor, provided that product is
    non-negative and below 2^53 (from 2^53 on, adding one is lost to
    rounding). *)
Theorem upward_margin (position i : Z) (v f : float) :
  1 <= i <= 3 -> i < position ->
  (0 <=? slot (calculateBaseSpeeds position v f) (i + 1) * f)%float = true ->
  (slot (calculateBaseSpeeds position v f) (i + 1) * f <? 0x1p+53)%float = true ->
  (slot (calculateBaseSpeeds position v f) (i + 1) * f
   <? slot (calculateBaseSpeeds position v f) i)%float = true.
Proof.
  intros Hi Hlt.
  destruct (calculateBaseSpeeds_keys position v f) as (s & -> & _ & Hup & _).
  rewrite !slot_slice by lia. rewrite (Hup i) by lia.
  intros Hnn Hb. apply floor_succ_gt; assumption.
Qed.

Lemma upward_margin_witness :
  (1 <= 2 <= 3 /\ 2 < 3 /\
   (0 <=? slot (calculateBaseSpeeds 3 1000 BATTLE_FACTORS_MEGAMON) (2 + 1)
          * BATTLE_FACTORS_MEGAMON)%float = true /\
   (slot (calculateBaseSpeeds 3 1000 BATTLE_FACTORS_MEGAMON) (2 + 1) * BATTLE_FACTORS_MEGAMON
    <? 0x1p+53)%float = true) /\
  (slot (calculateBaseSpeeds 3 1000 BATTLE_FACTORS_MEGAMON) (2 + 1) * BATTLE_FACTORS_MEGAMON
   <? slot (calculateBaseSpeeds 3 1000 BATTLE_FACTORS_MEGAMON) 2)%float = true.
Proof.
  split; [repeat split; (lia || reflexivity) |].
  apply (upward_margin 3 2 1000 BATTLE_FACTORS_MEGAMON); (lia || reflexivity).
Defined.

(** X10. The same guarantee downward: for every position, a slot [i] in
    2..4 above it holds strictly less than the value of slot [i - 1]
    divided by the factor, provided that quotient is non-negative and
    below 2^53. *)
Theorem downward_margin (position i : Z) (v f : float) :
  2 <= i <= 4 -> position < i ->
  (0 <=? slot (calculateBaseSpeeds position v f) (i - 1) / f)%float = true ->
  (slot (calculateBaseSpeeds position v f) (i - 1) / f <? 0x1p+53)%float = true ->
  (slot (calculateBaseSpeeds position v f) i
   <? slot (calculateBaseSpeeds position v f) (i - 1) / f)%float = true.
Proof.
  intros Hi Hlt.
  destruct (calculateBaseSpeeds_keys position v f) as (s & -> & _ & _ & Hdown).
  rewrite !slot_slice by lia. rewrite (Hdown i) by (unfold PARTY_SIZE; lia).
  intros Hnn Hb. apply floor_pred_lt; assumption.
Qed.

Lemma downward_margin_witness :
  (2 <= 4 <= 4 /\ 3 < 4 /\
   (0 <=? slot (calculateBaseSpeeds 3 1000 BATTLE_FACTORS_NORMAL) (4 - 1)
          / BATTLE_FACTORS_NORMAL)%float = true /\
   (slot (calculateBaseSpeeds 3 1000 BATTLE_FACTORS_NORMAL) (4 - 1) / BATTLE_FACTORS_NORMAL
    <? 0x1p+53)%float = true) /\
  (slot (calculateBaseSpeeds 3 1000 BATTLE_FACTORS_NORMAL) 4
   <? slot (calculateBaseSpeeds 3 1000 BATTLE_FACTORS_NORMAL) (4 - 1) / BATTLE_FACTORS_NORMAL)%float
  = true.
Proof.
  split; [repeat split; (lia || reflexivity) |].
  apply (downward_margin 3 4 1000 BATTLE_FACTORS_NORMAL); (lia || reflexivity).
Defined.

(** ** [calculateWithBuffs], entry by entry

    For every position, also one outside 1..4 (no slot is then the
    anchor's). *)

Lemma calculateWithBuffs_entries (position i : Z) (r f : float) (b : list float) :
  0 <= i < 4 ->
  index (baseSpeeds (calculateWithBuffs position r f b)) i =
    (if i =? position - 1 then r
     else Math_floor (index (calculateBaseSpeeds position
                               (Math_floor (r * index b (position - 1))) f) i
                      / index b i)) /\
  index (effectiveSpeeds (calculateWithBuffs position r f b)) i =
    Math_floor (index (baseSpeeds (calculateWithBuffs position r f b)) i * index b i).
Proof.
  intros Hi. assert (E : i = 0 \/ i = 1 \/ i = 2 \/ i = 3) by lia.
  destruct E as [-> | [-> | [-> | ->]]]; split; reflexivity.
Qed.

Lemma index_short (b : list float) (i : Z) :
  Z.of_nat (length b) <= i -> index b i = nan.
Proof.
  intros H. unfold index. destruct (Z.ltb_spec i 0) as [Hi | Hi]; [reflexivity |].
  rewrite lookup_ge_None_2 by lia. reflexivity.
Qed.



(** Both returned arrays have four entries, whatever the position and
    the buffs. *)
Lemma calculateWithBuffs_length (position : Z) (r f : float) (b : list float) :
  length (baseSpeeds (calculateWithBuffs position r f b)) = 4%nat /\
  length (effectiveSpeeds (calculateWithBuffs position r f b)) = 4%nat.
Proof. split; reflexivity. Qed.

(** X12. For an integer position below 2^53 in magnitude whose own buff is
    NaN or missing - as it is for every such position outside the buffs
    array, below 1 or beyond its length - both returned arrays have four
    entries, every effective speed is NaN, and so is every raw speed but
    the anchor's. *)
Theorem nan_anchor_buff_blanks_effective_speeds (position i : Z) (r f : float) (b : list float) :
  - 2 ^ 53 < position < 2 ^ 53 -> 0 <= i < 4 ->
  index b (position - 1) = nan \/ position <= 0 \/ Z.of_nat (length b) < position ->
  length (baseSpeeds (calculateWithBuffs position r f b)) = 4%nat /\
  length (effectiveSpeeds (calculateWithBuffs position r f b)) = 4%nat /\
  index (effectiveSpeeds (calculateWithBuffs position r f b)) i = nan /\
  (i <> position - 1 -> index (baseSpeeds (calculateWithBuffs position r f b)) i = nan).
Proof.
  intros _ Hi Hb.
  split; [apply calculateWithBuffs_length |]. split; [apply calculateWithBuffs_length |].
  assert (Hb' : index b (position - 1) = nan).
  { destruct Hb as [H | [H | H]]; [exact H | | apply index_short; lia].
    unfold index. destruct (Z.ltb_spec (position - 1) 0); [reflexivity | lia]. }
  destruct (calculateWithBuffs_entries position i r f b Hi) as [Hbase Heff].
  rewrite Heff, Hbase, Hb', mul_nan_r, Math_floor_nan.
  pose proof (calculateBaseSpeeds_nan_any_position position (i + 1) f ltac:(lia)) as Hn.
  unfold slot in Hn. replace (i + 1 - 1) with i in Hn by lia. rewrite Hn.
  destruct (Z.eqb_spec i (position - 1)) as [-> | Hne].
  - rewrite Hb', mul_nan_r. split; [reflexivity | intros H; contradiction].
  - rewrite div_nan_l, Math_floor_nan, mul_nan_l. split; [reflexivity | intros _; reflexivity].
Qed.

Lemma nan_anchor_buff_blanks_effective_speeds_witness :
  (- 2 ^ 53 < 5 < 2 ^ 53 /\ 0 <= 0 < 4 /\
   (index [1; 1; 1; 1]%float (5 - 1) = nan \/ 5 <= 0 \/
    Z.of_nat (length [1; 1; 1; 1]%float) < 5)) /\
  length (baseSpeeds (calculateWithBuffs 5 1000 BATTLE_FACTORS_NORMAL [1; 1; 1; 1]%float))
    = 4%nat /\
  length (effectiveSpeeds (calculateWithBuffs 5 1000 BATTLE_FACTORS_NORMAL [1; 1; 1; 1]%float))
    = 4%nat /\
  index (effectiveSpeeds (calculateWithBuffs 5 1000 BATTLE_FACTORS_NORMAL [1; 1; 1; 1]%float)) 0
    = nan /\
  (0 <> 5 - 1 ->
   index (baseSpeeds (calculateWithBuffs 5 1000 BATTLE_FACTORS_NORMAL [1; 1; 1; 1]%float)) 0
     = nan).
Proof.
  split; [split; [lia | split; [lia | left; reflexivity]] |].
  apply (nan_anchor_buff_blanks_effective_speeds 5 0 1000 BATTLE_FACTORS_NORMAL
           [1; 1; 1; 1]%float); [lia | lia | left; reflexivity].
Defined.

(** X13. Every effective speed returned is an integer (a fixed point of
    [Math.floor]), and so is every raw speed but the anchor's. *)
Theorem speeds_are_integral (position i : Z) (r f : float) (b : list float) :
  0 <= i < 4 ->
  Math_floor (index (effectiveSpeeds (calculateWithBuffs position r f b)) i) =
    index (effectiveSpeeds (calculateWithBuffs position r f b)) i /\
  (i <> position - 1 ->
   Math_floor (index (baseSpeeds (calculateWithBuffs position r f b)) i) =
     index (baseSpeeds (calculateWithBuffs position r f b)) i).
Proof.
  intros Hi.
  destruct (calculateWithBuffs_entries position i r f b Hi) as [Hbase Heff].
  split.
  - rewrite Heff. apply Math_floor_idempotent.
  - intros Hne. rewrite Hbase.
    destruct (Z.eqb_spec i (position - 1)) as [H | _]; [contradiction |].
    apply Math_floor_idempotent.
Qed.

Lemma speeds_are_integral_witness :
  0 <= 1 < 4 /\
  (Math_floor (index (effectiveSpeeds (calculateWithBuffs 1 1000.5 BATTLE_FACTORS_MEGAMON
                                         [1.25; 1.5; 1; 1]%float)) 1) =
     index (effectiveSpeeds (calculateWithBuffs 1 1000.5 BATTLE_FACTORS_MEGAMON
                               [1.25; 1.5; 1; 1]%float)) 1 /\
   (1 <> 1 - 1 ->
    Math_floor (index (baseSpeeds (calculateWithBuffs 1 1000.5 BATTLE_FACTORS_MEGAMON
                                     [1.25; 1.5; 1; 1]%float)) 1) =
      index (baseSpeeds (calculateWithBuffs 1 1000.5 BATTLE_FACTORS_MEGAMON
                           [1.25; 1.5; 1; 1]%float)) 1)).
Proof.
  split; [lia |].
  apply (speeds_are_integral 1 1 1000.5 BATTLE_FACTORS_MEGAMON [1.25; 1.5; 1; 1]%float); lia.
Defined.

(** With unit buffs and an integral raw speed both returned arrays are the
    propagated thresholds. *)
Lemma unit_buffs_both (s : Z) (r f : float) :
  1 <= s <= 4 -> Math_floor r = r ->
  baseSpeeds (calculateWithBuffs s r f [1; 1; 1; 1]%float) = calculateBaseSpeeds s r f /\
  effectiveSpeeds (calculateWithBuffs s r f [1; 1; 1; 1]%float) = calculateBaseSpeeds s r f.
Proof.
  intros Hs Hr.
  assert (Hbase : baseSpeeds (calculateWithBuffs s r f [1; 1; 1; 1]%float) =
                  calculateBaseSpeeds s r f).
  { rewrite (baseSpeeds_unit_buffs s r f Hs), mul_one, Hr.
    slot_cases s Hs;
      [ rewrite calculateBaseSpeeds_1 | rewrite calculateBaseSpeeds_2
      | rewrite calculateBaseSpeeds_3 | rewrite calculateBaseSpeeds_4 ];
      cbv [imap Z.of_nat Z.eqb Z.sub Z.add Z.opp Z.pos_sub
           Pos.of_succ_nat Pos.succ compose];
      rewrite ?div_one, ?Math_floor_floorMul_succ, ?Math_floor_floorDiv_pred;
      reflexivity. }
  split; [exact Hbase |].
  change (effectiveSpeeds (calculateWithBuffs s r f [1; 1; 1; 1]%float))
    with (imap (fun i speed => Math_floor (speed * index [1; 1; 1; 1]%float (Z.of_nat i)))
               (baseSpeeds (calculateWithBuffs s r f [1; 1; 1; 1]%float))).
  rewrite Hbase.
  slot_cases s Hs;
    [ rewrite calculateBaseSpeeds_1 | rewrite calculateBaseSpeeds_2
    | rewrite calculateBaseSpeeds_3 | rewrite calculateBaseSpeeds_4 ];
    cbv [imap index Z.of_nat Z.ltb Z.compare Z.to_nat Pos.of_succ_nat Pos.succ compose
         Pos.to_nat Pos.iter_op Nat.add];
    cbn [lookup list_lookup default from_option id];
    rewrite ?mul_one, ?Hr, ?Math_floor_floorMul_succ, ?Math_floor_floorDiv_pred;
    reflexivity.
Qed.

(** X14. With an integral anchor raw speed and all four buffs equal to 1,
    the effective speeds returned are, entry for entry, the array
    [calculateBaseSpeeds] returns: step 4 undoes nothing of step 2. *)
Theorem unit_buffs_effective_speeds_are_base_speeds (s : Z) (r f : float) :
  1 <= s <= 4 -> Math_floor r = r ->
  effectiveSpeeds (calculateWithBuffs s r f [1; 1; 1; 1]%float) = calculateBaseSpeeds s r f.
Proof. intros Hs Hr. apply (unit_buffs_both s r f Hs Hr). Qed.

Lemma unit_buffs_effective_speeds_are_base_speeds_witness :
  (1 <= 3 <= 4 /\ Math_floor 1000 = 1000%float) /\
  effectiveSpeeds (calculateWithBuffs 3 1000 BATTLE_FACTORS_NORMAL [1; 1; 1; 1]%float) =
  calculateBaseSpeeds 3 1000 BATTLE_FACTORS_NORMAL.
Proof.
  split; [split; [lia | reflexivity] |].
  apply (unit_buffs_effective_speeds_are_base_speeds 3 1000 BATTLE_FACTORS_NORMAL);
    [lia | reflexivity].
Defined.

(** ** Reading the form: [calculateSpeeds] *)

(** The test [!baseSpeed || baseSpeed <= 0] holds exactly when the speed is
    not greater than zero: for NaN, for a zero and for a negative number. *)
Lemma validation_rejects (x : float) :
  falsy x || (x <=? 0)%float = negb (0 <? x)%float.
Proof.
  unfold falsy, is_nan.
  rewrite !FloatAxioms.eqb_spec, leb_spec, ltb_spec, Prim2SF_of_zero.
  unfold SFeqb, SFleb, SFltb.
  destruct (Prim2SF x) as [s | s | | s m e].
  - reflexivity.
  - destruct s; reflexivity.
  - reflexivity.
  - rewrite SFcompare_refl_finite. destruct s; reflexivity.
Qed.

(** X15. [calculateSpeeds] alerts, computing and displaying nothing, exactly
    when the speed read from the form is not greater than zero: NaN (a
    field that does not parse), zero or negative. *)
Theorem calculateSpeeds_alerts_iff (d : form) :
  calculateSpeeds d = alert <-> (0 <? baseSpeed d)%float = false.
Proof.
  unfold calculateSpeeds. rewrite validation_rejects.
  destruct (0 <? baseSpeed d)%float; cbn [negb]; split; intros H;
    try reflexivity; discriminate.
Qed.

(** X16. With every buff field at 100 (percent), a positive integral speed
    and a position in 1..4, [calculateSpeeds] displays the thresholds of
    [calculateBaseSpeeds] both as raw and as effective speeds, with the
    factor 1.2 for the battle type "megamon" and 1.14 for any other. *)
Theorem calculateSpeeds_all_buffs_100 (d : form) :
  1 <= basePosition d <= 4 ->
  (0 <? baseSpeed d)%float = true -> Math_floor (baseSpeed d) = baseSpeed d ->
  buff1 d = 100%float -> buff2 d = 100%float -> buff3 d = 100%float -> buff4 d = 100%float ->
  calculateSpeeds d =
    let factor := if String.eqb (battleType d) "megamon"
                  then BATTLE_FACTORS_MEGAMON else BATTLE_FACTORS_NORMAL in
    displayResults (calculateBaseSpeeds (basePosition d) (baseSpeed d) factor)
                   (calculateBaseSpeeds (basePosition d) (baseSpeed d) factor)
                   [1; 1; 1; 1]%float.
Proof.
  intros Hp Hpos Hint H1 H2 H3 H4.
  unfold calculateSpeeds. rewrite validation_rejects, Hpos, H1, H2, H3, H4. cbn [negb].
  change (100 / 100)%float with 1%float. cbv zeta.
  destruct (unit_buffs_both (basePosition d) (baseSpeed d)
              (if String.eqb (battleType d) "megamon"
               then BATTLE_FACTORS_MEGAMON else BATTLE_FACTORS_NORMAL) Hp Hint) as [-> ->].
  reflexivity.
Qed.

Lemma calculateSpeeds_all_buffs_100_witness :
  (1 <= 3 <= 4 /\ (0 <? 1000)%float = true /\ Math_floor 1000 = 1000%float) /\
  calculateSpeeds {| battleType := "megamon"; basePosition := 3; baseSpeed := 1000;
                     buff1 := 100; buff2 := 100; buff3 := 100; buff4 := 100 |} =
  displayResults (calculateBaseSpeeds 3 1000 BATTLE_FACTORS_MEGAMON)
                 (calculateBaseSpeeds 3 1000 BATTLE_FACTORS_MEGAMON)
                 [1; 1; 1; 1]%float.
Proof.
  split; [split; [lia | split; reflexivity] |].
  apply (calculateSpeeds_all_buffs_100
           {| battleType := "megamon"; basePosition := 3; baseSpeed := 1000;
              buff1 := 100; buff2 := 100; buff3 := 100; buff4 := 100 |});
    (simpl; lia) || reflexivity.
Defined.









(** * The relations between the returned entries, with [==]

    JavaScript's [==] on numbers is the IEEE comparison [=?]: it holds of
    [+0] and [-0], and it does not hold of NaN and itself.  The relations
    below are stated for the arrays returned, entry by entry: the arrays
    have four entries, the two sides are the same number, and [==] holds of
    them, which needs that no NaN arises. *)

(** ** Operations that do not produce NaN *)

(** [is_nan] on the decoded number. *)
Lemma is_nan_false_iff (x : float) : is_nan x = false <-> Prim2SF x <> S754_nan.
Proof.
  unfold is_nan. rewrite FloatAxioms.eqb_spec. unfold SFeqb.
  destruct (Prim2SF x) as [s | s | | s m e].
  - split; [intros _; discriminate | reflexivity].
  - split; [intros _; discriminate | destruct s; reflexivity].
  - split; [discriminate | intros H; contradiction].
  - rewrite SFcompare_refl_finite. split; [intros _; discriminate | reflexivity].
Qed.

(** A number that is not NaN equals itself. *)
Lemma eqb_refl (x : float) : is_nan x = false -> (x =? x)%float = true.
Proof. unfold is_nan. intros H. apply negb_false_iff in H. exact H. Qed.

Lemma is_finite_not_nan (x : float) : is_finite x = true -> is_nan x = false.
Proof.
  unfold is_finite. intros H. apply negb_true_iff, orb_false_iff in H. apply H.
Qed.

Lemma binary_round_aux_not_nan (s : bool) (M E : Z) (l : location) :
  0 <= M -> binary_round_aux prec emax s M E l <> S754_nan.
Proof.
  intros HM. destruct (binary_round_aux_shape s M E l HM) as [E1 | [E1 | (m & e & E1)]];
    rewrite E1; discriminate.
Qed.

Lemma binary_normalize_not_nan (m e : Z) (szero : bool) :
  binary_normalize prec emax m e szero <> S754_nan.
Proof.
  destruct m as [|p|p]; cbn [binary_normalize]; [discriminate | |];
    unfold binary_round;
    destruct (shl_align p e (fexp prec emax (Zpos (digits2_pos p) + e))) as [mz ez];
    apply binary_round_aux_not_nan; lia.
Qed.

Lemma SFmul_not_nan (x : spec_float) (my : positive) (ey : Z) :
  x <> S754_nan -> SF64mul x (S754_finite false my ey) <> S754_nan.
Proof.
  intros Hx. unfold SF64mul. destruct x as [s | s | | s m e]; cbn [SFmul];
    try discriminate; try contradiction.
  apply binary_round_aux_not_nan. lia.
Qed.

Lemma SFdiv_not_nan (x : spec_float) (my : positive) (ey : Z) :
  x <> S754_nan -> SF64div x (S754_finite false my ey) <> S754_nan.
Proof.
  intros Hx. unfold SF64div. destruct x as [s | s | | s m e]; cbn [SFdiv];
    try discriminate; try contradiction.
  destruct (SFdiv_core_binary_spec m my e ey)
    as (q & e' & sh & r & l & Ecore & _ & _ & _ & _ & Hq0 & _).
  rewrite Ecore. apply binary_round_aux_not_nan. exact Hq0.
Qed.

Lemma SFfloor_not_nan (x : spec_float) : x <> S754_nan -> SFfloor x <> S754_nan.
Proof.
  intros Hx. destruct x as [s | s | | s m e]; cbn [SFfloor]; try exact Hx.
  destruct (0 <=? e); [discriminate | apply binary_normalize_not_nan].
Qed.

Lemma SFadd_one_not_nan (x : spec_float) : x <> S754_nan -> SF64add x SFone <> S754_nan.
Proof.
  intros Hx. unfold SF64add, SFone. destruct x as [s | s | | s m e]; cbn [SFadd];
    try discriminate; try contradiction.
  apply binary_normalize_not_nan.
Qed.

Lemma SFsub_one_not_nan (x : spec_float) : x <> S754_nan -> SF64sub x SFone <> S754_nan.
Proof.
  intros Hx. unfold SF64sub, SFone. destruct x as [s | s | | s m e]; cbn [SFsub];
    try discriminate; try contradiction.
  apply binary_normalize_not_nan.
Qed.

Lemma Math_floor_not_nan (x : float) : is_nan x = false -> is_nan (Math_floor x) = false.
Proof.
  rewrite !is_nan_false_iff, Math_floor_spec. apply SFfloor_not_nan.
Qed.

(** A product or a quotient by a finite number that is not zero is NaN only
    when the other operand is. *)
Lemma mul_not_nan (x y : float) (my : positive) (ey : Z) :
  Prim2SF y = S754_finite false my ey ->
  is_nan x = false -> is_nan (x * y) = false.
Proof.
  intros Ey. rewrite !is_nan_false_iff, mul_spec, Ey. apply SFmul_not_nan.
Qed.

Lemma div_not_nan (x y : float) (my : positive) (ey : Z) :
  Prim2SF y = S754_finite false my ey ->
  is_nan x = false -> is_nan (x / y) = false.
Proof.
  intros Ey. rewrite !is_nan_false_iff, div_spec, Ey. apply SFdiv_not_nan.
Qed.

Lemma add_one_not_nan (x : float) : is_nan x = false -> is_nan (x + 1) = false.
Proof.
  rewrite !is_nan_false_iff, add_spec, Prim2SF_one. apply SFadd_one_not_nan.
Qed.

Lemma sub_one_not_nan (x : float) : is_nan x = false -> is_nan (x - 1) = false.
Proof.
  rewrite !is_nan_false_iff, sub_spec, Prim2SF_one. apply SFsub_one_not_nan.
Qed.

(** The two steps of the propagation, for a finite factor above one. *)
Lemma upward_step_not_nan (x f : float) :
  is_finite f = true -> (1 <? f)%float = true ->
  is_nan x = false -> is_nan (floorMul x f + 1) = false.
Proof.
  intros Hffin Hfgt Hx. destruct (gt_one_finite_inv f Hffin Hfgt) as (mf & ef & EF & _).
  apply add_one_not_nan, Math_floor_not_nan, (mul_not_nan x f mf ef EF Hx).
Qed.

Lemma downward_step_not_nan (x f : float) :
  is_finite f = true -> (1 <? f)%float = true ->
  is_nan x = false -> is_nan (floorDiv x f - 1) = false.
Proof.
  intros Hffin Hfgt Hx. destruct (gt_one_finite_inv f Hffin Hfgt) as (mf & ef & EF & _).
  apply sub_one_not_nan, Math_floor_not_nan, (div_not_nan x f mf ef EF Hx).
Qed.

(** An infinite factor above one is [Infinity]; dividing a finite number by
    it and flooring gives a zero, and the step gives [-1]. *)
Lemma gt_one_not_finite (f : float) :
  (1 <? f)%float = true -> is_finite f = false -> f = infinity.
Proof.
  intros Hgt Hfin. apply Prim2SF_inj. rewrite Prim2SF_infinity.
  rewrite ltb_spec, Prim2SF_one in Hgt. unfold SFltb in Hgt.
  pose proof (is_finite_finite f) as Ff.
  destruct (Prim2SF f) as [s | [|] | | s m e]; try discriminate; try reflexivity.
  rewrite (Ff s m e eq_refl) in Hfin. discriminate.
Qed.

Lemma downward_step_infinity (x : float) :
  is_finite x = true -> (floorDiv x infinity - 1)%float = (-1)%float.
Proof.
  intros Hfin. pose proof (is_finite_inv x Hfin) as C.
  apply Prim2SF_inj. unfold floorDiv.
  rewrite sub_spec, Math_floor_spec, div_spec, Prim2SF_one, Prim2SF_infinity.
  destruct (Prim2SF x) as [s | s | | s m e]; try contradiction; destruct s; reflexivity.
Qed.

(** The downward step keeps a number that is not NaN and, when the factor
    is infinite, finite. *)
Lemma downward_step_defined (x f : float) :
  (1 <? f)%float = true ->
  is_nan x = false /\ (is_finite f = true \/ is_finite x = true) ->
  is_nan (floorDiv x f - 1) = false /\
  (is_finite f = true \/ is_finite (floorDiv x f - 1) = true).
Proof.
  intros Hfgt [Hx Hcase]. destruct (is_finite f) eqn:Hffin.
  - split; [apply downward_step_not_nan; assumption | left; reflexivity].
  - destruct Hcase as [H | Hxfin]; [discriminate |].
    rewrite (gt_one_not_finite f Hfgt Hffin), (downward_step_infinity x Hxfin).
    split; [reflexivity | right; reflexivity].
Qed.

(** With an anchor value that is not NaN and a finite factor above one, no
    returned slot is NaN. *)
Lemma calculateBaseSpeeds_not_nan (position i : Z) (v f : float) :
  1 <= i <= 4 -> is_nan v = false -> is_finite f = true -> (1 <? f)%float = true ->
  is_nan (slot (calculateBaseSpeeds position v f) i) = false.
Proof.
  intros Hi Hv Hffin Hfgt.
  destruct (calculateBaseSpeeds_keys position v f) as (s & -> & Hanchor & Hup & Hdown).
  rewrite slot_slice by lia.
  assert (Hbelow : forall n : nat, forall k,
            k = position - Z.of_nat n -> 1 <= k -> is_nan (get s k) = false).
  { induction n as [|n IH]; intros k Hk Hk1.
    - replace k with position by lia. rewrite Hanchor. exact Hv.
    - rewrite Hup by lia. apply upward_step_not_nan; try assumption. apply IH; lia. }
  assert (Habove : forall n : nat, forall k,
            k = position + Z.of_nat n -> k <= PARTY_SIZE -> is_nan (get s k) = false).
  { induction n as [|n IH]; intros k Hk Hk4.
    - replace k with position by lia. rewrite Hanchor. exact Hv.
    - rewrite Hdown by lia. apply downward_step_not_nan; try assumption. apply IH; lia. }
  destruct (Z_le_gt_dec i position) as [Hle | Hgt].
  - apply (Hbelow (Z.to_nat (position - i))); lia.
  - apply (Habove (Z.to_nat (i - position))); unfold PARTY_SIZE; lia.
Qed.

(** ** Upward: [calculateBaseSpeeds] *)




(** The product is the binary64 product by the binary64 factor: 1500 times
    1.14 is 1709.99..., so slot 1 is 1710, where decimal arithmetic would
    give 1711. *)
Example upward_product_is_binary64 :
  calculateBaseSpeeds 2 1500 BATTLE_FACTORS_NORMAL = [1710; 1500; 1314; 1151]%float /\
  (1500 * 114 / 100 + 1 = 1711)%Z.
Proof. vm_compute. split; reflexivity. Qed.

(** X2. For every integer position below 2^53, also one beyond the party
    size, with an anchor value that is not NaN and a finite factor above
    one: the returned array has four entries, and each slot [i] in 1..3
    below the position holds [Math.floor] of the value of slot [i + 1]
    times the factor, plus one, as a number and under [==]. *)
Theorem upward_relation_any_position (position i : Z) (v f : float) :
  1 <= i <= 3 -> i < position < 2 ^ 53 ->
  is_nan v = false -> is_finite f = true -> (1 <? f)%float = true ->
  length (calculateBaseSpeeds position v f) = 4%nat /\
  slot (calculateBaseSpeeds position v f) i =
    (floorMul (slot (calculateBaseSpeeds position v f) (i + 1)) f + 1)%float /\
  (slot (calculateBaseSpeeds position v f) i =?
     floorMul (slot (calculateBaseSpeeds position v f) (i + 1)) f + 1)%float = true.
Proof.
  intros Hi Hlt Hv Hffin Hfgt.
  pose proof (calculateBaseSpeeds_not_nan position i v f ltac:(lia) Hv Hffin Hfgt) as Hn.
  split; [reflexivity |].
  assert (E : slot (calculateBaseSpeeds position v f) i =
              (floorMul (slot (calculateBaseSpeeds position v f) (i + 1)) f + 1)%float).
  { destruct (calculateBaseSpeeds_keys position v f) as (s & -> & _ & Hup & _).
    rewrite !slot_slice by lia. apply Hup. lia. }
  split; [exact E |]. rewrite <- E. apply eqb_refl, Hn.
Qed.

Lemma upward_relation_any_position_witness :
  (1 <= 3 <= 3 /\ 3 < 7 < 2 ^ 53 /\ is_nan 1000 = false /\
   is_finite BATTLE_FACTORS_MEGAMON = true /\ (1 <? BATTLE_FACTORS_MEGAMON)%float = true) /\
  length (calculateBaseSpeeds 7 1000 BATTLE_FACTORS_MEGAMON) = 4%nat /\
  slot (calculateBaseSpeeds 7 1000 BATTLE_FACTORS_MEGAMON) 3 =
    (floorMul (slot (calculateBaseSpeeds 7 1000 BATTLE_FACTORS_MEGAMON) (3 + 1))
       BATTLE_FACTORS_MEGAMON + 1)%float /\
  (slot (calculateBaseSpeeds 7 1000 BATTLE_FACTORS_MEGAMON) 3 =?
     floorMul (slot (calculateBaseSpeeds 7 1000 BATTLE_FACTORS_MEGAMON) (3 + 1))
       BATTLE_FACTORS_MEGAMON + 1)%float = true.
Proof.
  split; [repeat split; (lia || reflexivity) |].
  apply (upward_relation_any_position 7 3 1000 BATTLE_FACTORS_MEGAMON); (lia || reflexivity).
Defined.

(** ** Downward: [calculateBaseSpeeds] *)

(** C2. For an anchor slot [s] in 1..4, a finite anchor value (in
    particular a non-negative integer) and a factor above one, the
    returned array has four entries and, for every slot [i] above the
    anchor, the value of slot [i] is [Math.floor] of the value of slot
    [i - 1] divided by the factor, minus one: each slot is chained from the
    value computed for its neighbour, the two sides are the same number,
    and [==] holds of them.  The quotient, the floor and the difference
    are the binary64 operations of the code. *)
Theorem downward_slot_from_upper_neighbour (s i : Z) (v f : float) :
  1 <= s <= 4 -> s < i <= 4 ->
  is_finite v = true -> (1 <? f)%float = true ->
  length (calculateBaseSpeeds s v f) = 4%nat /\
  slot (calculateBaseSpeeds s v f) i =
    (Math_floor (slot (calculateBaseSpeeds s v f) (i - 1) / f) - 1)%float /\
  (slot (calculateBaseSpeeds s v f) i =?
     Math_floor (slot (calculateBaseSpeeds s v f) (i - 1) / f) - 1)%float = true.
Proof.
  intros Hs Hi Hv Hfgt.
  assert (G0 : is_nan v = false /\ (is_finite f = true \/ is_finite v = true))
    by (split; [apply is_finite_not_nan, Hv | right; exact Hv]).
  pose proof (downward_step_defined v f Hfgt G0) as G1.
  pose proof (downward_step_defined _ f Hfgt G1) as G2.
  pose proof (downward_step_defined _ f Hfgt G2) as G3.
  destruct G1 as [N1 _], G2 as [N2 _], G3 as [N3 _].
  split; [reflexivity |].
  slot_cases s Hs;
    (assert (E : i = 2 \/ i = 3 \/ i = 4) by lia;
     destruct E as [-> | [-> | ->]]; try lia); (split; [reflexivity |]).
  - exact (eqb_refl _ N1).
  - exact (eqb_refl _ N2).
  - exact (eqb_refl _ N3).
  - exact (eqb_refl _ N1).
  - exact (eqb_refl _ N2).
  - exact (eqb_refl _ N1).
Qed.

Lemma downward_slot_from_upper_neighbour_witness :
  (1 <= 1 <= 4 /\ 1 < 3 <= 4 /\ is_finite 1000 = true /\
   (1 <? BATTLE_FACTORS_MEGAMON)%float = true) /\
  length (calculateBaseSpeeds 1 1000 BATTLE_FACTORS_MEGAMON) = 4%nat /\
  slot (calculateBaseSpeeds 1 1000 BATTLE_FACTORS_MEGAMON) 3 =
    (Math_floor (slot (calculateBaseSpeeds 1 1000 BATTLE_FACTORS_MEGAMON) (3 - 1)
                 / BATTLE_FACTORS_MEGAMON) - 1)%float /\
  (slot (calculateBaseSpeeds 1 1000 BATTLE_FACTORS_MEGAMON) 3 =?
     Math_floor (slot (calculateBaseSpeeds 1 1000 BATTLE_FACTORS_MEGAMON) (3 - 1)
                 / BATTLE_FACTORS_MEGAMON) - 1)%float = true.
Proof.
  split; [repeat split; (lia || reflexivity) |].
  apply (downward_slot_from_upper_neighbour 1 3 1000 BATTLE_FACTORS_MEGAMON);
    (lia || reflexivity).
Defined.

(** The quotient is the binary64 quotient by the binary64 factor: 110
    divided by 1.1 is 99.99..., so slot 2 is 98, where decimal arithmetic
    would give 99. *)
Example downward_quotient_is_binary64 :
  calculateBaseSpeeds 1 110 0x1.199999999999ap+0 = [110; 98; 88; 79]%float /\
  (110 * 10 / 11 - 1 = 99)%Z.
Proof. vm_compute. split; reflexivity. Qed.

(** X3. For every integer position above -2^53, also zero or a negative
    one, with an anchor value that is not NaN and a finite factor above
    one: the returned array has four entries, and each slot [i] in 2..4
    above the position holds [Math.floor] of the value of slot [i - 1]
    divided by the factor, minus one, as a number and under [==]. *)
Theorem downward_relation_any_position (position i : Z) (v f : float) :
  2 <= i <= 4 -> - 2 ^ 53 < position < i ->
  is_nan v = false -> is_finite f = true -> (1 <? f)%float = true ->
  length (calculateBaseSpeeds position v f) = 4%nat /\
  slot (calculateBaseSpeeds position v f) i =
    (floorDiv (slot (calculateBaseSpeeds position v f) (i - 1)) f - 1)%float /\
  (slot (calculateBaseSpeeds position v f) i =?
     floorDiv (slot (calculateBaseSpeeds position v f) (i - 1)) f - 1)%float = true.
Proof.
  intros Hi Hlt Hv Hffin Hfgt.
  pose proof (calculateBaseSpeeds_not_nan position i v f ltac:(lia) Hv Hffin Hfgt) as Hn.
  split; [reflexivity |].
  assert (E : slot (calculateBaseSpeeds position v f) i =
              (floorDiv (slot (calculateBaseSpeeds position v f) (i - 1)) f - 1)%float).
  { destruct (calculateBaseSpeeds_keys position v f) as (s & -> & _ & _ & Hdown).
    rewrite !slot_slice by lia. apply Hdown. unfold PARTY_SIZE. lia. }
  split; [exact E |]. rewrite <- E. apply eqb_refl, Hn.
Qed.

Lemma downward_relation_any_position_witness :
  (2 <= 2 <= 4 /\ - 2 ^ 53 < -3 < 2 /\ is_nan 1000 = false /\
   is_finite BATTLE_FACTORS_MEGAMON = true /\ (1 <? BATTLE_FACTORS_MEGAMON)%float = true) /\
  length (calculateBaseSpeeds (-3) 1000 BATTLE_FACTORS_MEGAMON) = 4%nat /\
  slot (calculateBaseSpeeds (-3) 1000 BATTLE_FACTORS_MEGAMON) 2 =
    (floorDiv (slot (calculateBaseSpeeds (-3) 1000 BATTLE_FACTORS_MEGAMON) (2 - 1))
       BATTLE_FACTORS_MEGAMON - 1)%float /\
  (slot (calculateBaseSpeeds (-3) 1000 BATTLE_FACTORS_MEGAMON) 2 =?
     floorDiv (slot (calculateBaseSpeeds (-3) 1000 BATTLE_FACTORS_MEGAMON) (2 - 1))
       BATTLE_FACTORS_MEGAMON - 1)%float = true.
Proof.
  split; [repeat split; (lia || reflexivity) |].
  apply (downward_relation_any_position (-3) 2 1000 BATTLE_FACTORS_MEGAMON); (lia || reflexivity).
Defined.

(** ** Effective speeds: [calculateWithBuffs] *)




(** An infinite factor does the same through step 2: with the raw speed 0
    at anchor slot 2, slot 1 is NaN in both arrays. *)
Lemma effective_relation_fails_for_infinite_factor :
  baseSpeeds (calculateWithBuffs 2 0 infinity [1; 1; 1; 1]%float) = [nan; 0; -1; -1]%float /\
  effectiveSpeeds (calculateWithBuffs 2 0 infinity [1; 1; 1; 1]%float) = [nan; 0; -1; -1]%float.
Proof. vm_compute. split; reflexivity. Qed.

(** The product is the binary64 product: the raw speed 1500 with the buff
    1.14 has the effective speed 1709, where decimal arithmetic would give
    1710. *)
Example effective_product_is_binary64 :
  baseSpeeds (calculateWithBuffs 1 1500 BATTLE_FACTORS_MEGAMON
                [0x1.23d70a3d70a3dp+0; 1; 1; 1]%float) = [1500; 1423; 1184; 985]%float /\
  effectiveSpeeds (calculateWithBuffs 1 1500 BATTLE_FACTORS_MEGAMON
                     [0x1.23d70a3d70a3dp+0; 1; 1; 1]%float) = [1709; 1423; 1184; 985]%float /\
  (1500 * 114 / 100 = 1710)%Z.
Proof. vm_compute. repeat split; reflexivity. Qed.
